(** * dav-mcp: request pipeline, tool dispatch and DAV session provider

    A shallow embedding of the HTTP server ([src/server-http.js]), the
    [TsdavClientManager] and the stdio entry point ([src/server-stdio.js])
    of dav-mcp, and the properties of the authentication gate, the two
    protocol handlers, the stateless HTTP binding and the session provider
    that the specification states.

    JavaScript strings are sequences of UTF-16 code units, buffers are byte
    sequences, and every effect of the program (log lines, HTTP responses,
    object construction, logins, clock reads) goes through one state and
    error monad over an explicit [world]. *)

From Stdlib Require Import ZArith NArith Lia List String Ascii Bool.
From stdpp Require Import base option gmap strings list.

Set Warnings "-register-all".

Open Scope string_scope.
Open Scope list_scope.
Open Scope N_scope.

(** ** JavaScript strings and buffers *)

(** A JavaScript string: its UTF-16 code units. *)
Definition jsstring := list N.

(** A string literal of the source (all literals of the program are ASCII). *)
Definition lit (s : string) : jsstring := map N_of_ascii (list_ascii_of_string s).
Arguments lit : simpl never.

(** [String.prototype.startsWith]. *)
Fixpoint startsWith (s p : jsstring) {struct p} : bool :=
  match p, s with
  | [], _ => true
  | _ :: _, [] => false
  | c :: p', d :: s' => (c =? d) && startsWith s' p'
  end.

(** [String.prototype.substring(start)]: the units from [start] on, the
    empty string when [start] is past the end. *)
Definition substring (s : jsstring) (start : nat) : jsstring := drop start s.

(** [a === b] on strings. *)
Definition str_eqb (a b : jsstring) : bool := bool_decide (a = b).

(** [!s] is false exactly for a present, non-empty string; [process.env]
    entries and header values are strings or [undefined]. *)
Definition truthy (s : option jsstring) : bool :=
  match s with
  | Some (_ :: _) => true
  | _ => false
  end.

(** [a || b] where [b] is a string. *)
Definition or_else (a : option jsstring) (b : jsstring) : jsstring :=
  match a with
  | Some (c :: r) => c :: r
  | _ => b
  end.

(** [a || b] where [b] may be [undefined] too. *)
Definition or_opt (a b : option jsstring) : option jsstring :=
  if truthy a then a else b.

Definition is_high_surrogate (u : N) : bool := (55296 <=? u) && (u <=? 56319).
Definition is_low_surrogate (u : N) : bool := (56320 <=? u) && (u <=? 57343).

(** [Buffer.from(string)]: the UTF-8 encoding of the string. A surrogate
    pair is one code point of four bytes, an unpaired surrogate is replaced
    by U+FFFD (EF BF BD). *)
Fixpoint utf8_encode (s : jsstring) : list N :=
  match s with
  | [] => []
  | u :: r =>
      if u <? 128 then u :: utf8_encode r
      else if u <? 2048 then
        (192 + u / 64) :: (128 + u mod 64) :: utf8_encode r
      else if is_high_surrogate u then
        match r with
        | l :: r' =>
            if is_low_surrogate l then
              let cp := 65536 + (u - 55296) * 1024 + (l - 56320) in
              (240 + cp / 262144) :: (128 + (cp / 4096) mod 64)
                :: (128 + (cp / 64) mod 64) :: (128 + cp mod 64)
                :: utf8_encode r'
            else 239 :: 191 :: 189 :: utf8_encode r
        | [] => [239; 191; 189]
        end
      else if is_low_surrogate u then 239 :: 191 :: 189 :: utf8_encode r
      else
        (224 + u / 4096) :: (128 + (u / 64) mod 64) :: (128 + u mod 64)
          :: utf8_encode r
  end.

Definition Buffer_from (s : jsstring) : list N := utf8_encode s.

(** A header value as Node's HTTP parser delivers it: one code unit per
    byte of the wire (latin1), so no unit above 255. *)
Definition latin1 (s : jsstring) : Prop := Forall (fun u => u < 256) s.

(** ** Values and errors *)

(** JSON-like values: arguments, results, schemas, response bodies, log
    fields. Property names are the literal keys of the source. *)
Inductive jsval :=
| JUndefined
| JNull
| JBool (b : bool)
| JNum (n : Z)
| JStr (s : jsstring)
| JArr (items : list jsval)
| JObj (fields : list (string * jsval)).

(** [!!v] *)
Definition truthy_val (v : jsval) : bool :=
  match v with
  | JUndefined | JNull | JBool false | JNum 0%Z | JStr [] => false
  | _ => true
  end.

Definition opt_val (s : option jsstring) : jsval :=
  match s with
  | Some x => JStr x
  | None => JUndefined
  end.

(** The own property names of an object literal. *)
Definition keys (v : jsval) : list string :=
  match v with
  | JObj fields => map fst fields
  | _ => []
  end.

Definition get (k : string) (v : jsval) : option jsval :=
  match v with
  | JObj fields => snd <$> find (fun kv => bool_decide (fst kv = k)) fields
  | _ => None
  end.

(** The constructors of the errors the program throws; [CalDAVError] and
    [CardDAVError] are the classes [error-handler.js] exports. *)
Inductive error_class :=
| ClsError | ClsTypeError | ClsRangeError | ClsCalDAVError | ClsCardDAVError.

(** A thrown error: its constructor, [message], and the ad hoc [code]
    property the dispatch handler attaches. *)
Record js_error := {
  err_class : error_class;
  message : jsstring;
  code : option Z;
}.

Definition new_Error (cls : error_class) (msg : jsstring) : js_error :=
  {| err_class := cls; message := msg; code := None |}.

(** ** The world the program acts on *)

Inductive level := LDebug | LInfo | LWarn | LError.

(** [logger] of [logger.js], or the child logger [createRequestLogger]
    returns for a request id. *)
Inductive logger_id := Logger | RequestLogger (requestId : jsstring).

Inductive registry_query := ListAll | Find (toolName : jsstring).

Inductive session_op := GetCalDavClient | GetCardDavClient.

(** The options a [DAVClient] is constructed with. *)
Record dav_options := {
  dav_serverUrl : option jsstring;
  credentials : jsval;
  dav_authMethod : jsstring;
  defaultAccountType : jsstring;
}.

(** Objects the program constructs. A transport and a protocol server
    remember the response they were constructed for. *)
Inductive object :=
| OTransport (res : nat) (isClosed : bool)
| OServer (res : nat) (requestId : jsstring) (isClosed : bool)
| ODavClient (opts : dav_options).

(** Everything the program does to the outside, in program order. *)
Inductive event :=
| EvLog (lg : logger_id) (lvl : level) (fields : list (string * jsval)) (msg : string)
| EvStatus (res : nat) (status : Z)
| EvJson (res : nat) (payload : jsval)
| EvTimingSafeEqual (a b : list N)
| EvDateNow (value : Z)
| EvRandomUUID (value : jsstring)
| EvRegistry (q : registry_query)
| EvToolCallStart (toolName : jsstring) (args : jsval) (ctx : list (string * jsval))
| EvToolCallSuccess (toolName : jsstring) (args result : jsval) (ctx : list (string * jsval))
| EvToolCallError (toolName : jsstring) (args : jsval) (error : js_error)
    (ctx : list (string * jsval))
| EvHandler (toolName : jsstring) (args : jsval)
| EvSession (op : session_op)
| EvNew (addr : nat) (o : object)
| EvLogin (client : nat)
| EvOnClose (res transport server : nat)
| EvConnect (res server transport : nat)
| EvHandleRequest (res transport : nat)
| EvClose (res addr : nat)
| EvSend (res : nat) (payload : jsval)
| EvExit (status : Z).

(** The configuration object [initialize] receives; an absent property is
    [None]. *)
Record config := {
  serverUrl : option jsstring;
  cardDavServerUrl : option jsstring;
  authMethod : option jsstring;
  username : option jsstring;
  password : option jsstring;
  clientId : option jsstring;
  clientSecret : option jsstring;
  refreshToken : option jsstring;
  tokenUrl : option jsstring;
}.

(** The fields of the [TsdavClientManager] singleton. *)
Record manager := {
  this_calDavClient : option nat;
  this_cardDavClient : option nat;
  this_config : option config;
  this_authMethod : option jsstring;
}.

(** Where the route handler of a request stands between two awaits. *)
Inductive phase :=
| NotRouted
| AwaitConnect (requestId : jsstring) (transport server : nat)
| AwaitHandleRequest (requestId : jsstring) (transport server : nat)
| Finished.

(** The state of a response object [res]. *)
Record response := {
  headersSent : bool;
  closeListeners : list (nat * nat);
  closed : bool;
  route : phase;
}.

Record world := {
  trace : list event;
  heap : gmap nat object;
  responses : gmap nat response;
  tsdavManager : manager;
  dateNowCalls : nat;
  uuidCalls : nat;
}.

(** [new TsdavClientManager()] *)
Definition new_manager : manager :=
  {| this_calDavClient := None; this_cardDavClient := None;
     this_config := None; this_authMethod := None |}.

(** The process when the module has been loaded and nothing has run. *)
Definition initial_world : world :=
  {| trace := []; heap := ∅; responses := ∅; tsdavManager := new_manager;
     dateNowCalls := 0; uuidCalls := 0 |}.

Definition set_trace (f : list event → list event) (w : world) : world :=
  {| trace := f (trace w); heap := heap w; responses := responses w;
     tsdavManager := tsdavManager w; dateNowCalls := dateNowCalls w;
     uuidCalls := uuidCalls w |}.

Definition set_heap (f : gmap nat object → gmap nat object) (w : world) : world :=
  {| trace := trace w; heap := f (heap w); responses := responses w;
     tsdavManager := tsdavManager w; dateNowCalls := dateNowCalls w;
     uuidCalls := uuidCalls w |}.

Definition set_responses (f : gmap nat response → gmap nat response) (w : world) : world :=
  {| trace := trace w; heap := heap w; responses := f (responses w);
     tsdavManager := tsdavManager w; dateNowCalls := dateNowCalls w;
     uuidCalls := uuidCalls w |}.

Definition set_manager (f : manager → manager) (w : world) : world :=
  {| trace := trace w; heap := heap w; responses := responses w;
     tsdavManager := f (tsdavManager w); dateNowCalls := dateNowCalls w;
     uuidCalls := uuidCalls w |}.

(** ** The monad of the program: state, exceptions and process exit *)

Inductive completion (A : Type) :=
| Normal (a : A)
| Throw (e : js_error)
| Exit (status : Z).
Arguments Normal {A} a.
Arguments Throw {A} e.
Arguments Exit {A} status.

Definition M (A : Type) : Type := world → completion A * world.

#[global] Instance M_ret : MRet M := λ A a w, (Normal a, w).

#[global] Instance M_bind : MBind M := λ A B f m w,
  match m w with
  | (Normal a, w') => f a w'
  | (Throw e, w') => (Throw e, w')
  | (Exit c, w') => (Exit c, w')
  end.

Definition throw {A} (e : js_error) : M A := λ w, (Throw e, w).

(** [try { body } catch (error) { handler error }] *)
Definition try_catch {A} (body : M A) (handler : js_error → M A) : M A := λ w,
  match body w with
  | (Throw e, w') => handler e w'
  | r => r
  end.

Definition emit (e : event) : M unit := λ w, (Normal (), set_trace (λ t, t ++ [e]) w).

Definition get_world : M world := λ w, (Normal w, w).

Definition modify (f : world → world) : M unit := λ w, (Normal (), f w).

(** [process.exit(status)] *)
Definition process_exit {A} (status : Z) : M A := λ w,
  (Exit status, set_trace (λ t, t ++ [EvExit status]) w).

(** Modelled from the spec: [logger.js] is not among the sources. A call
    of [logger.debug/info/warn/error(fields, msg)], on the process logger
    or on the child logger of a request, writes one line and returns (§1
    leaves the log sink and its formatting out). *)
Definition log (lg : logger_id) (lvl : level) (fields : list (string * jsval))
    (msg : string) : M unit :=
  emit (EvLog lg lvl fields msg).

(** The events a computation adds to a world. *)
Definition events_of {A} (m : M A) (w : world) : list event :=
  drop (length (trace w)) (trace (m w).2).

(** ** The tool registry and what the program takes from outside *)

(** Modelled from the spec: the tool handlers live in [tools/], which is
    not among the sources. §3 gives a descriptor a [handler], an "async
    function(args) → result", and §2 lets a handler call the session
    provider and end in a result or a failure: for given arguments a
    handler asks the session provider for clients, in some order, and
    settles with a result or an error. *)
Record handler_run := {
  session_ops : list session_op;
  settles : jsval + js_error;
}.

(** A tool descriptor of [tools/index.js]. *)
Record tool := {
  name : jsstring;
  description : jsval;
  inputSchema : jsval;
  handler : jsval → handler_run;
}.

(** What the source imports or reads and does not define: the environment
    variables, the registry [tools], the wall clock behind [Date.now()],
    [crypto.randomUUID()], the outcome of a [DAVClient] login, and the two
    names taken from [error-handler.js]. *)
Record platform := {
  process_env : gmap string jsstring;
  tools : list tool;
  wall_clock : nat → Z;
  uuid_source : nat → jsstring;
  login_outcome : dav_options → option js_error;
  METHOD_NOT_FOUND : Z;
  createToolErrorResponse : js_error → bool → jsval;
}.

(** [process.env.k] *)
Definition env (P : platform) (k : string) : option jsstring := process_env P !! k.

(** [Date.now()]: the wall-clock reading at this moment, the [k]-th read
    of the run returning [wall_clock k]. *)
Definition Date_now (P : platform) : M Z := λ w,
  let v := wall_clock P (dateNowCalls w) in
  (Normal v,
   {| trace := trace w ++ [EvDateNow v]; heap := heap w; responses := responses w;
      tsdavManager := tsdavManager w; dateNowCalls := S (dateNowCalls w);
      uuidCalls := uuidCalls w |}).

(** [crypto.randomUUID()] *)
Definition crypto_randomUUID (P : platform) : M jsstring := λ w,
  let v := uuid_source P (uuidCalls w) in
  (Normal v,
   {| trace := trace w ++ [EvRandomUUID v]; heap := heap w; responses := responses w;
      tsdavManager := tsdavManager w; dateNowCalls := dateNowCalls w;
      uuidCalls := S (uuidCalls w) |}).

(** [crypto.timingSafeEqual(a, b)]: throws a [RangeError] when the byte
    lengths differ, otherwise tells whether the buffers are equal. *)
Definition crypto_timingSafeEqual (a b : list N) : M bool :=
  emit (EvTimingSafeEqual a b);;
  if Nat.eqb (length a) (length b) then mret (bool_decide (a = b))
  else throw (new_Error ClsRangeError
                (lit "Input buffers must have the same byte length")).

(** [new C(...)]: a fresh address holding the object. *)
Definition alloc (o : object) : M nat := λ w,
  let a := fresh (dom (heap w)) in
  (Normal a, set_trace (λ t, t ++ [EvNew a o]) (set_heap (insert a o) w)).

(** ** The authentication gate ([authenticateBearer]) *)

Record request := {
  authorization : option jsstring;
  ip : option jsstring;
}.

Definition jsonrpc_error (c : Z) (msg : string) : jsval :=
  JObj [("jsonrpc", JStr (lit "2.0"));
        ("error", JObj [("code", JNum c); ("message", JStr (lit msg))]);
        ("id", JNull)].

Definition res_status (res : nat) (status : Z) : M unit := emit (EvStatus res status).

Definition sent (r : response) : response :=
  {| headersSent := true; closeListeners := closeListeners r; closed := closed r;
     route := route r |}.

Definition res_json (res : nat) (payload : jsval) : M unit :=
  emit (EvJson res payload);;
  modify (set_responses (alter sent res)).

(** [authenticateBearer(req, res, next)]; [next] is the rest of the
    handler chain of the route. The first [match] is [if (!bearerToken)],
    the second is [!authHeader] of the disjunction, and [invalid] is the
    disjunction of the last test, whose right operand is evaluated only
    when the lengths are equal. *)
Definition authenticateBearer (P : platform) (res : nat) (req : request)
    (next : M unit) : M unit :=
  let bearerToken := env P "BEARER_TOKEN" in
  match bearerToken with
  | None | Some [] =>
      log Logger LError [] "Server misconfiguration: BEARER_TOKEN not set";;
      res_status res 500;;
      res_json res (jsonrpc_error (-32603) "Server misconfiguration: BEARER_TOKEN not set")
  | Some bearerToken =>
      let authHeader := authorization req in
      let required :=
        log Logger LWarn [("ip", opt_val (ip req))] "Unauthorized: Bearer token required";;
        res_status res 401;;
        res_json res (jsonrpc_error (-32001) "Unauthorized: Bearer token required") in
      match authHeader with
      | None | Some [] => required
      | Some authHeader =>
          if negb (startsWith authHeader (lit "Bearer ")) then required
          else
            let token := substring authHeader 7 in
            let tokenBuffer := Buffer_from token in
            let secretBuffer := Buffer_from bearerToken in
            invalid ←
              (if negb (Nat.eqb (length tokenBuffer) (length secretBuffer))
               then mret true
               else equal ← crypto_timingSafeEqual tokenBuffer secretBuffer;
                    mret (negb equal));
            if invalid : bool then
              log Logger LWarn [("ip", opt_val (ip req))] "Unauthorized: Invalid token";;
              res_status res 401;;
              res_json res (jsonrpc_error (-32001) "Unauthorized: Invalid token")
            else next
      end
  end.

(** ** The DAV session provider ([TsdavClientManager]) *)

Definition with_calDavClient (c : option nat) (m : manager) : manager :=
  {| this_calDavClient := c; this_cardDavClient := this_cardDavClient m;
     this_config := this_config m; this_authMethod := this_authMethod m |}.

Definition with_cardDavClient (c : option nat) (m : manager) : manager :=
  {| this_calDavClient := this_calDavClient m; this_cardDavClient := c;
     this_config := this_config m; this_authMethod := this_authMethod m |}.

Definition with_config (c : option config) (m : manager) : manager :=
  {| this_calDavClient := this_calDavClient m; this_cardDavClient := this_cardDavClient m;
     this_config := c; this_authMethod := this_authMethod m |}.

Definition with_authMethod (a : option jsstring) (m : manager) : manager :=
  {| this_calDavClient := this_calDavClient m; this_cardDavClient := this_cardDavClient m;
     this_config := this_config m; this_authMethod := a |}.

(** [new DAVClient(opts)] *)
Definition new_DAVClient (opts : dav_options) : M nat := alloc (ODavClient opts).

(** [await client.login()]: the one place the provider goes to the network. *)
Definition login (P : platform) (client : option nat) : M unit :=
  match client with
  | Some c =>
      emit (EvLogin c);;
      w ← get_world;
      match heap w !! c with
      | Some (ODavClient opts) =>
          match login_outcome P opts with
          | None => mret ()
          | Some error => throw error
          end
      | _ => mret ()
      end
  | None => throw (new_Error ClsTypeError
                     (lit "Cannot read properties of null (reading 'login')"))
  end.

Definition this : M manager :=
  w ← get_world;
  mret (tsdavManager w).

Definition _initializeBasicAuth (P : platform) (cfg : config) : M unit :=
  (if negb (truthy (username cfg)) || negb (truthy (password cfg))
   then throw (new_Error ClsError (lit "Basic Auth requires username and password"))
   else mret ());;
  calDav ← new_DAVClient
    {| dav_serverUrl := serverUrl cfg;
       credentials := JObj [("username", opt_val (username cfg));
                            ("password", opt_val (password cfg))];
       dav_authMethod := lit "Basic";
       defaultAccountType := lit "caldav" |};
  modify (set_manager (with_calDavClient (Some calDav)));;
  cardDav ← new_DAVClient
    {| dav_serverUrl := or_opt (cardDavServerUrl cfg) (serverUrl cfg);
       credentials := JObj [("username", opt_val (username cfg));
                            ("password", opt_val (password cfg))];
       dav_authMethod := lit "Basic";
       defaultAccountType := lit "carddav" |};
  modify (set_manager (with_cardDavClient (Some cardDav)));;
  m ← this;
  login P (this_calDavClient m);;
  log Logger LDebug [("accountType", JStr (lit "caldav"))]
    "CalDAV client logged in (Basic Auth)";;
  m ← this;
  login P (this_cardDavClient m);;
  log Logger LDebug [("accountType", JStr (lit "carddav"))]
    "CardDAV client logged in (Basic Auth)".

Definition _initializeOAuth (P : platform) (cfg : config) : M unit :=
  (if negb (truthy (username cfg))
   then throw (new_Error ClsError (lit "OAuth requires username (user email)"))
   else mret ());;
  (if negb (truthy (clientId cfg)) || negb (truthy (clientSecret cfg))
      || negb (truthy (refreshToken cfg))
   then throw (new_Error ClsError
                 (lit "OAuth requires clientId, clientSecret, and refreshToken"))
   else mret ());;
  let tokenUrl := or_else (tokenUrl cfg) (lit "https://accounts.google.com/o/oauth2/token") in
  let oauthCredentials :=
    JObj [("tokenUrl", JStr tokenUrl);
          ("username", opt_val (username cfg));
          ("refreshToken", opt_val (refreshToken cfg));
          ("clientId", opt_val (clientId cfg));
          ("clientSecret", opt_val (clientSecret cfg))] in
  log Logger LDebug
    [("username", opt_val (username cfg)); ("tokenUrl", JStr tokenUrl);
     ("serverUrl", opt_val (serverUrl cfg))]
    "Configuring OAuth2 credentials";;
  calDav ← new_DAVClient
    {| dav_serverUrl := serverUrl cfg;
       credentials := oauthCredentials;
       dav_authMethod := lit "Oauth";
       defaultAccountType := lit "caldav" |};
  modify (set_manager (with_calDavClient (Some calDav)));;
  cardDav ← new_DAVClient
    {| dav_serverUrl := or_opt (cardDavServerUrl cfg) (serverUrl cfg);
       credentials := oauthCredentials;
       dav_authMethod := lit "Oauth";
       defaultAccountType := lit "carddav" |};
  modify (set_manager (with_cardDavClient (Some cardDav)));;
  m ← this;
  login P (this_calDavClient m);;
  log Logger LDebug [("accountType", JStr (lit "caldav"))]
    "CalDAV client logged in (OAuth2)";;
  try_catch
    (m ← this;
     login P (this_cardDavClient m);;
     log Logger LDebug [("accountType", JStr (lit "carddav"))]
       "CardDAV client logged in (OAuth2)")
    (λ error,
     log Logger LWarn [("error", JStr (message error))]
       "CardDAV login failed (expected for Google Calendar)").

Definition initialize (P : platform) (cfg : config) : M unit :=
  modify (set_manager (with_config (Some cfg)));;
  modify (set_manager (with_authMethod (Some (or_else (authMethod cfg) (lit "Basic")))));;
  m ← this;
  let method := default [] (this_authMethod m) in
  try_catch
    (let useOAuth := str_eqb method (lit "OAuth") || str_eqb method (lit "Oauth") in
     (if useOAuth then
        log Logger LInfo [("serverUrl", opt_val (serverUrl cfg))]
          "Initializing tsdav clients with OAuth2";;
        _initializeOAuth P cfg
      else
        log Logger LInfo [("serverUrl", opt_val (serverUrl cfg))]
          "Initializing tsdav clients with Basic Auth";;
        _initializeBasicAuth P cfg);;
     log Logger LInfo
       [("serverUrl", opt_val (serverUrl cfg)); ("authMethod", JStr method)]
       "tsdav clients initialized and logged in")
    (λ error,
     log Logger LError
       [("error", JStr (message error)); ("serverUrl", opt_val (serverUrl cfg));
        ("authMethod", JStr method)]
       "Failed to initialize tsdav clients";;
     throw error).

Definition getCalDavClient : M nat :=
  emit (EvSession GetCalDavClient);;
  m ← this;
  match this_calDavClient m with
  | None =>
      let error := new_Error ClsCalDAVError
                     (lit "CalDAV client not initialized. Call initialize() first.") in
      log Logger LError [] "CalDAV client not initialized";;
      throw error
  | Some client => mret client
  end.

Definition getCardDavClient : M nat :=
  emit (EvSession GetCardDavClient);;
  m ← this;
  match this_cardDavClient m with
  | None =>
      let error := new_Error ClsCardDAVError
                     (lit "CardDAV client not initialized. Call initialize() first.") in
      log Logger LError [] "CardDAV client not initialized";;
      throw error
  | Some client => mret client
  end.

(** ** Start-up ([initializeTsdav] of the two entry points) *)

Definition oauth_config (P : platform) : config :=
  {| serverUrl := Some (or_else (env P "GOOGLE_SERVER_URL")
                          (lit "https://apidata.googleusercontent.com/caldav/v2/"));
     cardDavServerUrl := None;
     authMethod := Some (lit "OAuth");
     username := env P "GOOGLE_USER";
     password := None;
     clientId := env P "GOOGLE_CLIENT_ID";
     clientSecret := env P "GOOGLE_CLIENT_SECRET";
     refreshToken := env P "GOOGLE_REFRESH_TOKEN";
     tokenUrl := Some (or_else (env P "GOOGLE_TOKEN_URL")
                         (lit "https://accounts.google.com/o/oauth2/token")) |}.

(** The body both entry points share: [cardDavServerUrl] is what the entry
    point passes for the separate CardDAV server. *)
Definition initializeTsdav_body (P : platform) (cardDavUrl : option jsstring) : M unit :=
  let authMethod := or_else (env P "AUTH_METHOD") (lit "Basic") in
  if str_eqb authMethod (lit "OAuth") || str_eqb authMethod (lit "Oauth") then
    log Logger LInfo [] "Initializing with OAuth2 authentication";;
    (if negb (truthy (env P "GOOGLE_CLIENT_ID"))
        || negb (truthy (env P "GOOGLE_CLIENT_SECRET"))
        || negb (truthy (env P "GOOGLE_REFRESH_TOKEN"))
     then throw (new_Error ClsError
                   (lit "OAuth2 requires GOOGLE_CLIENT_ID, GOOGLE_CLIENT_SECRET, and GOOGLE_REFRESH_TOKEN"))
     else mret ());;
    initialize P (oauth_config P);;
    log Logger LInfo [] "OAuth2 clients initialized successfully"
  else
    log Logger LInfo [] "Initializing with Basic authentication";;
    (if negb (truthy (env P "CALDAV_SERVER_URL"))
        || negb (truthy (env P "CALDAV_USERNAME"))
        || negb (truthy (env P "CALDAV_PASSWORD"))
     then throw (new_Error ClsError
                   (lit "Basic Auth requires CALDAV_SERVER_URL, CALDAV_USERNAME, and CALDAV_PASSWORD"))
     else mret ());;
    initialize P
      {| serverUrl := env P "CALDAV_SERVER_URL";
         cardDavServerUrl := cardDavUrl;
         authMethod := Some (lit "Basic");
         username := env P "CALDAV_USERNAME";
         password := env P "CALDAV_PASSWORD";
         clientId := None; clientSecret := None; refreshToken := None;
         tokenUrl := None |};;
    log Logger LInfo [] "Basic Auth clients initialized successfully".

(** [initializeTsdav] of [server-http.js]: a failure is logged and ends
    the process. *)
Definition initializeTsdav_http (P : platform) : M unit :=
  try_catch (initializeTsdav_body P None)
    (λ error,
     log Logger LError [("error", JStr (message error))]
       "Failed to initialize tsdav clients";;
     process_exit 1).

(** [initializeTsdav] of the stdio entry point: a failure is thrown to
    the caller. *)
Definition initializeTsdav_stdio (P : platform) : M unit :=
  initializeTsdav_body P (env P "CARDDAV_SERVER_URL").

(** [startStdioServer] up to the initialization of the tool-call logger,
    with its handler of fatal errors (which logs [error.stack] as well). *)
Definition startStdioServer (P : platform) : M unit :=
  try_catch
    (log Logger LInfo [] "Starting dav-mcp STDIO server...";;
     initializeTsdav_stdio P;;
     log Logger LInfo [] "Tool call logger initialized")
    (λ error,
     log Logger LError [("error", JStr (message error))]
       "Fatal error starting server";;
     process_exit 1).

(** ** The protocol handlers ([createMCPServer]) *)

(** [request.params] of a [tools/call] request. *)
Record call_request := {
  params_name : jsstring;
  params_arguments : jsval;
}.

(** Modelled from the spec: [tool-call-logger.js] is not among the
    sources. §4.3 gives the logger three recording operations, for the
    start, the success and the error of a call, each "fire-and-forget
    relative to the dispatch pipeline": a call records one entry and
    returns. [getToolCallLogger()] hands out the process-wide logger these
    are methods of and does nothing else. *)
Definition logToolCallStart (toolName : jsstring) (args : jsval)
    (ctx : list (string * jsval)) : M unit :=
  emit (EvToolCallStart toolName args ctx).

Definition logToolCallSuccess (toolName : jsstring) (args result : jsval)
    (ctx : list (string * jsval)) : M unit :=
  emit (EvToolCallSuccess toolName args result ctx).

Definition logToolCallError (toolName : jsstring) (args : jsval) (error : js_error)
    (ctx : list (string * jsval)) : M unit :=
  emit (EvToolCallError toolName args error ctx).

(** [tools.map(t => ({ name, description, inputSchema }))] *)
Definition project (t : tool) : jsval :=
  JObj [("name", JStr (name t));
        ("description", description t);
        ("inputSchema", inputSchema t)].

Definition registry_map (P : platform) : M (list jsval) :=
  emit (EvRegistry ListAll);;
  mret (map project (tools P)).

(** [tools.find(t => t.name === toolName)] *)
Definition registry_find (P : platform) (toolName : jsstring) : M (option tool) :=
  emit (EvRegistry (Find toolName));;
  mret (find (λ t, str_eqb (name t) toolName) (tools P)).

Fixpoint access_session (ops : list session_op) : M unit :=
  match ops with
  | [] => mret ()
  | GetCalDavClient :: rest => getCalDavClient;; access_session rest
  | GetCardDavClient :: rest => getCardDavClient;; access_session rest
  end.

(** [await tool.handler(args)]: an accessor of the session provider that
    throws makes the handler fail with that error. *)
Definition invoke (t : tool) (args : jsval) : M jsval :=
  emit (EvHandler (name t) args);;
  access_session (session_ops (handler t args));;
  match settles (handler t args) with
  | inl result => mret result
  | inr error => throw error
  end.

Definition development (P : platform) : bool :=
  bool_decide (env P "NODE_ENV" = Some (lit "development")).

Definition count (P : platform) : jsval := JNum (Z.of_nat (length (tools P))).

(** The [tools/list] handler of the HTTP server. *)
Definition list_tools_http (P : platform) (requestId : jsstring) : M jsval :=
  log (RequestLogger requestId) LDebug [("count", count P)] "tools/list request";;
  projected ← registry_map P;
  mret (JObj [("tools", JArr projected)]).

(** The [tools/list] handler of the stdio server. *)
Definition list_tools_stdio (P : platform) : M jsval :=
  log Logger LDebug [("count", count P)] "tools/list request received";;
  projected ← registry_map P;
  mret (JObj [("tools", JArr projected)]).

(** The [tools/call] handler of the HTTP server. *)
Definition call_tool_http (P : platform) (requestId : jsstring)
    (request : call_request) : M jsval :=
  let requestLogger := RequestLogger requestId in
  let toolName := params_name request in
  let args := if truthy_val (params_arguments request)
              then params_arguments request else JObj [] in
  log requestLogger LInfo [("tool", JStr toolName)] "tools/call request";;
  found ← registry_find P toolName;
  match found with
  | None =>
      log requestLogger LError [("tool", JStr toolName)] "Tool not found";;
      throw {| err_class := ClsError;
               message := lit "Unknown tool: " ++ toolName;
               code := Some (METHOD_NOT_FOUND P) |}
  | Some tool =>
      startTime ← Date_now P;
      logToolCallStart toolName args
        [("requestId", JStr requestId); ("transport", JStr (lit "http"))];;
      try_catch
        (result ← invoke tool args;
         finish ← Date_now P;
         let duration := (finish - startTime)%Z in
         log requestLogger LInfo [("tool", JStr toolName); ("duration", JNum duration)]
           "Tool executed successfully";;
         logToolCallSuccess toolName args result
           [("requestId", JStr requestId); ("transport", JStr (lit "http"));
            ("duration", JNum duration)];;
         mret result)
        (λ error,
         finish ← Date_now P;
         let duration := (finish - startTime)%Z in
         log requestLogger LError
           [("tool", JStr toolName); ("error", JStr (message error))]
           "Tool execution error";;
         logToolCallError toolName args error
           [("requestId", JStr requestId); ("transport", JStr (lit "http"));
            ("duration", JNum duration)];;
         mret (createToolErrorResponse P error (development P)))
  end.

(** The [tools/call] handler of the stdio server. *)
Definition call_tool_stdio (P : platform) (request : call_request) : M jsval :=
  let toolName := params_name request in
  let toolArgs := if truthy_val (params_arguments request)
                  then params_arguments request else JObj [] in
  log Logger LInfo [("tool", JStr toolName)] "tools/call request received";;
  found ← registry_find P toolName;
  match found with
  | None =>
      log Logger LError [("tool", JStr toolName)] "Tool not found";;
      throw {| err_class := ClsError;
               message := lit "Unknown tool: " ++ toolName;
               code := Some (METHOD_NOT_FOUND P) |}
  | Some tool =>
      startTime ← Date_now P;
      logToolCallStart toolName toolArgs [("transport", JStr (lit "stdio"))];;
      try_catch
        (log Logger LDebug [("tool", JStr toolName)] "Executing tool";;
         result ← invoke tool toolArgs;
         finish ← Date_now P;
         let duration := (finish - startTime)%Z in
         log Logger LInfo [("tool", JStr toolName); ("duration", JNum duration)]
           "Tool executed successfully";;
         logToolCallSuccess toolName toolArgs result
           [("transport", JStr (lit "stdio")); ("duration", JNum duration)];;
         mret result)
        (λ error,
         finish ← Date_now P;
         let duration := (finish - startTime)%Z in
         log Logger LError
           [("tool", JStr toolName); ("error", JStr (message error))]
           "Tool execution error";;
         logToolCallError toolName toolArgs error
           [("transport", JStr (lit "stdio")); ("duration", JNum duration)];;
         mret (createToolErrorResponse P error (development P)))
  end.

(** ** The stateless HTTP binding ([app.post('/mcp', ...)]) *)

Definition new_response : response :=
  {| headersSent := false; closeListeners := []; closed := false; route := NotRouted |}.

Definition listening (transport server : nat) (r : response) : response :=
  {| headersSent := headersSent r;
     closeListeners := closeListeners r ++ [(transport, server)];
     closed := closed r; route := route r |}.

Definition routed (p : phase) (r : response) : response :=
  {| headersSent := headersSent r; closeListeners := closeListeners r;
     closed := closed r; route := p |}.

Definition ended (r : response) : response :=
  {| headersSent := headersSent r; closeListeners := closeListeners r;
     closed := true; route := route r |}.

(** [res.on('close', () => { transport.close(); server.close(); })] *)
Definition res_on_close (res transport server : nat) : M unit :=
  emit (EvOnClose res transport server);;
  modify (set_responses (alter (listening transport server) res)).

Definition res_headersSent (res : nat) : M bool :=
  w ← get_world;
  mret (from_option headersSent false (responses w !! res)).

Definition set_route (res : nat) (p : phase) : M unit :=
  modify (set_responses (alter (routed p) res)).

Definition get_route (res : nat) : M phase :=
  w ← get_world;
  mret (from_option route NotRouted (responses w !! res)).

(** [createMCPServer(requestId)]: a new [Server] with the two request
    handlers, closed over [requestId], registered on it. *)
Definition createMCPServer (res : nat) (requestId : jsstring) : M nat :=
  alloc (OServer res requestId false).

(** The [catch] block of the route handler. *)
Definition post_mcp_catch (res : nat) (requestId : jsstring) (error : js_error) : M unit :=
  log Logger LError [("requestId", JStr requestId); ("error", JStr (message error))]
    "Error handling MCP request";;
  isSent ← res_headersSent res;
  if negb isSent then
    res_status res 500;;
    res_json res (jsonrpc_error (-32603) "Internal server error")
  else mret ().

(** The route handler up to its first [await]: it constructs the transport
    and the server, registers the close listener and calls
    [server.connect(transport)]. *)
Definition post_mcp (P : platform) (res : nat) (req : request) : M unit :=
  requestId ← crypto_randomUUID P;
  try_catch
    (transport ← alloc (OTransport res false);
     server ← createMCPServer res requestId;
     res_on_close res transport server;;
     emit (EvConnect res server transport);;
     set_route res (AwaitConnect requestId transport server))
    (post_mcp_catch res requestId).

(** [await server.connect(transport)] settles: on success the handler goes
    on to [transport.handleRequest(req, res, req.body)], on failure to its
    [catch] block. *)
Definition connect_settled (res : nat) (outcome : option js_error) : M unit :=
  p ← get_route res;
  match p with
  | AwaitConnect requestId transport server =>
      match outcome with
      | None =>
          emit (EvHandleRequest res transport);;
          set_route res (AwaitHandleRequest requestId transport server)
      | Some error =>
          post_mcp_catch res requestId error;;
          set_route res Finished
      end
  | _ => mret ()
  end.

(** A decoded JSON-RPC request of the two methods the server registers. *)
Inductive rpc :=
| ToolsList
| ToolsCall (request : call_request).

(** The SDK writes a JSON-RPC response on [res]. *)
Definition sdk_send (res : nat) (payload : jsval) : M unit :=
  emit (EvSend res payload);;
  modify (set_responses (alter sent res)).

(** Inside [transport.handleRequest]: the SDK runs the handler the server
    registered for the method and answers with its result, or with a
    JSON-RPC error carrying the [code] of the error the handler threw. *)
Definition sdk_dispatch (P : platform) (res : nat) (r : rpc) : M unit :=
  p ← get_route res;
  match p with
  | AwaitHandleRequest requestId transport server =>
      try_catch
        (result ← match r with
                  | ToolsList => list_tools_http P requestId
                  | ToolsCall request => call_tool_http P requestId request
                  end;
         sdk_send res (JObj [("jsonrpc", JStr (lit "2.0")); ("result", result)]))
        (λ error,
         sdk_send res
           (JObj [("jsonrpc", JStr (lit "2.0"));
                  ("error", JObj [("code", JNum (default (-32603)%Z (code error)));
                                  ("message", JStr (message error))])]))
  | _ => mret ()
  end.

(** [await transport.handleRequest(...)] settles. *)
Definition handleRequest_settled (res : nat) (outcome : option js_error) : M unit :=
  p ← get_route res;
  match p with
  | AwaitHandleRequest requestId transport server =>
      match outcome with
      | None => set_route res Finished
      | Some error =>
          post_mcp_catch res requestId error;;
          set_route res Finished
      end
  | _ => mret ()
  end.

Definition close_object (o : object) : object :=
  match o with
  | OTransport res _ => OTransport res true
  | OServer res requestId _ => OServer res requestId true
  | ODavClient opts => ODavClient opts
  end.

(** [transport.close()] and [server.close()] *)
Definition close (res addr : nat) : M unit :=
  emit (EvClose res addr);;
  modify (set_heap (alter close_object addr)).

Fixpoint run_close_listeners (res : nat) (ls : list (nat * nat)) : M unit :=
  match ls with
  | [] => mret ()
  | (transport, server) :: rest =>
      close res transport;;
      close res server;;
      run_close_listeners res rest
  end.

(** The ['close'] event of a response: emitted once, on completion of the
    response or when the client goes away; it runs the listeners. *)
Definition res_close (res : nat) : M unit :=
  w ← get_world;
  match responses w !! res with
  | Some r =>
      if closed r then mret ()
      else
        modify (set_responses (alter ended res));;
        run_close_listeners res (closeListeners r)
  | None => mret ()
  end.

(** The route: the gate, then the handler. *)
Definition app_post_mcp (P : platform) (res : nat) (req : request) : M unit :=
  authenticateBearer P res req (post_mcp P res req).

(** A request arrives: Node makes its response object, Express runs the
    route on it. *)
Definition arrive (P : platform) (req : request) : M unit := λ w,
  let res := fresh (dom (responses w)) in
  app_post_mcp P res req (set_responses (insert res new_response) w).

(** What the event loop delivers to the HTTP server. *)
Inductive input :=
| Arrive (req : request)
| ConnectSettled (res : nat) (outcome : option js_error)
| Dispatch (res : nat) (r : rpc)
| HandleRequestSettled (res : nat) (outcome : option js_error)
| ResClose (res : nat).

Definition step (P : platform) (i : input) (w : world) : world :=
  match i with
  | Arrive req => (arrive P req w).2
  | ConnectSettled res outcome => (connect_settled res outcome w).2
  | Dispatch res r => (sdk_dispatch P res r w).2
  | HandleRequestSettled res outcome => (handleRequest_settled res outcome w).2
  | ResClose res => (res_close res w).2
  end.

Definition run (P : platform) (inputs : list input) (w : world) : world :=
  foldl (λ w i, step P i w) w inputs.

(** The response a request will get in a world. *)
Definition next_res (w : world) : nat := fresh (dom (responses w)).

(** The transports and servers in the heap that were constructed for [res]. *)
Definition constructed_for (res : nat) (o : object) : bool :=
  match o with
  | OTransport r _ | OServer r _ _ => bool_decide (r = res)
  | ODavClient _ => false
  end.

Definition is_closed (o : object) : bool :=
  match o with
  | OTransport _ c | OServer _ _ c => c
  | ODavClient _ => false
  end.

(** The request on whose behalf an event touches an instance. *)
Definition uses (e : event) : list (nat * nat) :=
  match e with
  | EvOnClose res transport server => [(transport, res); (server, res)]
  | EvConnect res server transport => [(server, res); (transport, res)]
  | EvHandleRequest res transport => [(transport, res)]
  | EvClose res addr => [(addr, res)]
  | _ => []
  end.


(** ** The rest of the HTTP server: CORS, the other routes, [start] *)

(** [String.prototype.split(sep)] for a separator of one code unit: the
    pieces between the occurrences of [sep], in order. A string without
    [sep], the empty string too, is its own and only piece. *)
Fixpoint split (sep : N) (s : jsstring) : list jsstring :=
  match s with
  | [] => [[]]
  | c :: r =>
      if c =? sep then [] :: split sep r
      else let pieces := split sep r in (c :: hd [] pieces) :: tl pieces
  end.

(** [Array.prototype.indexOf(x)] on an array of strings: the index of the
    first element that is [=== x], or -1. *)
Fixpoint indexOf (xs : list jsstring) (x : jsstring) : Z :=
  match xs with
  | [] => (-1)%Z
  | y :: r =>
      if str_eqb y x then 0%Z
      else let i := indexOf r x in
           if (i =? -1)%Z then (-1)%Z else (i + 1)%Z
  end.

(** [Array.prototype.includes(x)] on an array of strings. *)
Definition includes (xs : list jsstring) (x : jsstring) : bool :=
  existsb (λ y, str_eqb y x) xs.

(** [allowedOrigins]: the comma-separated entries of
    [CORS_ALLOWED_ORIGINS], or the two local origins when the variable is
    unset or empty. *)
Definition allowedOrigins (P : platform) : list jsstring :=
  match env P "CORS_ALLOWED_ORIGINS" with
  | Some (c :: r) => split 44 (c :: r)
  | _ => [lit "http://localhost:5678"; lit "http://localhost:3000"]
  end.

(** The [origin] function handed to [cors]: [inr true] is
    [callback(null, true)], [inl error] is [callback(error)]. *)
Definition cors_origin (P : platform) (origin : option jsstring) : js_error + bool :=
  match origin with
  | None | Some [] => inr true
  | Some origin =>
      if negb (indexOf (allowedOrigins P) origin =? -1)%Z
         || includes (allowedOrigins P) (lit "*")
      then inr true
      else inl (new_Error ClsError (lit "Not allowed by CORS"))
  end.

(** [process.env.MCP_SERVER_NAME || 'dav-mcp'] and
    [process.env.MCP_SERVER_VERSION || '3.0.1'] *)
Definition server_name (P : platform) : jsstring :=
  or_else (env P "MCP_SERVER_NAME") (lit "dav-mcp").

Definition server_version (P : platform) : jsstring :=
  or_else (env P "MCP_SERVER_VERSION") (lit "3.0.1").

(** [app.get('/mcp', ...)] and [app.delete('/mcp', ...)] *)
Definition app_get_mcp (res : nat) (req : request) : M unit :=
  res_status res 405;;
  res_json res (jsonrpc_error (-32000) "Method not allowed. Use POST for MCP requests.").

Definition app_delete_mcp (res : nat) (req : request) : M unit :=
  res_status res 405;;
  res_json res (jsonrpc_error (-32000) "Method not allowed. Use POST for MCP requests.").

(** What [GET /health] reads from the runtime when it answers:
    [new Date().toISOString()] and [process.uptime()]. *)
Record vitals := {
  timestamp : jsstring;
  uptime : jsval;
}.

(** [app.get('/health', ...)] *)
Definition app_get_health (P : platform) (now : vitals) (res : nat) (req : request)
    : M unit :=
  res_json res
    (JObj [("status", JStr (lit "healthy"));
           ("server", JStr (server_name P));
           ("version", JStr (server_version P));
           ("transport", JStr (lit "http-stateless"));
           ("timestamp", JStr (timestamp now));
           ("tools", count P);
           ("uptime", uptime now)]).

(** [tools.map(t => ({ name: t.name, description: t.description }))] *)
Definition describe (t : tool) : jsval :=
  JObj [("name", JStr (name t)); ("description", description t)].

(** [app.get('/', ...)] *)
Definition app_get_root (P : platform) (res : nat) (req : request) : M unit :=
  emit (EvRegistry ListAll);;
  res_json res
    (JObj [("name", JStr (server_name P));
           ("version", JStr (server_version P));
           ("transport", JStr (lit "http-stateless"));
           ("description",
            JStr (lit "MCP Streamable HTTP Server for CalDAV/CardDAV integration (stateless)"));
           ("endpoints", JObj [("mcp", JStr (lit "/mcp (POST only)"));
                               ("health", JStr (lit "/health (GET)"))]);
           ("tools", JArr (map describe (tools P)))]).

(** A request to a route without middleware of its own arrives (one that
    the middleware before the routes has passed on): Node makes its
    response object, Express runs the handler on it. *)
Definition arrive_at (route : nat → request → M unit) (req : request) : M unit := λ w,
  let res := fresh (dom (responses w)) in
  route res req (set_responses (insert res new_response) w).

(** What the event loop delivers to the HTTP server, on all its routes. *)
Inductive http_input :=
| PostMcp (i : input)
| GetMcp (req : request)
| DeleteMcp (req : request)
| GetHealth (now : vitals) (req : request)
| GetRoot (req : request).

Definition serve (P : platform) (i : http_input) (w : world) : world :=
  match i with
  | PostMcp i => step P i w
  | GetMcp req => (arrive_at app_get_mcp req w).2
  | DeleteMcp req => (arrive_at app_delete_mcp req w).2
  | GetHealth now req => (arrive_at (app_get_health P now) req w).2
  | GetRoot req => (arrive_at (app_get_root P) req w).2
  end.

Definition serve_all (P : platform) (inputs : list http_input) (w : world) : world :=
  foldl (λ w i, serve P i w) w inputs.

(** [const PORT = process.env.PORT || 3000] *)
Definition PORT (P : platform) : jsval :=
  match env P "PORT" with
  | Some (c :: r) => JStr (c :: r)
  | _ => JNum 3000
  end.

(** [start] up to [app.listen], with the [catch] attached to its call.
    As in [startStdioServer], the call of [initializeToolCallLogger] shows
    in the line logged after it. *)
Definition start (P : platform) : M unit :=
  try_catch
    (log Logger LInfo [] "Starting dav-mcp HTTP Server (stateless)...";;
     initializeTsdav_http P;;
     log Logger LInfo [] "Tool call logger initialized")
    (λ error,
     log Logger LError [("error", JStr (message error))] "Failed to start server";;
     process_exit 1).

(** ** The command line of the entry point ([server-stdio.js], top level) *)

(** What the entry point does once the arguments are read. *)
Inductive entry :=
| ImportHttpServer
| StartStdioServer.

(** [process.env[k] = v]: the environment holds strings, an undefined
    value is stored as the string [undefined]. *)
Definition assign_env (k : string) (v : option jsstring) (vars : gmap string jsstring)
    : gmap string jsstring :=
  <[k := default (lit "undefined") v]> vars.

(** The top level of the entry point, from [process.argv] and the
    environment to the environment it leaves and the server it starts. *)
Definition cli (argv : list jsstring) (vars : gmap string jsstring)
    : gmap string jsstring * entry :=
  let args := drop 2 argv in
  let isHttpMode := includes args (lit "--http") in
  let portArg := find (λ a, startsWith a (lit "--port=")) args in
  if isHttpMode then
    let vars :=
      match portArg with
      | Some (c :: r) => assign_env "PORT" (split 61 (c :: r) !! 1%nat) vars
      | _ => vars
      end in
    let hostArg := find (λ a, startsWith a (lit "--host=")) args in
    let vars :=
      match hostArg with
      | Some (c :: r) => assign_env "HOST" (split 61 (c :: r) !! 1%nat) vars
      | _ => vars
      end in
    (vars, ImportHttpServer)
  else (vars, StartStdioServer).

(** [process.env[k]] in an environment. *)
Definition getenv (vars : gmap string jsstring) (k : string) : option jsstring := vars !! k.


(** * Vocabulary of the statements *)

(** ** Worlds and traces *)

(** The world after some more events. *)
Definition with_events (evs : list event) (w : world) : world :=
  set_trace (λ t, t ++ evs) w.

(** The world after [n] more clock reads and some more events. *)
Definition clocked (n : nat) (evs : list event) (w : world) : world :=
  {| trace := trace w ++ evs; heap := heap w; responses := responses w;
     tsdavManager := tsdavManager w; dateNowCalls := n + dateNowCalls w;
     uuidCalls := uuidCalls w |}.

Definition answered (res : nat) (evs : list event) (w : world) : world :=
  set_responses (alter sent res) (set_trace (λ t, t ++ evs) w).

(** ** The authentication gate *)

Definition rejection (res : nat) (lvl : level) (fields : list (string * jsval))
    (status c : Z) (msg : string) : list event :=
  [EvLog Logger lvl fields msg; EvStatus res status; EvJson res (jsonrpc_error c msg)].

Definition chain_event (e : event) : bool :=
  match e with
  | EvLog _ _ _ _ | EvStatus _ _ | EvJson _ _ | EvTimingSafeEqual _ _ => false
  | _ => true
  end.

Definition no_bearer (h : option jsstring) : Prop :=
  truthy h = false ∨ ∃ v, h = Some v ∧ startsWith v (lit "Bearer ") = false.

(** A computation answers the request itself: it completes normally,
    its only effects are [evs] and the response being sent, and none of
    [evs] belongs to the rest of the handler chain. *)
Definition stops (m : M unit) (w : world) (res : nat) (evs : list event) : Prop :=
  m w = (Normal (), answered res evs w) ∧ Forall (λ e, chain_event e = false) evs.

(** The request is let through by the gate: the secret is set and the
    bearer token of the request has the bytes of the secret. *)
Definition authorized (P : platform) (req : request) : Prop :=
  ∃ secret h, env P "BEARER_TOKEN" = Some secret ∧ secret ≠ []
    ∧ authorization req = Some h ∧ startsWith h (lit "Bearer ") = true
    ∧ Buffer_from (substring h 7) = Buffer_from secret.

(** ** The protocol handlers *)

(** Events of the handler of a tool and of the outcome phases of the
    tool-call logger, and accesses to the session provider. *)
Definition handler_or_session_event (e : event) : bool :=
  match e with
  | EvHandler _ _ | EvToolCallSuccess _ _ _ _ | EvToolCallError _ _ _ _
  | EvToolCallStart _ _ _ | EvSession _ | EvLogin _ => true
  | _ => false
  end.

(** What an access to the session provider leaves in the trace. *)
Definition session_event (e : event) : bool :=
  match e with
  | EvSession _ | EvLog Logger LError [] _ => true
  | _ => false
  end.

(** The error of an unknown tool name. *)
Definition unknown_tool (P : platform) (toolName : jsstring) : js_error :=
  {| err_class := ClsError;
     message := lit "Unknown tool: " ++ toolName;
     code := Some (METHOD_NOT_FOUND P) |}.

Definition arguments_of (request : call_request) : jsval :=
  if truthy_val (params_arguments request) then params_arguments request else JObj [].

(** The context objects the two servers pass to the tool-call logger. *)
Definition ctx_http (requestId : jsstring) : list (string * jsval) :=
  [("requestId", JStr requestId); ("transport", JStr (lit "http"))].

Definition ctx_stdio : list (string * jsval) := [("transport", JStr (lit "stdio"))].

Definition timed (ctx : list (string * jsval)) (duration : Z) : list (string * jsval) :=
  ctx ++ [("duration", JNum duration)].

(** The trace of a call that reaches a handler: what precedes the
    handler, the handler's own events [hevs], and what follows it. *)
Definition call_trace_http (requestId : jsstring) (toolName : jsstring) (args : jsval)
    (start finish : Z) (t : tool) (hevs : list event) (outcome : jsval + js_error)
    : list event :=
  [EvLog (RequestLogger requestId) LInfo [("tool", JStr toolName)] "tools/call request";
   EvRegistry (Find toolName);
   EvDateNow start;
   EvToolCallStart toolName args (ctx_http requestId);
   EvHandler (name t) args]
  ++ hevs
  ++ EvDateNow finish
  :: match outcome with
     | inl result =>
         [EvLog (RequestLogger requestId) LInfo
            [("tool", JStr toolName); ("duration", JNum (finish - start))]
            "Tool executed successfully";
          EvToolCallSuccess toolName args result (timed (ctx_http requestId) (finish - start))]
     | inr error =>
         [EvLog (RequestLogger requestId) LError
            [("tool", JStr toolName); ("error", JStr (message error))]
            "Tool execution error";
          EvToolCallError toolName args error (timed (ctx_http requestId) (finish - start))]
     end.

Definition call_trace_stdio (toolName : jsstring) (args : jsval)
    (start finish : Z) (t : tool) (hevs : list event) (outcome : jsval + js_error)
    : list event :=
  [EvLog Logger LInfo [("tool", JStr toolName)] "tools/call request received";
   EvRegistry (Find toolName);
   EvDateNow start;
   EvToolCallStart toolName args ctx_stdio;
   EvLog Logger LDebug [("tool", JStr toolName)] "Executing tool";
   EvHandler (name t) args]
  ++ hevs
  ++ EvDateNow finish
  :: match outcome with
     | inl result =>
         [EvLog Logger LInfo
            [("tool", JStr toolName); ("duration", JNum (finish - start))]
            "Tool executed successfully";
          EvToolCallSuccess toolName args result (timed ctx_stdio (finish - start))]
     | inr error =>
         [EvLog Logger LError
            [("tool", JStr toolName); ("error", JStr (message error))]
            "Tool execution error";
          EvToolCallError toolName args error (timed ctx_stdio (finish - start))]
     end.

(** What the handler of [tools/call] returns for an outcome of the tool. *)
Definition returned (P : platform) (outcome : jsval + js_error) : jsval :=
  match outcome with
  | inl result => result
  | inr error => createToolErrorResponse P error (development P)
  end.

(** ** The session provider *)

(** The mode [initialize] selects for a configuration. *)
Definition uses_oauth (cfg : config) : bool :=
  let method := or_else (authMethod cfg) (lit "Basic") in
  str_eqb method (lit "OAuth") || str_eqb method (lit "Oauth").

(** The required fields [_initializeBasicAuth] and [_initializeOAuth] check. *)
Definition basic_fields_present (cfg : config) : bool :=
  truthy (username cfg) && truthy (password cfg).

Definition oauth_fields_present (cfg : config) : bool :=
  truthy (username cfg) && truthy (clientId cfg) && truthy (clientSecret cfg)
  && truthy (refreshToken cfg).

Definition fields_present (cfg : config) : bool :=
  if uses_oauth cfg then oauth_fields_present cfg else basic_fields_present cfg.

(** The options of the clients [initialize] constructs. *)
Definition basic_credentials (cfg : config) : jsval :=
  JObj [("username", opt_val (username cfg)); ("password", opt_val (password cfg))].

Definition oauth_token_url (cfg : config) : jsstring :=
  or_else (tokenUrl cfg) (lit "https://accounts.google.com/o/oauth2/token").

Definition oauth_credentials (cfg : config) : jsval :=
  JObj [("tokenUrl", JStr (oauth_token_url cfg));
        ("username", opt_val (username cfg));
        ("refreshToken", opt_val (refreshToken cfg));
        ("clientId", opt_val (clientId cfg));
        ("clientSecret", opt_val (clientSecret cfg))].

Definition calDav_options (cfg : config) : dav_options :=
  {| dav_serverUrl := serverUrl cfg;
     credentials := if uses_oauth cfg then oauth_credentials cfg else basic_credentials cfg;
     dav_authMethod := if uses_oauth cfg then lit "Oauth" else lit "Basic";
     defaultAccountType := lit "caldav" |}.

Definition cardDav_options (cfg : config) : dav_options :=
  {| dav_serverUrl := or_opt (cardDavServerUrl cfg) (serverUrl cfg);
     credentials := if uses_oauth cfg then oauth_credentials cfg else basic_credentials cfg;
     dav_authMethod := if uses_oauth cfg then lit "Oauth" else lit "Basic";
     defaultAccountType := lit "carddav" |}.

(** The addresses the two clients get in a world. *)
Definition calDav_addr (w : world) : nat := fresh (dom (heap w)).

Definition cardDav_addr (cfg : config) (w : world) : nat :=
  fresh (dom (<[calDav_addr w := ODavClient (calDav_options cfg)]> (heap w))).

(** The world once [initialize] has stored the configuration. *)
Definition configured (cfg : config) (w : world) : world :=
  set_manager (with_authMethod (Some (or_else (authMethod cfg) (lit "Basic"))))
    (set_manager (with_config (Some cfg)) w).

(** The world once both clients are constructed and stored. *)
Definition with_clients (cfg : config) (w : world) : world :=
  set_manager (with_cardDavClient (Some (cardDav_addr cfg w)))
    (set_heap (insert (cardDav_addr cfg w) (ODavClient (cardDav_options cfg)))
       (set_manager (with_calDavClient (Some (calDav_addr w)))
          (set_heap (insert (calDav_addr w) (ODavClient (calDav_options cfg))) w))).

Definition construction (cfg : config) (w : world) : list event :=
  [EvNew (calDav_addr w) (ODavClient (calDav_options cfg));
   EvNew (cardDav_addr cfg w) (ODavClient (cardDav_options cfg))].

Definition is_login (e : event) : bool :=
  match e with
  | EvLogin _ => true
  | _ => false
  end.

Definition is_new (e : event) : bool :=
  match e with
  | EvNew _ _ => true
  | _ => false
  end.

(** The log lines of [initialize]. *)
Definition mode_line (cfg : config) : event :=
  EvLog Logger LInfo [("serverUrl", opt_val (serverUrl cfg))]
    (if uses_oauth cfg then "Initializing tsdav clients with OAuth2"
     else "Initializing tsdav clients with Basic Auth").

Definition method_of (cfg : config) : jsstring := or_else (authMethod cfg) (lit "Basic").

Definition success_line (cfg : config) : event :=
  EvLog Logger LInfo
    [("serverUrl", opt_val (serverUrl cfg)); ("authMethod", JStr (method_of cfg))]
    "tsdav clients initialized and logged in".

Definition failure_line (cfg : config) (error : js_error) : event :=
  EvLog Logger LError
    [("error", JStr (message error)); ("serverUrl", opt_val (serverUrl cfg));
     ("authMethod", JStr (method_of cfg))]
    "Failed to initialize tsdav clients".

Definition cardDav_warning (error : js_error) : event :=
  EvLog Logger LWarn [("error", JStr (message error))]
    "CardDAV login failed (expected for Google Calendar)".

(** The events of an initialization with all required fields present, up
    to and including the CalDAV login. *)
Definition until_calDav_login (cfg : config) (w : world) : list event :=
  mode_line cfg
  :: (if uses_oauth cfg then
        [EvLog Logger LDebug
           [("username", opt_val (username cfg)); ("tokenUrl", JStr (oauth_token_url cfg));
            ("serverUrl", opt_val (serverUrl cfg))]
           "Configuring OAuth2 credentials"]
      else [])
  ++ construction cfg w ++ [EvLogin (calDav_addr w)].

Definition calDav_logged_in (cfg : config) : event :=
  EvLog Logger LDebug [("accountType", JStr (lit "caldav"))]
    (if uses_oauth cfg then "CalDAV client logged in (OAuth2)"
     else "CalDAV client logged in (Basic Auth)").

Definition cardDav_logged_in (cfg : config) : event :=
  EvLog Logger LDebug [("accountType", JStr (lit "carddav"))]
    (if uses_oauth cfg then "CardDAV client logged in (OAuth2)"
     else "CardDAV client logged in (Basic Auth)").

(** The world [initialize] leaves when the required fields are present. *)
Definition initialized (cfg : config) (evs : list event) (w : world) : world :=
  with_events evs (with_clients cfg (configured cfg w)).

(** The mode the entry points select from the environment, and the three
    variables they require in Basic mode. *)
Definition env_uses_oauth (P : platform) : bool :=
  let method := or_else (env P "AUTH_METHOD") (lit "Basic") in
  str_eqb method (lit "OAuth") || str_eqb method (lit "Oauth").

Definition basic_env_present (P : platform) : bool :=
  truthy (env P "CALDAV_SERVER_URL") && truthy (env P "CALDAV_USERNAME")
  && truthy (env P "CALDAV_PASSWORD").

Definition basic_env_error : js_error :=
  new_Error ClsError
    (lit "Basic Auth requires CALDAV_SERVER_URL, CALDAV_USERNAME, and CALDAV_PASSWORD").

Definition basic_fields_error : js_error :=
  new_Error ClsError (lit "Basic Auth requires username and password").

(** ** The life cycle of the instances of the HTTP binding *)

(** What the life cycle of the instances depends on in a response: its
    close listeners, whether it has closed, and where its handler stands. *)
Definition lifecycle (r : response) : list (nat * nat) * bool * phase :=
  (closeListeners r, closed r, route r).

Definition lifecycles (w : world) : gmap nat (list (nat * nat) * bool * phase) :=
  lifecycle <$> responses w.

(** The pairs (instance, response) of the trace: which request touched
    which instance. *)
Definition touched (w : world) : list (nat * nat) := flat_map uses (trace w).

(** The instance at [a] was constructed for the response [res]. *)
Definition owned (h : gmap nat object) (res a : nat) : Prop :=
  ∃ o, h !! a = Some o ∧ constructed_for res o = true.

Definition route_pair (p : phase) : list (nat * nat) :=
  match p with
  | AwaitConnect _ transport server | AwaitHandleRequest _ transport server =>
      [(transport, server)]
  | _ => []
  end.

Definition addresses (ls : list (nat * nat)) : list nat :=
  flat_map (λ ts, [ts.1; ts.2]) ls.

Definition close_all (addrs : list nat) (h : gmap nat object) : gmap nat object :=
  foldl (λ h a, alter close_object a h) h addrs.

(** The invariant of the binding: every transport and server belongs to a
    response that still lists it for closing or that has closed and closed
    it; the listeners and the handler of a response hold instances of that
    response only; and an instance is touched only on behalf of the
    response it was constructed for. *)
Record instances_ok (h : gmap nat object)
    (ls : gmap nat (list (nat * nat) * bool * phase)) (us : list (nat * nat)) : Prop := {
  ok_owner : ∀ a o res, h !! a = Some o → constructed_for res o = true →
    ∃ l c p, ls !! res = Some (l, c, p)
      ∧ (c = true → is_closed o = true)
      ∧ (c = false → ∃ t s, In (t, s) l ∧ (a = t ∨ a = s));
  ok_listeners : ∀ res l c p t s, ls !! res = Some (l, c, p) → In (t, s) l →
    owned h res t ∧ owned h res s;
  ok_route : ∀ res l c p ts, ls !! res = Some (l, c, p) → In ts (route_pair p) → In ts l;
  ok_uses : ∀ a res, In (a, res) us → owned h res a;
}.

Definition Inv (w : world) : Prop := instances_ok (heap w) (lifecycles w) (touched w).

(** The world after the synchronous part of the route handler. *)
Definition served (P : platform) (res : nat) (w : world) : world :=
  let requestId := uuid_source P (uuidCalls w) in
  let transport := fresh (dom (heap w)) in
  let server := fresh (dom (<[transport := OTransport res false]> (heap w))) in
  {| trace := trace w ++ [EvRandomUUID requestId;
                          EvNew transport (OTransport res false);
                          EvNew server (OServer res requestId false);
                          EvOnClose res transport server;
                          EvConnect res server transport];
     heap := <[server := OServer res requestId false]>
               (<[transport := OTransport res false]> (heap w));
     responses := alter (routed (AwaitConnect requestId transport server)) res
                    (alter (listening transport server) res (responses w));
     tsdavManager := tsdavManager w;
     dateNowCalls := dateNowCalls w;
     uuidCalls := S (uuidCalls w) |}.

(** The part of a world the life cycle of the instances is about. *)
Definition abs (w : world)
    : gmap nat object * gmap nat (list (nat * nat) * bool * phase) * list (nat * nat) :=
  (heap w, lifecycles w, touched w).

(** A computation that neither constructs, closes nor touches an instance
    and leaves the listeners, the closing and the routes of the responses
    as they are. *)
Definition benign {A} (m : M A) : Prop := ∀ w, abs (m w).2 = abs w.

(** From one state of the instances to a later one: the invariant is
    kept, responses stay, and a response that has closed stays closed. *)
Definition advances
    (x y : gmap nat object * gmap nat (list (nat * nat) * bool * phase) * list (nat * nat))
    : Prop :=
  (instances_ok x.1.1 x.1.2 x.2 → instances_ok y.1.1 y.1.2 y.2)
  ∧ (∀ res l c p, x.1.2 !! res = Some (l, c, p) →
       ∃ l' c' p', y.1.2 !! res = Some (l', c', p') ∧ (c = true → c' = true)).

(** What the route handler and the close event do to a life cycle. *)
Definition rerouted (p : phase) (v : list (nat * nat) * bool * phase)
    : list (nat * nat) * bool * phase :=
  (v.1.1, v.1.2, p).

Definition listened (transport server : nat) (v : list (nat * nat) * bool * phase)
    : list (nat * nat) * bool * phase :=
  (v.1.1 ++ [(transport, server)], v.1.2, v.2).

Definition shut (v : list (nat * nat) * bool * phase) : list (nat * nat) * bool * phase :=
  (v.1.1, true, v.2).

Definition closing (res : nat) (ls : list (nat * nat)) : list event :=
  flat_map (λ ts, [EvClose res ts.1; EvClose res ts.2]) ls.


(** * Sample inputs *)

Definition sample_error (msg : string) : js_error := new_Error ClsError (lit msg).

Definition sample_tools : list tool :=
  [ {| name := lit "list_calendars";
       description := JStr (lit "List all calendars");
       inputSchema := JObj [("type", JStr (lit "object"))];
       handler := λ _, {| session_ops := [GetCalDavClient];
                          settles := inl (JObj [("content", JArr [])]) |} |};
    {| name := lit "list_addressbooks";
       description := JStr (lit "List all address books");
       inputSchema := JObj [("type", JStr (lit "object"))];
       handler := λ _, {| session_ops := [GetCardDavClient];
                          settles := inr (sample_error "CardDAV request failed") |} |} ].

Definition sample_platform (vars : list (string * jsstring)) (clock : nat → Z)
    (logins : dav_options → option js_error) : platform :=
  {| process_env := list_to_map vars;
     tools := sample_tools;
     wall_clock := clock;
     uuid_source := λ k, lit "request-" ++ [48 + N.of_nat k];
     login_outcome := logins;
     METHOD_NOT_FOUND := (-32601)%Z;
     createToolErrorResponse := λ error dev,
       JObj [("content", JArr [JObj [("type", JStr (lit "text"));
                                     ("text", JStr (message error))]]);
             ("isError", JBool true)] |}.

Definition steady_clock (k : nat) : Z := (1000 + 5 * Z.of_nat k)%Z.

(** An HTTP deployment with the secret [s3cret]. *)
Definition http_platform : platform :=
  sample_platform [("BEARER_TOKEN", lit "s3cret")] steady_clock (λ _, None).

(** A deployment that forgot [BEARER_TOKEN]. *)
Definition open_platform : platform := sample_platform [] steady_clock (λ _, None).

Definition bearer (token : string) : request :=
  {| authorization := Some (lit "Bearer " ++ lit token); ip := Some (lit "10.0.0.7") |}.

Definition anonymous : request :=
  {| authorization := None; ip := Some (lit "10.0.0.7") |}.

Definition call (toolName : string) : call_request :=
  {| params_name := lit toolName; params_arguments := JUndefined |}.

(** A wall clock that is set back while a call is running. *)
Definition stepping_back_clock (k : nat) : Z :=
  match k with
  | O => 1000%Z
  | _ => 400%Z
  end.

Definition adjusted_platform : platform :=
  sample_platform [("BEARER_TOKEN", lit "s3cret")] stepping_back_clock (λ _, None).

(** A process whose two clients are in place. *)
Definition serving_world : world :=
  {| trace := []; heap := ∅; responses := ∅;
     tsdavManager := {| this_calDavClient := Some 0%nat; this_cardDavClient := Some 1%nat;
                        this_config := None; this_authMethod := Some (lit "Basic") |};
     dateNowCalls := 0; uuidCalls := 0 |}.

(** A Basic configuration with its credentials and no [serverUrl]. *)
Definition basic_without_url : config :=
  {| serverUrl := None; cardDavServerUrl := None; authMethod := Some (lit "Basic");
     username := Some (lit "alice"); password := Some (lit "wonderland");
     clientId := None; clientSecret := None; refreshToken := None; tokenUrl := None |}.

(** A Basic configuration without [password]. *)
Definition basic_without_password : config :=
  {| serverUrl := Some (lit "https://dav.example.org/"); cardDavServerUrl := None;
     authMethod := Some (lit "Basic");
     username := Some (lit "alice"); password := None;
     clientId := None; clientSecret := None; refreshToken := None; tokenUrl := None |}.

Definition basic_complete : config :=
  {| serverUrl := Some (lit "https://dav.example.org/"); cardDavServerUrl := None;
     authMethod := Some (lit "Basic");
     username := Some (lit "alice"); password := Some (lit "wonderland");
     clientId := None; clientSecret := None; refreshToken := None; tokenUrl := None |}.

Definition oauth_complete : config :=
  {| serverUrl := Some (lit "https://apidata.googleusercontent.com/caldav/v2/");
     cardDavServerUrl := None; authMethod := Some (lit "OAuth");
     username := Some (lit "alice@example.org"); password := None;
     clientId := Some (lit "client"); clientSecret := Some (lit "secret");
     refreshToken := Some (lit "refresh"); tokenUrl := None |}.

(** A provider, such as Google Calendar, without CardDAV. *)
Definition no_cardDav (opts : dav_options) : option js_error :=
  if str_eqb (defaultAccountType opts) (lit "carddav")
  then Some (sample_error "Not Found")
  else None.

Definition calendar_only_platform : platform :=
  sample_platform [] steady_clock no_cardDav.

(** An environment with the credentials and no [CALDAV_SERVER_URL]. *)
Definition env_without_url : platform :=
  sample_platform [("CALDAV_USERNAME", lit "alice"); ("CALDAV_PASSWORD", lit "wonderland")]
    steady_clock (λ _, None).

(** * Vocabulary of the further properties *)

(** ** The authentication gate *)

(** A deployment whose secret has a character outside latin1 (U+20AC). *)
Definition euro_platform : platform :=
  sample_platform [("BEARER_TOKEN", lit "s3cret" ++ [8364])] steady_clock (λ _, None).

(** ** The session provider and start-up *)

(** The configuration the entry points hand to [initialize] in Basic
    mode; [cardDavUrl] is [undefined] in the HTTP server. *)
Definition basic_config (P : platform) (cardDavUrl : option jsstring) : config :=
  {| serverUrl := env P "CALDAV_SERVER_URL";
     cardDavServerUrl := cardDavUrl;
     authMethod := Some (lit "Basic");
     username := env P "CALDAV_USERNAME";
     password := env P "CALDAV_PASSWORD";
     clientId := None; clientSecret := None; refreshToken := None;
     tokenUrl := None |}.

Definition env_config (P : platform) (cardDavUrl : option jsstring) : config :=
  if env_uses_oauth P then oauth_config P else basic_config P cardDavUrl.

(** The three variables the entry points require in OAuth mode. *)
Definition oauth_env_present (P : platform) : bool :=
  truthy (env P "GOOGLE_CLIENT_ID") && truthy (env P "GOOGLE_CLIENT_SECRET")
  && truthy (env P "GOOGLE_REFRESH_TOKEN").

Definition oauth_env_error : js_error :=
  new_Error ClsError
    (lit "OAuth2 requires GOOGLE_CLIENT_ID, GOOGLE_CLIENT_SECRET, and GOOGLE_REFRESH_TOKEN").

Definition env_present (P : platform) : bool :=
  if env_uses_oauth P then oauth_env_present P else basic_env_present P.

Definition env_error (P : platform) : js_error :=
  if env_uses_oauth P then oauth_env_error else basic_env_error.

(** The first and the last log line of [initializeTsdav]. *)
Definition announcement (P : platform) : event :=
  EvLog Logger LInfo []
    (if env_uses_oauth P then "Initializing with OAuth2 authentication"
     else "Initializing with Basic authentication").

Definition completion_line (P : platform) : event :=
  EvLog Logger LInfo []
    (if env_uses_oauth P then "OAuth2 clients initialized successfully"
     else "Basic Auth clients initialized successfully").


(** The options of the client a field of the manager refers to. *)
Definition client_options (w : world) (client : option nat) : option dav_options :=
  match client with
  | Some c =>
      match heap w !! c with
      | Some (ODavClient opts) => Some opts
      | _ => None
      end
  | None => None
  end.

(** A Basic deployment with a CardDAV server of its own. *)
Definition two_server_platform : platform :=
  sample_platform
    [("CALDAV_SERVER_URL", lit "https://cal.example.org/");
     ("CARDDAV_SERVER_URL", lit "https://card.example.org/");
     ("CALDAV_USERNAME", lit "alice"); ("CALDAV_PASSWORD", lit "wonderland")]
    steady_clock (λ _, None).

(** An OAuth deployment without [GOOGLE_REFRESH_TOKEN], and one without
    [GOOGLE_USER]. *)
Definition oauth_without_token : platform :=
  sample_platform
    [("AUTH_METHOD", lit "OAuth"); ("GOOGLE_USER", lit "alice@example.org");
     ("GOOGLE_CLIENT_ID", lit "client"); ("GOOGLE_CLIENT_SECRET", lit "secret")]
    steady_clock (λ _, None).

Definition oauth_without_user : platform :=
  sample_platform
    [("AUTH_METHOD", lit "OAuth"); ("GOOGLE_CLIENT_ID", lit "client");
     ("GOOGLE_CLIENT_SECRET", lit "secret"); ("GOOGLE_REFRESH_TOKEN", lit "refresh")]
    steady_clock (λ _, None).

(** A server that refuses every login. *)
Definition locked_platform : platform :=
  sample_platform [] steady_clock (λ _, Some (sample_error "Invalid credentials")).

Definition oauth_user_error : js_error :=
  new_Error ClsError (lit "OAuth requires username (user email)").

(** ** The protocol handlers *)

Definition calDav_not_initialized : js_error :=
  new_Error ClsCalDAVError (lit "CalDAV client not initialized. Call initialize() first.").

Definition cardDav_not_initialized : js_error :=
  new_Error ClsCardDAVError (lit "CardDAV client not initialized. Call initialize() first.").

(** What a sequence of accesses to a manager leaves in the trace, and the
    error of the first access to a client that is not there. *)
Fixpoint session_trace (m : manager) (ops : list session_op)
    : list event * option js_error :=
  match ops with
  | [] => ([], None)
  | GetCalDavClient :: rest =>
      match this_calDavClient m with
      | Some _ =>
          (EvSession GetCalDavClient :: (session_trace m rest).1, (session_trace m rest).2)
      | None =>
          ([EvSession GetCalDavClient; EvLog Logger LError [] "CalDAV client not initialized"],
           Some calDav_not_initialized)
      end
  | GetCardDavClient :: rest =>
      match this_cardDavClient m with
      | Some _ =>
          (EvSession GetCardDavClient :: (session_trace m rest).1, (session_trace m rest).2)
      | None =>
          ([EvSession GetCardDavClient;
            EvLog Logger LError [] "CardDAV client not initialized"],
           Some cardDav_not_initialized)
      end
  end.

(** How the handler of a tool settles in a process with the manager [m]. *)
Definition outcome_of (m : manager) (t : tool) (args : jsval) : jsval + js_error :=
  match (session_trace m (session_ops (handler t args))).2 with
  | Some error => inr error
  | None => settles (handler t args)
  end.

Definition settled (outcome : jsval + js_error) : completion jsval :=
  match outcome with
  | inl result => Normal result
  | inr error => Throw error
  end.

(** A registry in which two tools have the same name. *)
Definition shadowing_tools : list tool :=
  [ {| name := lit "list_calendars";
       description := JStr (lit "List all calendars");
       inputSchema := JObj [("type", JStr (lit "object"))];
       handler := λ _, {| session_ops := [GetCalDavClient];
                          settles := inl (JStr (lit "first")) |} |};
    {| name := lit "list_calendars";
       description := JStr (lit "List all calendars, again");
       inputSchema := JObj [("type", JStr (lit "object"))];
       handler := λ _, {| session_ops := [];
                          settles := inl (JStr (lit "second")) |} |} ].

Definition shadowing_platform : platform :=
  {| process_env := ∅;
     tools := shadowing_tools;
     wall_clock := steady_clock;
     uuid_source := λ k, lit "request-" ++ [48 + N.of_nat k];
     login_outcome := λ _, None;
     METHOD_NOT_FOUND := (-32601)%Z;
     createToolErrorResponse := λ error dev,
       JObj [("content", JArr [JObj [("type", JStr (lit "text"));
                                     ("text", JStr (message error))]]);
             ("isError", JBool true)] |}.

(** ** What is written on a response *)

(** A body written by the program itself ([res.json]) and an answer
    written by the SDK transport, on the response [res]. *)
Definition is_body (res : nat) (e : event) : bool :=
  match e with
  | EvJson r _ => bool_decide (r = res)
  | _ => false
  end.

Definition is_answer (res : nat) (e : event) : bool :=
  match e with
  | EvSend r _ => bool_decide (r = res)
  | _ => false
  end.

Definition bodies (res : nat) (t : list event) : list event :=
  filter (λ e, is_body res e = true) t.

Definition answers (res : nat) (t : list event) : list event :=
  filter (λ e, is_answer res e = true) t.

Definition writes (e : event) : bool :=
  match e with
  | EvJson _ _ | EvSend _ _ => true
  | _ => false
  end.

(** [res.headersSent] and the state of the route handler of a response;
    a response that does not exist has sent nothing and is not routed. *)
Definition sent_of (w : world) (res : nat) : bool :=
  from_option headersSent false (responses w !! res).

Definition route_of (w : world) (res : nat) : phase :=
  from_option route NotRouted (responses w !! res).

(** The invariant of the writes to a response: nothing is written before
    the headers are sent, the program writes at most one body and none
    beside an answer of the transport, and while the route handler waits
    the program has written no body. *)
Definition written_once (w : world) (res : nat) : Prop :=
  (sent_of w res = false → bodies res (trace w) = [] ∧ answers res (trace w) = [])
  ∧ (length (bodies res (trace w)) ≤ 1)%nat
  ∧ (bodies res (trace w) ≠ [] → answers res (trace w) = [])
  ∧ (∀ requestId t s, route_of w res = AwaitConnect requestId t s → sent_of w res = false)
  ∧ (∀ requestId t s, route_of w res = AwaitHandleRequest requestId t s →
       bodies res (trace w) = []).

(** A computation that writes on no response. *)
Definition quiet {A} (m : M A) : Prop :=
  ∀ w, responses (m w).2 = responses w
       ∧ ∃ evs, trace (m w).2 = trace w ++ evs ∧ Forall (λ e, writes e = false) evs.

(** The log line and the answer of the [catch] block of the route. *)
Definition catch_line (requestId : jsstring) (error : js_error) : event :=
  EvLog Logger LError [("requestId", JStr requestId); ("error", JStr (message error))]
    "Error handling MCP request".

Definition internal_error (res : nat) : list event :=
  [EvStatus res 500; EvJson res (jsonrpc_error (-32603) "Internal server error")].

(** The world the [catch] block leaves. *)
Definition caught (res : nat) (requestId : jsstring) (error : js_error) (w : world) : world :=
  if sent_of w res then with_events [catch_line requestId error] w
  else answered res (catch_line requestId error :: internal_error res) w.

(** ** The command line and the CORS policy *)

(** [Array.prototype.join(sep)] for a separator of one code unit. *)
Fixpoint join (sep : N) (pieces : list jsstring) : jsstring :=
  match pieces with
  | [] => []
  | [p] => p
  | p :: rest => p ++ sep :: join sep rest
  end.

Definition not_allowed : js_error := new_Error ClsError (lit "Not allowed by CORS").

(** A deployment that allows two origins, the second written after a
    blank. *)
Definition cors_platform : platform :=
  sample_platform
    [("CORS_ALLOWED_ORIGINS", lit "https://a.example, https://b.example")]
    steady_clock (λ _, None).

Definition sample_vitals : vitals :=
  {| timestamp := lit "2025-01-01T00:00:00.000Z"; uptime := JNum 42 |}.

(** An entry of the tool-call logger. *)
Definition is_entry (e : event) : bool :=
  match e with
  | EvToolCallStart _ _ _ | EvToolCallSuccess _ _ _ _ | EvToolCallError _ _ _ _ => true
  | _ => false
  end.

(** The entries a call leaves in the tool-call log: none, or the start
    entry followed by the entry of its outcome. *)
Definition entries_of (toolName : jsstring) (args : jsval) (ctx : list (string * jsval))
    (duration : Z) (outcome : option (jsval + js_error)) : list event :=
  match outcome with
  | None => []
  | Some (inl result) =>
      [EvToolCallStart toolName args ctx;
       EvToolCallSuccess toolName args result (timed ctx duration)]
  | Some (inr error) =>
      [EvToolCallStart toolName args ctx;
       EvToolCallError toolName args error (timed ctx duration)]
  end.

(** A complete OAuth deployment that names no server and no token
    endpoint. *)
Definition google_platform : platform :=
  sample_platform
    [("AUTH_METHOD", lit "OAuth"); ("GOOGLE_USER", lit "alice@example.org");
     ("GOOGLE_CLIENT_ID", lit "client"); ("GOOGLE_CLIENT_SECRET", lit "secret");
     ("GOOGLE_REFRESH_TOKEN", lit "refresh")]
    steady_clock no_cardDav.

(** ** What [initialize] writes to the log *)

(** The fields a log line of [initialize] may carry for a configuration:
    the server URL, the method, the user name, the token endpoint and the
    account type of a client. *)
Definition loggable (cfg : config) : list (string * jsval) :=
  [("serverUrl", opt_val (serverUrl cfg));
   ("authMethod", JStr (method_of cfg));
   ("username", opt_val (username cfg));
   ("tokenUrl", JStr (oauth_token_url cfg));
   ("accountType", JStr (lit "caldav"));
   ("accountType", JStr (lit "carddav"))].

(** Every field of a log line is loggable or the message of an error. *)
Definition logs_only (allowed : list (string * jsval)) (e : event) : Prop :=
  match e with
  | EvLog _ _ fields _ =>
      Forall (λ kv, kv ∈ allowed ∨ ∃ error : js_error, kv = ("error", JStr (message error)))
        fields
  | _ => True
  end.

(** * Properties *)

(** ** The authentication gate *)

(** Quotients and remainders by a constant, handed to [lia] as fresh
    variables with their defining equation and bound. *)
Ltac n_divmod :=
  repeat match goal with
  | H : context [?a mod ?b] |- _ =>
      let q := fresh "q" in let r := fresh "r" in
      pose proof (N.div_mod' a b);
      pose proof (N.mod_lt a b ltac:(lia));
      set (q := a / b) in *; set (r := a mod b) in *; clearbody q r
  | H : context [?a / ?b] |- _ =>
      let q := fresh "q" in let r := fresh "r" in
      pose proof (N.div_mod' a b);
      pose proof (N.mod_lt a b ltac:(lia));
      set (q := a / b) in *; set (r := a mod b) in *; clearbody q r
  end.

Lemma utf8_encode_nil s : utf8_encode s = [] → s = [].
Proof.
  destruct s as [|u r]; [done|]. cbn.
  repeat case_match; discriminate.
Qed.

(** On header values the UTF-8 encoding decides equality of strings: a
    latin1 string has the bytes of no other string. *)
Lemma utf8_encode_latin1_inj token secret :
  latin1 token → utf8_encode token = utf8_encode secret → token = secret.
Proof.
  intros Hl. revert secret. induction Hl as [|t ts Ht _ IH]; intros secret Heq.
  - symmetry. apply utf8_encode_nil. done.
  - destruct secret as [|u us].
    { apply utf8_encode_nil in Heq. done. }
    cbn [utf8_encode] in Heq.
    destruct (N.ltb_spec t 128).
    + destruct (N.ltb_spec u 128).
      { injection Heq as -> Heq. f_equal. by apply IH. }
      exfalso.
      repeat case_match; injection Heq; intros; n_divmod; lia.
    + destruct (N.ltb_spec t 2048); [|lia].
      destruct (N.ltb_spec u 128).
      { injection Heq as Heq _. n_divmod. lia. }
      destruct (N.ltb_spec u 2048).
      { injection Heq as Hb1 Hb2 Heq. f_equal; [|by apply IH].
        n_divmod. lia. }
      exfalso.
      repeat case_match; injection Heq; intros; n_divmod; lia.
Qed.

(** Runs a computation of the gate on a symbolic world. *)
Ltac unfold_M :=
  repeat progress
    (unfold mbind, M_bind, mret, M_ret, log, res_status, res_json, emit, modify,
       throw, get_world, try_catch; cbn).

(** The three statements every rejection consists of. *)
Lemma reject_run res lvl fields status c msg w :
  (log Logger lvl fields msg;; res_status res status;;
   res_json res (jsonrpc_error c msg)) w
  = (Normal (), answered res (rejection res lvl fields status c msg) w).
Proof.
  unfold_M. cbn. f_equal. unfold answered, set_responses, set_trace, rejection. cbn.
  f_equal; by rewrite <- ?app_assoc.
Qed.

Lemma events_of_answered {A} (m : M A) w c res evs :
  m w = (c, answered res evs w) → events_of m w = evs.
Proof.
  intros H. unfold events_of. rewrite H. cbn. apply drop_app_length.
Qed.

Lemma startsWith_app p s : startsWith (p ++ s) p = true.
Proof. induction p as [|c p IH]; cbn; [done|]. rewrite N.eqb_refl. exact IH. Qed.

(** The runs of the gate, case by case in the order of its tests. *)
Lemma gate_misconfigured P res req next w :
  truthy (env P "BEARER_TOKEN") = false →
  authenticateBearer P res req next w
  = (Normal (), answered res
       (rejection res LError [] 500 (-32603)
          "Server misconfiguration: BEARER_TOKEN not set") w).
Proof.
  unfold authenticateBearer. intros H.
  destruct (env P "BEARER_TOKEN") as [[|u s]|]; try discriminate;
    apply reject_run.
Qed.

Lemma gate_no_bearer P res req next w :
  truthy (env P "BEARER_TOKEN") = true →
  no_bearer (authorization req) →
  authenticateBearer P res req next w
  = (Normal (), answered res
       (rejection res LWarn [("ip", opt_val (ip req))] 401 (-32001)
          "Unauthorized: Bearer token required") w).
Proof.
  unfold authenticateBearer. intros H Hn.
  destruct (env P "BEARER_TOKEN") as [[|u s]|]; try discriminate.
  destruct Hn as [Hn|(v & Hv & Hs)].
  - destruct (authorization req) as [[|c h]|]; try discriminate; apply reject_run.
  - rewrite Hv. destruct v as [|c h]; [apply reject_run|].
    rewrite Hs. apply reject_run.
Qed.

Lemma timingSafeEqual_run a b w :
  crypto_timingSafeEqual a b w
  = (if Nat.eqb (length a) (length b) then Normal (bool_decide (a = b))
     else Throw (new_Error ClsRangeError
                   (lit "Input buffers must have the same byte length")),
     set_trace (λ t, t ++ [EvTimingSafeEqual a b]) w).
Proof.
  unfold crypto_timingSafeEqual. unfold_M. by destruct (Nat.eqb _ _).
Qed.

Lemma answered_app res pre evs w :
  answered res evs (set_trace (λ t, t ++ pre) w) = answered res (pre ++ evs) w.
Proof.
  unfold answered, set_responses, set_trace. cbn. f_equal. by rewrite <- app_assoc.
Qed.

Lemma gate_wrong_length P res req next w secret h :
  env P "BEARER_TOKEN" = Some secret → secret ≠ [] →
  authorization req = Some h → startsWith h (lit "Bearer ") = true →
  length (Buffer_from (substring h 7)) ≠ length (Buffer_from secret) →
  authenticateBearer P res req next w
  = (Normal (), answered res
       (rejection res LWarn [("ip", opt_val (ip req))] 401 (-32001)
          "Unauthorized: Invalid token") w).
Proof.
  unfold authenticateBearer. intros -> Hs -> Hb Hlen.
  destruct secret as [|u s]; [done|].
  destruct h as [|c h]; [discriminate|]. rewrite Hb. cbn [negb].
  apply Nat.eqb_neq in Hlen. unfold mbind at 1, M_bind at 1. rewrite Hlen. cbn [negb].
  unfold mret, M_ret. apply reject_run.
Qed.

Lemma gate_wrong_content P res req next w secret h :
  env P "BEARER_TOKEN" = Some secret → secret ≠ [] →
  authorization req = Some h → startsWith h (lit "Bearer ") = true →
  length (Buffer_from (substring h 7)) = length (Buffer_from secret) →
  Buffer_from (substring h 7) ≠ Buffer_from secret →
  authenticateBearer P res req next w
  = (Normal (), answered res
       (EvTimingSafeEqual (Buffer_from (substring h 7)) (Buffer_from secret)
        :: rejection res LWarn [("ip", opt_val (ip req))] 401 (-32001)
             "Unauthorized: Invalid token") w).
Proof.
  unfold authenticateBearer. intros -> Hs -> Hb Hlen Hne.
  destruct secret as [|u s]; [done|].
  destruct h as [|c h]; [discriminate|]. rewrite Hb. cbn [negb].
  apply Nat.eqb_eq in Hlen. unfold mbind at 1, M_bind at 1. rewrite Hlen. cbn [negb].
  unfold mbind at 1, M_bind at 1. rewrite timingSafeEqual_run, Hlen.
  rewrite bool_decide_eq_false_2 by done.
  unfold mret at 1, M_ret at 1. cbn [negb].
  rewrite reject_run. f_equal. apply (answered_app _ [_]).
Qed.

Lemma gate_passes P res req next w secret h :
  env P "BEARER_TOKEN" = Some secret → secret ≠ [] →
  authorization req = Some h → startsWith h (lit "Bearer ") = true →
  Buffer_from (substring h 7) = Buffer_from secret →
  authenticateBearer P res req next w
  = next (with_events [EvTimingSafeEqual (Buffer_from secret) (Buffer_from secret)] w).
Proof.
  unfold authenticateBearer. intros -> Hs -> Hb Heq.
  destruct secret as [|u s]; [done|].
  destruct h as [|c h]; [discriminate|]. rewrite Hb. cbn [negb]. rewrite Heq.
  unfold mbind at 1, M_bind at 1. rewrite Nat.eqb_refl. cbn [negb].
  unfold mbind at 1, M_bind at 1. rewrite timingSafeEqual_run, Nat.eqb_refl.
  rewrite bool_decide_eq_true_2 by done. reflexivity.
Qed.

(** Without the restriction to latin1 the encoding identifies strings:
    an unpaired surrogate and U+FFFD have the same bytes. *)
Remark Buffer_from_surrogate : Buffer_from [55296] = Buffer_from [65533].
Proof. reflexivity. Qed.

Lemma latin1_substring h n : latin1 h → latin1 (substring h n).
Proof. apply Forall_drop. Qed.

(** C1. The authentication gate of [POST /mcp]: with [BEARER_TOKEN] unset
    it answers 500 (misconfiguration); with the secret set, a request whose
    [Authorization] header is absent or does not start with [Bearer ], or
    whose token differs from the secret, is answered 401. In each of these
    cases the gate returns without calling [next], whatever the rest of the
    chain is: the only effects are the log line, the response, and (for
    tokens of the right length) the comparison, so no registry lookup, no
    session access and no tool-call logging happens. *)
Theorem authenticateBearer_rejects P res req next w :
  (truthy (env P "BEARER_TOKEN") = false →
   stops (authenticateBearer P res req next) w res
     (rejection res LError [] 500 (-32603)
        "Server misconfiguration: BEARER_TOKEN not set"))
  ∧ (truthy (env P "BEARER_TOKEN") = true → no_bearer (authorization req) →
     stops (authenticateBearer P res req next) w res
       (rejection res LWarn [("ip", opt_val (ip req))] 401 (-32001)
          "Unauthorized: Bearer token required"))
  ∧ (∀ secret h,
       env P "BEARER_TOKEN" = Some secret → secret ≠ [] →
       authorization req = Some h → startsWith h (lit "Bearer ") = true →
       latin1 h → substring h 7 ≠ secret →
       stops (authenticateBearer P res req next) w res
         ((if Nat.eqb (length (Buffer_from (substring h 7))) (length (Buffer_from secret))
           then [EvTimingSafeEqual (Buffer_from (substring h 7)) (Buffer_from secret)]
           else [])
          ++ rejection res LWarn [("ip", opt_val (ip req))] 401 (-32001)
               "Unauthorized: Invalid token")).
Proof.
  split; [|split].
  - intros H. split; [by apply gate_misconfigured|]. by repeat constructor.
  - intros H Hn. split; [by apply gate_no_bearer|]. by repeat constructor.
  - intros secret h He Hs Ha Hb Hl Hne.
    destruct (Nat.eqb _ _) eqn:Hlen.
    + apply Nat.eqb_eq in Hlen. split; [|by repeat constructor].
      apply (gate_wrong_content _ _ _ _ _ secret h); try done.
      intros Heq. apply Hne. apply utf8_encode_latin1_inj; [|exact Heq].
      by apply latin1_substring.
    + apply Nat.eqb_neq in Hlen. split; [|by repeat constructor].
      by apply (gate_wrong_length _ _ _ _ _ secret h).
Qed.

Lemma authenticateBearer_rejects_witness :
  stops (authenticateBearer open_platform 0 (bearer "s3cret") (throw (sample_error "next")))
    initial_world 0
    (rejection 0 LError [] 500 (-32603) "Server misconfiguration: BEARER_TOKEN not set")
  ∧ stops (authenticateBearer http_platform 0 anonymous (throw (sample_error "next")))
      initial_world 0
      (rejection 0 LWarn [("ip", JStr (lit "10.0.0.7"))] 401 (-32001)
         "Unauthorized: Bearer token required")
  ∧ stops (authenticateBearer http_platform 0 (bearer "s3cres") (throw (sample_error "next")))
      initial_world 0
      (EvTimingSafeEqual (lit "s3cres") (lit "s3cret")
       :: rejection 0 LWarn [("ip", JStr (lit "10.0.0.7"))] 401 (-32001)
            "Unauthorized: Invalid token").
Proof.
  split; [|split].
  - apply (authenticateBearer_rejects open_platform 0 (bearer "s3cret")). reflexivity.
  - apply (authenticateBearer_rejects http_platform 0 anonymous).
    + reflexivity.
    + left. reflexivity.
  - apply (proj2 (proj2 (authenticateBearer_rejects http_platform 0 (bearer "s3cres")
                           (throw (sample_error "next")) initial_world))
             (lit "s3cret") (lit "Bearer s3cres")).
    + reflexivity.
    + discriminate.
    + reflexivity.
    + reflexivity.
    + unfold latin1. repeat constructor.
    + discriminate.
Defined.

Ltac not_among H :=
  repeat (apply elem_of_cons in H as [H|H]; [discriminate H|]);
  by apply elem_of_nil in H.

(** C10. A presented token whose byte length differs from that of the
    configured token is answered 401 by the length check alone: the gate
    returns normally, [crypto.timingSafeEqual] is not among its effects, and
    that call would have thrown a [RangeError] on these two buffers. *)
Theorem wrong_length_token_rejected P res req next w secret h :
  env P "BEARER_TOKEN" = Some secret → secret ≠ [] →
  authorization req = Some h → startsWith h (lit "Bearer ") = true →
  length (Buffer_from (substring h 7)) ≠ length (Buffer_from secret) →
  authenticateBearer P res req next w
  = (Normal (), answered res
       (rejection res LWarn [("ip", opt_val (ip req))] 401 (-32001)
          "Unauthorized: Invalid token") w)
  ∧ (∀ a b, EvTimingSafeEqual a b ∉ events_of (authenticateBearer P res req next) w)
  ∧ (∃ e, (crypto_timingSafeEqual (Buffer_from (substring h 7)) (Buffer_from secret) w).1
          = Throw e ∧ err_class e = ClsRangeError).
Proof.
  intros He Hs Ha Hb Hlen.
  pose proof (gate_wrong_length P res req next w secret h He Hs Ha Hb Hlen) as Hrun.
  split; [exact Hrun|split].
  - intros a b Hin. rewrite (events_of_answered _ _ _ _ _ Hrun) in Hin.
    unfold rejection in Hin. not_among Hin.
  - rewrite timingSafeEqual_run. apply Nat.eqb_neq in Hlen. rewrite Hlen.
    eexists. split; reflexivity.
Qed.

Lemma wrong_length_token_rejected_witness :
  authenticateBearer http_platform 0 (bearer "s3") (throw (sample_error "next")) initial_world
  = (Normal (), answered 0
       (rejection 0 LWarn [("ip", JStr (lit "10.0.0.7"))] 401 (-32001)
          "Unauthorized: Invalid token") initial_world).
Proof.
  apply (wrong_length_token_rejected http_platform 0 (bearer "s3")
           (throw (sample_error "next")) initial_world (lit "s3cret") (lit "Bearer s3")).
  - reflexivity.
  - discriminate.
  - reflexivity.
  - reflexivity.
  - vm_compute. lia.
Defined.

(** ** The protocol handlers *)

(** Worlds that differ by a trace suffix. *)
Lemma with_events_app a b w :
  with_events b (with_events a w) = with_events (a ++ b) w.
Proof. unfold with_events, set_trace. cbn. f_equal. by rewrite app_assoc. Qed.

Lemma events_of_with_events {A} (m : M A) w c evs :
  m w = (c, with_events evs w) → events_of m w = evs.
Proof. intros H. unfold events_of. rewrite H. cbn. apply drop_app_length. Qed.

Lemma emit_run e w : emit e w = (Normal (), with_events [e] w).
Proof. reflexivity. Qed.

Lemma find_unregistered (registry : list tool) toolName :
  (∀ t, t ∈ registry → name t ≠ toolName) →
  find (λ t, str_eqb (name t) toolName) registry = None.
Proof.
  induction registry as [|t r IH]; intros H; [done|]. cbn.
  unfold str_eqb at 1. rewrite bool_decide_eq_false_2.
  - apply IH. intros t' Ht'. apply H. by right.
  - apply H. by left.
Qed.

(** C3. A [tools/call] request whose name matches no registered tool: both
    servers throw the error with code [MCP_ERROR_CODES.METHOD_NOT_FOUND]
    after a request log line, the registry lookup and the "Tool not found"
    log line only. The handler of no tool is invoked, neither a start, a
    success nor an error phase of the tool-call logger is emitted, and the
    session provider is not accessed. *)
Theorem call_tool_unknown P requestId request w :
  (∀ t, t ∈ tools P → name t ≠ params_name request) →
  let toolName := params_name request in
  let http := [EvLog (RequestLogger requestId) LInfo [("tool", JStr toolName)]
                 "tools/call request";
               EvRegistry (Find toolName);
               EvLog (RequestLogger requestId) LError [("tool", JStr toolName)]
                 "Tool not found"] in
  let stdio := [EvLog Logger LInfo [("tool", JStr toolName)] "tools/call request received";
                EvRegistry (Find toolName);
                EvLog Logger LError [("tool", JStr toolName)] "Tool not found"] in
  call_tool_http P requestId request w = (Throw (unknown_tool P toolName), with_events http w)
  ∧ call_tool_stdio P request w = (Throw (unknown_tool P toolName), with_events stdio w)
  ∧ code (unknown_tool P toolName) = Some (METHOD_NOT_FOUND P)
  ∧ Forall (λ e, handler_or_session_event e = false) (http ++ stdio).
Proof.
  intros Hno. apply find_unregistered in Hno. cbn zeta.
  split; [|split; [|split]].
  - unfold call_tool_http, registry_find. unfold_M. rewrite Hno. cbn.
    unfold with_events, set_trace. cbn. do 2 f_equal. by rewrite <- !app_assoc.
  - unfold call_tool_stdio, registry_find. unfold_M. rewrite Hno. cbn.
    unfold with_events, set_trace. cbn. do 2 f_equal. by rewrite <- !app_assoc.
  - reflexivity.
  - by repeat constructor.
Qed.

Lemma call_tool_unknown_witness :
  call_tool_http http_platform (lit "request-0") (call "nonexistent") initial_world
  = (Throw (unknown_tool http_platform (lit "nonexistent")),
     with_events
       [EvLog (RequestLogger (lit "request-0")) LInfo [("tool", JStr (lit "nonexistent"))]
          "tools/call request";
        EvRegistry (Find (lit "nonexistent"));
        EvLog (RequestLogger (lit "request-0")) LError [("tool", JStr (lit "nonexistent"))]
          "Tool not found"] initial_world).
Proof.
  apply (call_tool_unknown http_platform (lit "request-0") (call "nonexistent") initial_world).
  intros t Ht. cbn in Ht.
  repeat (apply elem_of_cons in Ht as [->|Ht]; [discriminate|]).
  by apply elem_of_nil in Ht.
Defined.

(** C5. [tools/list]: both servers return the projection of the whole
    registry, entry by entry in registry order; every entry has the keys
    [name], [description] and [inputSchema] and no others, so no [handler].
    The handler completes normally in every world and changes no state:
    the world it leaves is the one it found with one debug line and the
    read of the registry added to the trace. *)
Theorem list_tools_projection P requestId w :
  list_tools_http P requestId w
  = (Normal (JObj [("tools", JArr (map project (tools P)))]),
     with_events [EvLog (RequestLogger requestId) LDebug [("count", count P)]
                    "tools/list request";
                  EvRegistry ListAll] w)
  ∧ list_tools_stdio P w
    = (Normal (JObj [("tools", JArr (map project (tools P)))]),
       with_events [EvLog Logger LDebug [("count", count P)] "tools/list request received";
                    EvRegistry ListAll] w)
  ∧ map (get "name") (map project (tools P)) = map (λ t, Some (JStr (name t))) (tools P)
  ∧ map (get "description") (map project (tools P)) = map (λ t, Some (description t)) (tools P)
  ∧ map (get "inputSchema") (map project (tools P)) = map (λ t, Some (inputSchema t)) (tools P)
  ∧ Forall (λ entry, keys entry = ["name"; "description"; "inputSchema"]
                     ∧ get "handler" entry = None)
      (map project (tools P))
  ∧ (∀ evs, heap (with_events evs w) = heap w
            ∧ responses (with_events evs w) = responses w
            ∧ tsdavManager (with_events evs w) = tsdavManager w
            ∧ dateNowCalls (with_events evs w) = dateNowCalls w
            ∧ uuidCalls (with_events evs w) = uuidCalls w).
Proof.
  repeat split.
  - unfold list_tools_http, registry_map. unfold_M.
    unfold with_events, set_trace. cbn. do 2 f_equal. by rewrite <- !app_assoc.
  - unfold list_tools_stdio, registry_map. unfold_M.
    unfold with_events, set_trace. cbn. do 2 f_equal. by rewrite <- !app_assoc.
  - rewrite map_map. reflexivity.
  - rewrite map_map. reflexivity.
  - rewrite map_map. reflexivity.
  - apply Forall_map. apply Forall_forall. intros t _. split; reflexivity.
Qed.

(** The two accessors of the session provider. *)
Lemma getCalDavClient_run w :
  getCalDavClient w
  = match this_calDavClient (tsdavManager w) with
    | Some client => (Normal client, with_events [EvSession GetCalDavClient] w)
    | None =>
        (Throw (new_Error ClsCalDAVError
                  (lit "CalDAV client not initialized. Call initialize() first.")),
         with_events [EvSession GetCalDavClient;
                      EvLog Logger LError [] "CalDAV client not initialized"] w)
    end.
Proof.
  unfold getCalDavClient, this. unfold_M.
  destruct (this_calDavClient (tsdavManager w)); cbn; [done|].
  unfold with_events, set_trace. cbn. do 2 f_equal. by rewrite <- app_assoc.
Qed.

Lemma getCardDavClient_run w :
  getCardDavClient w
  = match this_cardDavClient (tsdavManager w) with
    | Some client => (Normal client, with_events [EvSession GetCardDavClient] w)
    | None =>
        (Throw (new_Error ClsCardDAVError
                  (lit "CardDAV client not initialized. Call initialize() first.")),
         with_events [EvSession GetCardDavClient;
                      EvLog Logger LError [] "CardDAV client not initialized"] w)
    end.
Proof.
  unfold getCardDavClient, this. unfold_M.
  destruct (this_cardDavClient (tsdavManager w)); cbn; [done|].
  unfold with_events, set_trace. cbn. do 2 f_equal. by rewrite <- app_assoc.
Qed.

Lemma with_events_nil w : with_events [] w = w.
Proof. destruct w. unfold with_events, set_trace. cbn. by rewrite app_nil_r. Qed.

Lemma access_session_run ops w :
  ∃ hevs, Forall (λ e, session_event e = true) hevs
    ∧ (access_session ops w = (Normal (), with_events hevs w)
       ∨ ∃ error, access_session ops w = (Throw error, with_events hevs w)).
Proof.
  revert w. induction ops as [|op ops IH]; intros w.
  - exists []. split; [constructor|]. left. cbn. unfold mret, M_ret. by rewrite with_events_nil.
  - destruct op; cbn [access_session]; unfold mbind, M_bind.
    + rewrite getCalDavClient_run.
      destruct (this_calDavClient (tsdavManager w)).
      * destruct (IH (with_events [EvSession GetCalDavClient] w)) as (hevs & Hs & Hr).
        exists (EvSession GetCalDavClient :: hevs). split; [by constructor|].
        rewrite with_events_app in Hr. exact Hr.
      * eexists. split; [|right; eexists; reflexivity]. by repeat constructor.
    + rewrite getCardDavClient_run.
      destruct (this_cardDavClient (tsdavManager w)).
      * destruct (IH (with_events [EvSession GetCardDavClient] w)) as (hevs & Hs & Hr).
        exists (EvSession GetCardDavClient :: hevs). split; [by constructor|].
        rewrite with_events_app in Hr. exact Hr.
      * eexists. split; [|right; eexists; reflexivity]. by repeat constructor.
Qed.

(** A handler invocation settles with a value or an error, and leaves the
    invocation and its accesses to the session provider in the trace. *)
Lemma invoke_run t args w :
  ∃ hevs, Forall (λ e, session_event e = true) hevs
    ∧ ((∃ result, invoke t args w
                  = (Normal result, with_events (EvHandler (name t) args :: hevs) w))
       ∨ (∃ error, invoke t args w
                   = (Throw error, with_events (EvHandler (name t) args :: hevs) w))).
Proof.
  unfold invoke. unfold mbind, M_bind. rewrite emit_run.
  destruct (access_session_run (session_ops (handler t args))
              (with_events [EvHandler (name t) args] w)) as (hevs & Hs & [Hr|[e Hr]]);
    exists hevs; (split; [exact Hs|]); rewrite Hr, with_events_app; cbn [app].
  - destruct (settles (handler t args)); [left|right]; eexists; reflexivity.
  - right. eexists. reflexivity.
Qed.

Ltac run_handler :=
  repeat progress
    (unfold mbind, M_bind, mret, M_ret, log, emit, throw, try_catch, Date_now,
       logToolCallStart, logToolCallSuccess, logToolCallError, registry_find;
     cbn -[invoke]).

(** Two worlds are equal when their fields are. *)
Lemma world_ext a b :
  trace a = trace b → heap a = heap b → responses a = responses b →
  tsdavManager a = tsdavManager b → dateNowCalls a = dateNowCalls b →
  uuidCalls a = uuidCalls b → a = b.
Proof. destruct a, b. cbn. by intros -> -> -> -> -> ->. Qed.

Ltac reduce_worlds :=
  cbn [clocked with_events answered set_trace set_heap set_responses set_manager
       trace heap responses tsdavManager dateNowCalls uuidCalls app Nat.add].

Ltac same_world :=
  unfold timed, ctx_http, ctx_stdio, call_trace_http, call_trace_stdio;
  apply world_ext; reduce_worlds; rewrite <- ?app_assoc; reflexivity.

(** The run of [tools/call] for a registered tool, on both servers. *)
Lemma call_tool_http_found P requestId request tool w :
  find (λ t, str_eqb (name t) (params_name request)) (tools P) = Some tool →
  ∃ hevs outcome,
    Forall (λ e, session_event e = true) hevs
    ∧ call_tool_http P requestId request w
      = (Normal (returned P outcome),
         clocked 2
           (call_trace_http requestId (params_name request) (arguments_of request)
              (wall_clock P (dateNowCalls w)) (wall_clock P (S (dateNowCalls w)))
              tool hevs outcome) w).
Proof.
  intros Hfind. unfold call_tool_http. fold (arguments_of request).
  run_handler. rewrite Hfind. run_handler.
  match goal with
  | |- context [invoke ?t ?a ?w0] =>
      destruct (invoke_run t a w0) as (hevs & Hs & [[result Hr]|[error Hr]]);
      rewrite Hr
  end.
  - exists hevs, (inl result). split; [exact Hs|]. f_equal. same_world.
  - exists hevs, (inr error). split; [exact Hs|]. f_equal. same_world.
Qed.

Lemma call_tool_stdio_found P request tool w :
  find (λ t, str_eqb (name t) (params_name request)) (tools P) = Some tool →
  ∃ hevs outcome,
    Forall (λ e, session_event e = true) hevs
    ∧ call_tool_stdio P request w
      = (Normal (returned P outcome),
         clocked 2
           (call_trace_stdio (params_name request) (arguments_of request)
              (wall_clock P (dateNowCalls w)) (wall_clock P (S (dateNowCalls w)))
              tool hevs outcome) w).
Proof.
  intros Hfind. unfold call_tool_stdio. fold (arguments_of request).
  run_handler. rewrite Hfind. run_handler.
  match goal with
  | |- context [invoke ?t ?a ?w0] =>
      destruct (invoke_run t a w0) as (hevs & Hs & [[result Hr]|[error Hr]]);
      rewrite Hr
  end.
  - exists hevs, (inl result). split; [exact Hs|]. f_equal. same_world.
  - exists hevs, (inr error). split; [exact Hs|]. f_equal. same_world.
Qed.

(** C9, as the code has it. A call that reaches a registered handler reads
    [Date.now()] twice: once before the start entry of the tool-call logger
    and the invocation of the handler, once right after the handler has
    settled. The duration in the success or error entry is the second
    reading minus the first; both are wall-clock readings, so the duration
    is non-negative when the wall clock was not set back in between. *)
Theorem tool_call_duration P requestId request tool w :
  find (λ t, str_eqb (name t) (params_name request)) (tools P) = Some tool →
  (∃ hevs outcome,
     Forall (λ e, session_event e = true) hevs
     ∧ call_tool_http P requestId request w
       = (Normal (returned P outcome),
          clocked 2
            (call_trace_http requestId (params_name request) (arguments_of request)
               (wall_clock P (dateNowCalls w)) (wall_clock P (S (dateNowCalls w)))
               tool hevs outcome) w))
  ∧ (∃ hevs outcome,
       Forall (λ e, session_event e = true) hevs
       ∧ call_tool_stdio P request w
         = (Normal (returned P outcome),
            clocked 2
              (call_trace_stdio (params_name request) (arguments_of request)
                 (wall_clock P (dateNowCalls w)) (wall_clock P (S (dateNowCalls w)))
                 tool hevs outcome) w))
  ∧ ((wall_clock P (dateNowCalls w) ≤ wall_clock P (S (dateNowCalls w)))%Z →
     (0 ≤ wall_clock P (S (dateNowCalls w)) - wall_clock P (dateNowCalls w))%Z).
Proof.
  intros Hfind. split; [|split].
  - by apply call_tool_http_found.
  - by apply call_tool_stdio_found.
  - lia.
Qed.

Lemma tool_call_duration_witness :
  ∃ hevs outcome,
    Forall (λ e, session_event e = true) hevs
    ∧ call_tool_http http_platform (lit "request-0") (call "list_calendars") serving_world
      = (Normal (returned http_platform outcome),
         clocked 2
           (call_trace_http (lit "request-0") (lit "list_calendars") (JObj [])
              1000 1005
              {| name := lit "list_calendars";
                 description := JStr (lit "List all calendars");
                 inputSchema := JObj [("type", JStr (lit "object"))];
                 handler := λ _, {| session_ops := [GetCalDavClient];
                                    settles := inl (JObj [("content", JArr [])]) |} |}
              hevs outcome) serving_world).
Proof.
  apply (tool_call_duration http_platform (lit "request-0") (call "list_calendars") _
           serving_world).
  reflexivity.
Defined.

(** C9 as stated fails: with a wall clock set back from 1000 to 400 while
    the handler runs, the success entry reports a duration of -600. *)
Lemma tool_call_duration_counterexample :
  ∃ duration,
    last (trace (call_tool_http adjusted_platform (lit "request-0")
                   (call "list_calendars") serving_world).2)
    = Some (EvToolCallSuccess (lit "list_calendars") (JObj [])
              (JObj [("content", JArr [])])
              (timed (ctx_http (lit "request-0")) duration))
    ∧ (duration < 0)%Z.
Proof. exists (-600)%Z. split; [reflexivity|lia]. Qed.

(** ** The session provider *)

(** Runs an initializer on a symbolic world, keeping the heap operations
    folded. *)
Ltac run_session :=
  repeat progress
    (unfold mbind, M_bind, mret, M_ret, log, emit, modify, throw, get_world, try_catch,
       this, new_DAVClient, alloc, login;
     cbn -[fresh insert lookup dom lit]).

Lemma login_run P c opts w :
  heap w !! c = Some (ODavClient opts) →
  login P (Some c) w
  = (match login_outcome P opts with
     | None => Normal ()
     | Some error => Throw error
     end, with_events [EvLogin c] w).
Proof.
  intros H. unfold login. unfold_M. rewrite H.
  by destruct (login_outcome P opts).
Qed.

(** Addresses given out by [new] are not in use. *)
Lemma fresh_insert_ne (m : gmap nat object) a o : fresh (dom (<[a:=o]> m)) ≠ a.
Proof.
  intros Heq. pose proof (is_fresh (dom (<[a:=o]> m))) as Hf.
  rewrite Heq in Hf. apply Hf. rewrite dom_insert_L. set_solver.
Qed.

Lemma fresh_insert_None (m : gmap nat object) a o : m !! fresh (dom (<[a:=o]> m)) = None.
Proof.
  pose proof (is_fresh (dom (<[a:=o]> m))) as Hf.
  apply not_elem_of_dom in Hf. apply lookup_insert_None in Hf. tauto.
Qed.

Lemma fresh_None {A} (m : gmap nat A) : m !! fresh (dom m) = None.
Proof. apply not_elem_of_dom, is_fresh. Qed.

Lemma with_clients_calDav cfg w :
  heap (with_clients cfg w) !! calDav_addr w = Some (ODavClient (calDav_options cfg)).
Proof.
  cbn. rewrite lookup_insert_ne by apply fresh_insert_ne. apply lookup_insert_eq.
Qed.

Lemma with_clients_cardDav cfg w :
  heap (with_clients cfg w) !! cardDav_addr cfg w = Some (ODavClient (cardDav_options cfg)).
Proof. cbn. apply lookup_insert_eq. Qed.

(** [_initializeBasicAuth] past its check of the fields: both clients are
    constructed and stored, then logged in one after the other, the
    first failure ending the run. *)
Lemma initializeBasicAuth_run P cfg w :
  uses_oauth cfg = false → basic_fields_present cfg = true →
  _initializeBasicAuth P cfg w
  = match login_outcome P (calDav_options cfg) with
    | Some error =>
        (Throw error,
         with_events (construction cfg w ++ [EvLogin (calDav_addr w)]) (with_clients cfg w))
    | None =>
        match login_outcome P (cardDav_options cfg) with
        | Some error =>
            (Throw error,
             with_events
               (construction cfg w
                ++ [EvLogin (calDav_addr w);
                    EvLog Logger LDebug [("accountType", JStr (lit "caldav"))]
                      "CalDAV client logged in (Basic Auth)";
                    EvLogin (cardDav_addr cfg w)])
               (with_clients cfg w))
        | None =>
            (Normal (),
             with_events
               (construction cfg w
                ++ [EvLogin (calDav_addr w);
                    EvLog Logger LDebug [("accountType", JStr (lit "caldav"))]
                      "CalDAV client logged in (Basic Auth)";
                    EvLogin (cardDav_addr cfg w);
                    EvLog Logger LDebug [("accountType", JStr (lit "carddav"))]
                      "CardDAV client logged in (Basic Auth)"])
               (with_clients cfg w))
        end
    end.
Proof.
  intros Hmode Hf. unfold basic_fields_present in Hf.
  apply andb_true_iff in Hf as [Hu Hp].
  unfold _initializeBasicAuth. rewrite Hu, Hp. cbn [negb orb].
  unfold with_clients, construction, cardDav_addr, calDav_addr, cardDav_options,
    calDav_options, basic_credentials.
  rewrite Hmode.
  run_session.
  rewrite lookup_insert_ne by apply fresh_insert_ne. rewrite lookup_insert_eq.
  destruct (login_outcome P _) as [e|]; [f_equal; same_world|].
  run_session. rewrite lookup_insert_eq.
  destruct (login_outcome P _) as [e|]; f_equal; same_world.
Qed.

(** The checks of the required fields throw in the world they found. *)
Lemma initializeBasicAuth_invalid P cfg w :
  basic_fields_present cfg = false →
  _initializeBasicAuth P cfg w
  = (Throw (new_Error ClsError (lit "Basic Auth requires username and password")), w).
Proof.
  intros Hf. unfold basic_fields_present in Hf. unfold _initializeBasicAuth.
  destruct (truthy (username cfg)), (truthy (password cfg)); try discriminate; reflexivity.
Qed.

Lemma initializeOAuth_invalid P cfg w :
  oauth_fields_present cfg = false →
  ∃ error, _initializeOAuth P cfg w = (Throw error, w) ∧ err_class error = ClsError.
Proof.
  intros Hf. unfold oauth_fields_present in Hf. unfold _initializeOAuth.
  destruct (truthy (username cfg)); [|eexists; split; reflexivity].
  destruct (truthy (clientId cfg)), (truthy (clientSecret cfg)),
    (truthy (refreshToken cfg)); try discriminate; eexists; split; reflexivity.
Qed.

(** [_initializeOAuth] past its checks: a failure of the CalDAV login ends
    the run, a failure of the CardDAV login leaves a warning. *)
Lemma initializeOAuth_run P cfg w :
  uses_oauth cfg = true → oauth_fields_present cfg = true →
  let pre :=
    EvLog Logger LDebug
      [("username", opt_val (username cfg)); ("tokenUrl", JStr (oauth_token_url cfg));
       ("serverUrl", opt_val (serverUrl cfg))]
      "Configuring OAuth2 credentials"
    :: construction cfg w in
  _initializeOAuth P cfg w
  = match login_outcome P (calDav_options cfg) with
    | Some error =>
        (Throw error, with_events (pre ++ [EvLogin (calDav_addr w)]) (with_clients cfg w))
    | None =>
        (Normal (),
         with_events
           (pre
            ++ [EvLogin (calDav_addr w);
                EvLog Logger LDebug [("accountType", JStr (lit "caldav"))]
                  "CalDAV client logged in (OAuth2)";
                EvLogin (cardDav_addr cfg w);
                match login_outcome P (cardDav_options cfg) with
                | Some error => cardDav_warning error
                | None =>
                    EvLog Logger LDebug [("accountType", JStr (lit "carddav"))]
                      "CardDAV client logged in (OAuth2)"
                end])
           (with_clients cfg w))
    end.
Proof.
  intros Hmode Hf. unfold oauth_fields_present in Hf.
  apply andb_true_iff in Hf as [Hf Hr]. apply andb_true_iff in Hf as [Hf Hs].
  apply andb_true_iff in Hf as [Hu Hc].
  unfold _initializeOAuth. rewrite Hu, Hc, Hs, Hr. cbn [negb orb].
  unfold with_clients, construction, cardDav_addr, calDav_addr, cardDav_options,
    calDav_options, oauth_credentials, oauth_token_url, cardDav_warning.
  rewrite Hmode.
  run_session.
  rewrite lookup_insert_ne by apply fresh_insert_ne. rewrite lookup_insert_eq.
  destruct (login_outcome P _) as [e|]; [f_equal; same_world|].
  run_session. rewrite lookup_insert_eq.
  destruct (login_outcome P _) as [e|]; f_equal; same_world.
Qed.

(** [initialize] stores the configuration, announces the mode, runs the
    initializer of the mode, and logs its success or logs and rethrows its
    failure. *)
Lemma initialize_run P cfg w :
  initialize P cfg w
  = match (if uses_oauth cfg then _initializeOAuth P cfg else _initializeBasicAuth P cfg)
            (with_events [mode_line cfg] (configured cfg w)) with
    | (Normal _, w') => (Normal (), with_events [success_line cfg] w')
    | (Throw error, w') => (Throw error, with_events [failure_line cfg error] w')
    | (Exit status, w') => (Exit status, w')
    end.
Proof.
  unfold initialize, mode_line, uses_oauth, success_line, failure_line, method_of.
  repeat progress
    (unfold mbind, M_bind, mret, M_ret, log, emit, modify, throw, get_world, try_catch, this;
     cbn -[_initializeOAuth _initializeBasicAuth lit]).
  fold (configured cfg w).
  destruct (str_eqb _ _ || str_eqb _ _).
  - match goal with
    | |- context [_initializeOAuth P cfg ?w0] =>
        change w0 with
          (with_events [EvLog Logger LInfo [("serverUrl", opt_val (serverUrl cfg))]
                          "Initializing tsdav clients with OAuth2"] (configured cfg w));
        destruct (_initializeOAuth P cfg
                    (with_events [EvLog Logger LInfo [("serverUrl", opt_val (serverUrl cfg))]
                                    "Initializing tsdav clients with OAuth2"]
                       (configured cfg w))) as [[[]|e|s] w']
    end; reflexivity.
  - match goal with
    | |- context [_initializeBasicAuth P cfg ?w0] =>
        change w0 with
          (with_events [EvLog Logger LInfo [("serverUrl", opt_val (serverUrl cfg))]
                          "Initializing tsdav clients with Basic Auth"] (configured cfg w));
        destruct (_initializeBasicAuth P cfg
                    (with_events [EvLog Logger LInfo [("serverUrl", opt_val (serverUrl cfg))]
                                    "Initializing tsdav clients with Basic Auth"]
                       (configured cfg w))) as [[[]|e|s] w']
    end; reflexivity.
Qed.

Ltac same_session_world :=
  unfold until_calDav_login, construction, calDav_logged_in, cardDav_logged_in, mode_line,
    calDav_addr, cardDav_addr;
  try match goal with
      | H : uses_oauth _ = _ |- _ => rewrite ?H
      end;
  apply world_ext;
  cbn [initialized with_clients configured clocked with_events answered set_trace set_heap
       set_responses set_manager trace heap responses tsdavManager dateNowCalls uuidCalls
       app];
  rewrite <- ?app_assoc; reflexivity.

(** [initialize] in full, in the two modes. *)
Lemma initialize_basic P cfg w :
  uses_oauth cfg = false → basic_fields_present cfg = true →
  initialize P cfg w
  = match login_outcome P (calDav_options cfg) with
    | Some error =>
        (Throw error,
         initialized cfg (until_calDav_login cfg w ++ [failure_line cfg error]) w)
    | None =>
        match login_outcome P (cardDav_options cfg) with
        | Some error =>
            (Throw error,
             initialized cfg
               (until_calDav_login cfg w
                ++ [calDav_logged_in cfg; EvLogin (cardDav_addr cfg w);
                    failure_line cfg error]) w)
        | None =>
            (Normal (),
             initialized cfg
               (until_calDav_login cfg w
                ++ [calDav_logged_in cfg; EvLogin (cardDav_addr cfg w);
                    cardDav_logged_in cfg; success_line cfg]) w)
        end
    end.
Proof.
  intros Hmode Hf. rewrite initialize_run, Hmode, initializeBasicAuth_run by done.
  destruct (login_outcome P (calDav_options cfg)) as [e|];
    [|destruct (login_outcome P (cardDav_options cfg)) as [e|]];
    f_equal; rewrite ?Hmode; same_session_world.
Qed.

Lemma initialize_oauth P cfg w :
  uses_oauth cfg = true → oauth_fields_present cfg = true →
  initialize P cfg w
  = match login_outcome P (calDav_options cfg) with
    | Some error =>
        (Throw error,
         initialized cfg (until_calDav_login cfg w ++ [failure_line cfg error]) w)
    | None =>
        (Normal (),
         initialized cfg
           (until_calDav_login cfg w
            ++ [calDav_logged_in cfg; EvLogin (cardDav_addr cfg w);
                match login_outcome P (cardDav_options cfg) with
                | Some error => cardDav_warning error
                | None => cardDav_logged_in cfg
                end;
                success_line cfg]) w)
    end.
Proof.
  intros Hmode Hf. rewrite initialize_run, Hmode, initializeOAuth_run by done.
  destruct (login_outcome P (calDav_options cfg)) as [e|];
    [|destruct (login_outcome P (cardDav_options cfg)) as [e|]];
    f_equal; rewrite ?Hmode; same_session_world.
Qed.

Lemma initialize_invalid P cfg w :
  fields_present cfg = false →
  ∃ error,
    initialize P cfg w
    = (Throw error, with_events [mode_line cfg; failure_line cfg error] (configured cfg w))
    ∧ err_class error = ClsError
    ∧ (uses_oauth cfg = false →
       error = new_Error ClsError (lit "Basic Auth requires username and password")).
Proof.
  unfold fields_present. intros Hf. rewrite initialize_run.
  destruct (uses_oauth cfg).
  - destruct (initializeOAuth_invalid P cfg (with_events [mode_line cfg] (configured cfg w)) Hf)
      as (e & -> & Hc).
    exists e. rewrite with_events_app. done.
  - rewrite initializeBasicAuth_invalid by done. eexists. rewrite with_events_app. done.
Qed.

(** What a successful [initialize] implies. *)
Lemma initialize_normal P cfg w :
  (initialize P cfg w).1 = Normal () →
  fields_present cfg = true
  ∧ login_outcome P (calDav_options cfg) = None
  ∧ ∃ evs, (initialize P cfg w).2 = initialized cfg evs w.
Proof.
  intros Hn. destruct (fields_present cfg) eqn:Hf.
  - split; [done|]. unfold fields_present in Hf.
    destruct (uses_oauth cfg) eqn:Hmode.
    + rewrite initialize_oauth in * by done.
      destruct (login_outcome P (calDav_options cfg)); [discriminate|].
      split; [done|]. eexists. reflexivity.
    + rewrite initialize_basic in * by done.
      destruct (login_outcome P (calDav_options cfg)); [discriminate|].
      split; [done|].
      destruct (login_outcome P (cardDav_options cfg)); [discriminate|].
      eexists. reflexivity.
  - destruct (initialize_invalid P cfg w Hf) as (e & He & _).
    rewrite He in Hn. discriminate.
Qed.

(** C8. With the client field empty an accessor throws its own error:
    a [CalDAVError] from [getCalDavClient], a [CardDAVError] from
    [getCardDavClient], each saying that the client is not initialized; so
    it is for both in a process where [initialize] has not run. An accessor
    that returns, returns the stored handle. After an [initialize] that
    succeeded, each accessor returns the address of the client that this
    initialization constructed for its account type. *)
Theorem accessors_guarded :
  (∀ w, this_calDavClient (tsdavManager w) = None →
     getCalDavClient w
     = (Throw (new_Error ClsCalDAVError
                 (lit "CalDAV client not initialized. Call initialize() first.")),
        with_events [EvSession GetCalDavClient;
                     EvLog Logger LError [] "CalDAV client not initialized"] w))
  ∧ (∀ w, this_cardDavClient (tsdavManager w) = None →
       getCardDavClient w
       = (Throw (new_Error ClsCardDAVError
                   (lit "CardDAV client not initialized. Call initialize() first.")),
          with_events [EvSession GetCardDavClient;
                       EvLog Logger LError [] "CardDAV client not initialized"] w))
  ∧ (∃ e, (getCalDavClient initial_world).1 = Throw e ∧ err_class e = ClsCalDAVError)
  ∧ (∃ e, (getCardDavClient initial_world).1 = Throw e ∧ err_class e = ClsCardDAVError)
  ∧ (∀ w client w', getCalDavClient w = (Normal client, w') →
       this_calDavClient (tsdavManager w) = Some client)
  ∧ (∀ w client w', getCardDavClient w = (Normal client, w') →
       this_cardDavClient (tsdavManager w) = Some client)
  ∧ (∀ P cfg w, (initialize P cfg w).1 = Normal () →
       let w' := (initialize P cfg w).2 in
       getCalDavClient w' = (Normal (calDav_addr w), with_events [EvSession GetCalDavClient] w')
       ∧ heap w' !! calDav_addr w = Some (ODavClient (calDav_options cfg))
       ∧ heap w !! calDav_addr w = None
       ∧ getCardDavClient w'
         = (Normal (cardDav_addr cfg w), with_events [EvSession GetCardDavClient] w')
       ∧ heap w' !! cardDav_addr cfg w = Some (ODavClient (cardDav_options cfg))
       ∧ heap w !! cardDav_addr cfg w = None).
Proof.
  repeat apply conj.
  - intros w H. rewrite getCalDavClient_run, H. reflexivity.
  - intros w H. rewrite getCardDavClient_run, H. reflexivity.
  - eexists. split; reflexivity.
  - eexists. split; reflexivity.
  - intros w c w'. rewrite getCalDavClient_run.
    destruct (this_calDavClient (tsdavManager w)); [|discriminate]. congruence.
  - intros w c w'. rewrite getCardDavClient_run.
    destruct (this_cardDavClient (tsdavManager w)); [|discriminate]. congruence.
  - intros P cfg w Hn. destruct (initialize_normal P cfg w Hn) as (_ & _ & evs & ->).
    cbn zeta. rewrite getCalDavClient_run, getCardDavClient_run.
    repeat apply conj.
    + reflexivity.
    + apply (with_clients_calDav cfg (configured cfg w)).
    + apply fresh_None.
    + reflexivity.
    + apply (with_clients_cardDav cfg (configured cfg w)).
    + apply fresh_insert_None.
Qed.

Lemma accessors_guarded_witness :
  getCalDavClient initial_world
  = (Throw (new_Error ClsCalDAVError
              (lit "CalDAV client not initialized. Call initialize() first.")),
     with_events [EvSession GetCalDavClient;
                  EvLog Logger LError [] "CalDAV client not initialized"] initial_world)
  ∧ getCalDavClient (initialize http_platform basic_complete initial_world).2
    = (Normal (calDav_addr initial_world),
       with_events [EvSession GetCalDavClient]
         (initialize http_platform basic_complete initial_world).2).
Proof.
  split.
  - apply (proj1 accessors_guarded initial_world). reflexivity.
  - apply (proj2 (proj2 (proj2 (proj2 (proj2 (proj2 accessors_guarded)))))
             http_platform basic_complete initial_world).
    reflexivity.
Defined.

Lemma events_of_initialized {A} (m : M A) w c cfg evs :
  m w = (c, initialized cfg evs w) → events_of m w = evs.
Proof. intros H. unfold events_of. rewrite H. cbn. apply drop_app_length. Qed.

(** C6, as the code has it. In Basic mode [initialize] checks [username]
    and [password]: when one of them is missing it throws before a client
    is constructed or a login is made. The server URL is checked by the
    entry points: when one of [CALDAV_SERVER_URL], [CALDAV_USERNAME],
    [CALDAV_PASSWORD] is missing, [initializeTsdav] fails before it calls
    [initialize], and the process exits with status 1. *)
Theorem basic_required_fields P w :
  (∀ cfg, uses_oauth cfg = false → basic_fields_present cfg = false →
     initialize P cfg w
     = (Throw basic_fields_error,
        with_events [mode_line cfg; failure_line cfg basic_fields_error] (configured cfg w)))
  ∧ (env_uses_oauth P = false → basic_env_present P = false →
     initializeTsdav_http P w
     = (Exit 1,
        with_events [EvLog Logger LInfo [] "Initializing with Basic authentication";
                     EvLog Logger LError [("error", JStr (message basic_env_error))]
                       "Failed to initialize tsdav clients";
                     EvExit 1] w)
     ∧ initializeTsdav_stdio P w
       = (Throw basic_env_error,
          with_events [EvLog Logger LInfo [] "Initializing with Basic authentication"] w)
     ∧ startStdioServer P w
       = (Exit 1,
          with_events [EvLog Logger LInfo [] "Starting dav-mcp STDIO server...";
                       EvLog Logger LInfo [] "Initializing with Basic authentication";
                       EvLog Logger LError [("error", JStr (message basic_env_error))]
                         "Fatal error starting server";
                       EvExit 1] w)).
Proof.
  split.
  - intros cfg Hmode Hf.
    destruct (initialize_invalid P cfg w) as (e & He & _ & Hb).
    { unfold fields_present. by rewrite Hmode. }
    rewrite He, (Hb Hmode). reflexivity.
  - unfold env_uses_oauth, basic_env_present. intros Hmode Hf.
    assert (Hbody : ∀ url w0, initializeTsdav_body P url w0
              = (Throw basic_env_error,
                 with_events [EvLog Logger LInfo [] "Initializing with Basic authentication"]
                   w0)).
    { intros url w0. unfold initializeTsdav_body. cbn zeta. rewrite Hmode.
      destruct (truthy (env P "CALDAV_SERVER_URL")), (truthy (env P "CALDAV_USERNAME")),
        (truthy (env P "CALDAV_PASSWORD")); try discriminate; reflexivity. }
    repeat apply conj.
    + unfold initializeTsdav_http, try_catch. rewrite Hbody.
      unfold process_exit. unfold_M. f_equal. same_world.
    + apply Hbody.
    + unfold startStdioServer, try_catch, initializeTsdav_stdio.
      unfold mbind at 1, M_bind at 1. unfold log at 1. rewrite emit_run.
      unfold mbind at 1, M_bind at 1. rewrite Hbody.
      unfold process_exit. unfold_M. f_equal. same_world.
Qed.

Lemma basic_required_fields_witness :
  initialize http_platform basic_without_password initial_world
  = (Throw basic_fields_error,
     with_events [mode_line basic_without_password;
                  failure_line basic_without_password basic_fields_error]
       (configured basic_without_password initial_world))
  ∧ initializeTsdav_http env_without_url initial_world
    = (Exit 1,
       with_events [EvLog Logger LInfo [] "Initializing with Basic authentication";
                    EvLog Logger LError [("error", JStr (message basic_env_error))]
                      "Failed to initialize tsdav clients";
                    EvExit 1] initial_world).
Proof.
  split.
  - apply (proj1 (basic_required_fields http_platform initial_world)); reflexivity.
  - apply (proj2 (basic_required_fields env_without_url initial_world)); reflexivity.
Defined.

(** C6 as stated fails for [serverUrl]: [initialize] with a Basic
    configuration that has its credentials and no [serverUrl] constructs
    both clients and calls [login] on the CalDAV client. *)
Lemma basic_required_fields_counterexample :
  uses_oauth basic_without_url = false
  ∧ serverUrl basic_without_url = None
  ∧ In (EvLogin 0%nat) (trace (initialize http_platform basic_without_url initial_world).2).
Proof. split; [reflexivity|split; [reflexivity|]]. vm_compute. tauto. Qed.

(** C7, as the code has it. When the required fields of the mode are
    present, [initialize] constructs the CalDAV client and calls its
    [login] before any other login. In OAuth mode a failure of the CardDAV
    login is logged as a warning and [initialize] succeeds; in Basic mode
    it is thrown to the caller. *)
Theorem login_policy P cfg w :
  fields_present cfg = true →
  (∃ post,
     events_of (initialize P cfg) w = until_calDav_login cfg w ++ post
     ∧ ∃ pre, until_calDav_login cfg w = pre ++ [EvLogin (calDav_addr w)]
         ∧ Forall (λ e, is_login e = false) pre
         ∧ EvNew (calDav_addr w) (ODavClient (calDav_options cfg)) ∈ pre)
  ∧ defaultAccountType (calDav_options cfg) = lit "caldav"
  ∧ (∀ error,
       login_outcome P (calDav_options cfg) = None →
       login_outcome P (cardDav_options cfg) = Some error →
       EvLogin (cardDav_addr cfg w) ∈ events_of (initialize P cfg) w
       ∧ if uses_oauth cfg
         then (initialize P cfg w).1 = Normal ()
              ∧ cardDav_warning error ∈ events_of (initialize P cfg) w
         else (initialize P cfg w).1 = Throw error).
Proof.
  unfold fields_present. intros Hf.
  assert (Hpre : ∃ pre, until_calDav_login cfg w = pre ++ [EvLogin (calDav_addr w)]
             ∧ Forall (λ e, is_login e = false) pre
             ∧ EvNew (calDav_addr w) (ODavClient (calDav_options cfg)) ∈ pre).
  { exists (mode_line cfg
             :: (if uses_oauth cfg then
                   [EvLog Logger LDebug
                      [("username", opt_val (username cfg));
                       ("tokenUrl", JStr (oauth_token_url cfg));
                       ("serverUrl", opt_val (serverUrl cfg))]
                      "Configuring OAuth2 credentials"]
                 else [])
             ++ construction cfg w).
    split; [unfold until_calDav_login; cbn [app]; by rewrite app_assoc|].
    unfold construction. split.
    - destruct (uses_oauth cfg); by repeat constructor.
    - apply list_elem_of_In. destruct (uses_oauth cfg); cbn; tauto. }
  destruct (uses_oauth cfg) eqn:Hmode.
  - pose proof (initialize_oauth P cfg w Hmode Hf) as Hrun.
    repeat apply conj.
    + destruct (login_outcome P (calDav_options cfg)); eexists;
        (split; [eapply events_of_initialized; exact Hrun|exact Hpre]).
    + reflexivity.
    + intros e Hcal Hcard. rewrite Hcal, Hcard in Hrun.
      rewrite (events_of_initialized _ _ _ _ _ Hrun), Hrun.
      split; [|split; [reflexivity|]]; apply list_elem_of_In, in_app_iff; right;
        cbn; tauto.
  - pose proof (initialize_basic P cfg w Hmode Hf) as Hrun.
    repeat apply conj.
    + destruct (login_outcome P (calDav_options cfg));
        [|destruct (login_outcome P (cardDav_options cfg))]; eexists;
        (split; [eapply events_of_initialized; exact Hrun|exact Hpre]).
    + reflexivity.
    + intros e Hcal Hcard. rewrite Hcal, Hcard in Hrun.
      rewrite (events_of_initialized _ _ _ _ _ Hrun), Hrun.
      split; [|reflexivity]. apply list_elem_of_In, in_app_iff; right; cbn; tauto.
Qed.

Lemma login_policy_witness :
  (initialize calendar_only_platform oauth_complete initial_world).1 = Normal ()
  ∧ cardDav_warning (sample_error "Not Found")
    ∈ events_of (initialize calendar_only_platform oauth_complete) initial_world.
Proof.
  destruct (login_policy calendar_only_platform oauth_complete initial_world eq_refl)
    as (_ & _ & H).
  apply (H (sample_error "Not Found")); reflexivity.
Defined.

(** C7 as stated fails for a configuration that does not pass the check
    of its required fields: [initialize] throws and no login is attempted. *)
Lemma login_policy_counterexample :
  (initialize http_platform basic_without_password initial_world).1 = Throw basic_fields_error
  ∧ Forall (λ e, is_login e = false)
      (trace (initialize http_platform basic_without_password initial_world).2).
Proof. split; [reflexivity|]. vm_compute. repeat constructor. Qed.

(** ** The stateless HTTP binding *)

(** *** The invariant and the transitions that keep it *)
Section Instances.
Implicit Types (h : gmap nat object) (ls : gmap nat (list (nat * nat) * bool * phase)).
Implicit Types (us : list (nat * nat)).

Lemma constructed_for_close res o :
  constructed_for res (close_object o) = constructed_for res o.
Proof. by destruct o. Qed.

Lemma is_closed_close res o :
  constructed_for res o = true → is_closed (close_object o) = true.
Proof. by destruct o. Qed.

Lemma constructed_for_inj o r1 r2 :
  constructed_for r1 o = true → constructed_for r2 o = true → r1 = r2.
Proof.
  destruct o; cbn; try discriminate; intros H1 H2;
    apply bool_decide_eq_true in H1, H2; congruence.
Qed.

Lemma owned_insert h res a b o :
  h !! b = None → owned h res a → owned (<[b:=o]> h) res a.
Proof.
  intros Hb (o' & Ha & Hc). exists o'. split; [|done].
  rewrite lookup_insert_ne; [done|]. intros ->. congruence.
Qed.

Lemma close_all_lookup addrs h a :
  close_all addrs h !! a
  = if bool_decide (a ∈ addrs) then close_object <$> h !! a else h !! a.
Proof.
  revert h. induction addrs as [|b addrs IH]; intros h; [done|].
  cbn [close_all foldl]. fold (close_all addrs (alter close_object b h)).
  rewrite IH. destruct (decide (b = a)) as [->|Hne].
  - rewrite lookup_alter_eq.
    rewrite (bool_decide_eq_true_2 (a ∈ a :: addrs)) by by left.
    case_bool_decide; [|done].
    destruct (h !! a) as [o|]; [|done]. cbn. by destruct o.
  - rewrite lookup_alter_ne by done.
    destruct (bool_decide_reflect (a ∈ addrs)) as [Hin|Hin].
    + rewrite bool_decide_eq_true_2; [done|]. by right.
    + rewrite bool_decide_eq_false_2; [done|].
      intros [?|?]%elem_of_cons; done.
Qed.

Lemma owned_close_all addrs h res a : owned h res a → owned (close_all addrs h) res a.
Proof.
  intros (o & Ha & Hc). unfold owned. rewrite close_all_lookup, Ha.
  case_bool_decide; eexists; (split; [reflexivity|]); [|done].
  by rewrite constructed_for_close.
Qed.

(** A new response, with no listener. *)
Lemma instances_ok_new h ls us res :
  instances_ok h ls us → ls !! res = None →
  instances_ok h (<[res := ([], false, NotRouted)]> ls) us.
Proof.
  intros [Ho Hl Hr Hu] Hres. split.
  - intros a o res0 Ha Hc. destruct (Ho a o res0 Ha Hc) as (l & c & p & Hls & H).
    exists l, c, p. split; [|done]. rewrite lookup_insert_ne; [done|]. congruence.
  - intros res0 l c p t s Hls Hin. destruct (decide (res = res0)) as [->|Hne].
    + rewrite lookup_insert_eq in Hls. by simplify_eq.
    + rewrite lookup_insert_ne in Hls by done. eauto.
  - intros res0 l c p ts Hls Hin. destruct (decide (res = res0)) as [->|Hne].
    + rewrite lookup_insert_eq in Hls. by simplify_eq.
    + rewrite lookup_insert_ne in Hls by done. eauto.
  - done.
Qed.

(** The handler constructs the pair of a response that has none yet. *)
Lemma instances_ok_serve h ls us res p0 t s requestId :
  instances_ok h ls us → ls !! res = Some ([], false, p0) →
  h !! t = None → s ≠ t → h !! s = None →
  instances_ok
    (<[s := OServer res requestId false]> (<[t := OTransport res false]> h))
    (<[res := ([(t, s)], false, AwaitConnect requestId t s)]> ls)
    (us ++ [(t, res); (s, res); (s, res); (t, res)]).
Proof.
  intros [Ho Hl Hr Hu] Hres Ht Hst Hs.
  assert (Hot : owned (<[s := OServer res requestId false]>
                         (<[t := OTransport res false]> h)) res t).
  { eexists. rewrite lookup_insert_ne by done. rewrite lookup_insert_eq.
    split; [done|]. cbn. by apply bool_decide_eq_true. }
  assert (Hos : owned (<[s := OServer res requestId false]>
                         (<[t := OTransport res false]> h)) res s).
  { eexists. rewrite lookup_insert_eq. split; [done|]. cbn. by apply bool_decide_eq_true. }
  assert (Hold : ∀ r a, owned h r a →
            owned (<[s := OServer res requestId false]>
                     (<[t := OTransport res false]> h)) r a).
  { intros r a H. apply owned_insert.
    - rewrite lookup_insert_ne; done.
    - by apply owned_insert. }
  split.
  - intros a o res0 Ha Hc.
    destruct (decide (s = a)) as [->|Hsa].
    { rewrite lookup_insert_eq in Ha. simplify_eq. cbn in Hc.
      apply bool_decide_eq_true in Hc as <-. rewrite lookup_insert_eq.
      eexists _, _, _. split; [done|]. split; [done|]. intros _.
      exists t, a. split; [by left|by right]. }
    rewrite lookup_insert_ne in Ha by done.
    destruct (decide (t = a)) as [->|Hta].
    { rewrite lookup_insert_eq in Ha. simplify_eq. cbn in Hc.
      apply bool_decide_eq_true in Hc as <-. rewrite lookup_insert_eq.
      eexists _, _, _. split; [done|]. split; [done|]. intros _.
      exists a, s. split; [by left|by left]. }
    rewrite lookup_insert_ne in Ha by done.
    destruct (Ho a o res0 Ha Hc) as (l & c & p & Hls & Hc1 & Hc2).
    destruct (decide (res = res0)) as [->|Hne].
    { rewrite Hres in Hls. simplify_eq. destruct Hc2 as (? & ? & [] & _). done. }
    exists l, c, p. by rewrite lookup_insert_ne.
  - intros res0 l c p t0 s0 Hls Hin. destruct (decide (res = res0)) as [->|Hne].
    + rewrite lookup_insert_eq in Hls. simplify_eq.
      destruct Hin as [Heq|[]]. by simplify_eq.
    + rewrite lookup_insert_ne in Hls by done.
      destruct (Hl res0 l c p t0 s0 Hls Hin). split; by apply Hold.
  - intros res0 l c p ts Hls Hin. destruct (decide (res = res0)) as [->|Hne].
    + rewrite lookup_insert_eq in Hls. by simplify_eq.
    + rewrite lookup_insert_ne in Hls by done. eauto.
  - intros a r Hin. apply in_app_iff in Hin as [Hin|Hin]; [by apply Hold, Hu|].
    cbn in Hin. destruct Hin as [?|[?|[?|[?|[]]]]]; by simplify_eq.
Qed.

(** The handler of a response moves on, touching instances of its own. *)
Lemma instances_ok_route h ls us res l c p p' extra :
  instances_ok h ls us → ls !! res = Some (l, c, p) →
  (∀ ts, In ts (route_pair p') → In ts (route_pair p)) →
  (∀ a r, In (a, r) extra →
     r = res ∧ ∃ t s, In (t, s) (route_pair p) ∧ (a = t ∨ a = s)) →
  instances_ok h (<[res := (l, c, p')]> ls) (us ++ extra).
Proof.
  intros [Ho Hl Hr Hu] Hres Hp Hx. split.
  - intros a o res0 Ha Hc. destruct (Ho a o res0 Ha Hc) as (l0 & c0 & p1 & Hls & H).
    destruct (decide (res = res0)) as [->|Hne].
    + rewrite Hres in Hls. simplify_eq. rewrite lookup_insert_eq. by eexists _, _, _.
    + exists l0, c0, p1. by rewrite lookup_insert_ne.
  - intros res0 l0 c0 p1 t s Hls Hin. destruct (decide (res = res0)) as [->|Hne].
    + rewrite lookup_insert_eq in Hls. simplify_eq. eauto.
    + rewrite lookup_insert_ne in Hls by done. eauto.
  - intros res0 l0 c0 p1 ts Hls Hin. destruct (decide (res = res0)) as [->|Hne].
    + rewrite lookup_insert_eq in Hls. simplify_eq. eauto.
    + rewrite lookup_insert_ne in Hls by done. eauto.
  - intros a r Hin. apply in_app_iff in Hin as [Hin|Hin]; [by apply Hu|].
    destruct (Hx a r Hin) as (-> & t & s & Hts & Ha).
    destruct (Hl res l c p t s Hres (Hr res l c p (t, s) Hres Hts)).
    by destruct Ha as [->| ->].
Qed.

(** The response closes: its listeners close its instances. *)
Lemma instances_ok_close h ls us res l p :
  instances_ok h ls us → ls !! res = Some (l, false, p) →
  instances_ok (close_all (addresses l) h) (<[res := (l, true, p)]> ls)
    (us ++ map (λ a, (a, res)) (addresses l)).
Proof.
  intros [Ho Hl Hr Hu] Hres. split.
  - intros a o' res0 Ha Hc. rewrite close_all_lookup in Ha.
    assert (∃ o, h !! a = Some o ∧ constructed_for res0 o = true
              ∧ (is_closed o = true → is_closed o' = true)
              ∧ (a ∈ addresses l → is_closed o' = true)) as (o & Hho & Hco & Hk & Hk').
    { case_bool_decide.
      - destruct (h !! a) as [o|] eqn:Hho; [|done]. cbn in Ha. simplify_eq.
        rewrite constructed_for_close in Hc. exists o.
        repeat split; try done; intros _; by eapply is_closed_close.
      - exists o'. repeat split; try done. }
    destruct (Ho a o res0 Hho Hco) as (l0 & c0 & p1 & Hls & Hc1 & Hc2).
    destruct (decide (res = res0)) as [->|Hne].
    + rewrite Hres in Hls. simplify_eq. rewrite lookup_insert_eq.
      eexists _, _, _. split; [done|]. split; [|done]. intros _. apply Hk'.
      destruct Hc2 as (t & s & Hin & Hts); [done|].
      apply list_elem_of_In, in_flat_map. exists (t, s). split; [done|].
      destruct Hts as [->| ->]; cbn; auto.
    + exists l0, c0, p1. rewrite lookup_insert_ne by done. auto.
  - intros res0 l0 c0 p1 t s Hls Hin. destruct (decide (res = res0)) as [->|Hne].
    + rewrite lookup_insert_eq in Hls. simplify_eq.
      destruct (Hl res0 l0 false p1 t s Hres Hin). split; by apply owned_close_all.
    + rewrite lookup_insert_ne in Hls by done.
      destruct (Hl res0 l0 c0 p1 t s Hls Hin). split; by apply owned_close_all.
  - intros res0 l0 c0 p1 ts Hls Hin. destruct (decide (res = res0)) as [->|Hne].
    + rewrite lookup_insert_eq in Hls. simplify_eq. eauto.
    + rewrite lookup_insert_ne in Hls by done. eauto.
  - intros a r Hin. apply owned_close_all.
    apply in_app_iff in Hin as [Hin|Hin]; [by apply Hu|].
    apply in_map_iff in Hin as (a' & Heq & Hin). injection Heq as <- <-.
    apply in_flat_map in Hin as ([t s] & Hin & Ha).
    destruct (Hl res l false p t s Hres Hin). cbn in Ha.
    destruct Ha as [<-|[<-|[]]]; done.
Qed.
End Instances.

(** *** Computations that leave the instances alone *)
Section Benign.
Context {A B : Type}.

Lemma benign_ret (a : A) : benign (mret a).
Proof. done. Qed.

Lemma benign_throw (e : js_error) : benign (throw (A:=A) e).
Proof. done. Qed.

Lemma benign_bind (m : M A) (f : A → M B) :
  benign m → (∀ a, benign (f a)) → benign (m ≫= f).
Proof.
  intros Hm Hf w. unfold mbind, M_bind. specialize (Hm w).
  destruct (m w) as [[a|e|s] w1]; cbn in *; [|done..].
  by rewrite Hf.
Qed.

Lemma benign_try_catch (m : M A) (f : js_error → M A) :
  benign m → (∀ e, benign (f e)) → benign (try_catch m f).
Proof.
  intros Hm Hf w. unfold try_catch. specialize (Hm w).
  destruct (m w) as [[a|e|s] w1]; cbn in *; [done| |done].
  by rewrite Hf.
Qed.
End Benign.

Lemma touched_app evs w : touched (with_events evs w) = touched w ++ flat_map uses evs.
Proof. unfold touched. cbn. apply flat_map_app. Qed.

Lemma benign_emit e : uses e = [] → benign (emit e).
Proof.
  intros He w. rewrite emit_run. cbn [snd]. unfold abs. rewrite touched_app.
  cbn [flat_map]. rewrite He. cbn [app]. by rewrite app_nil_r.
Qed.

Lemma benign_log lg lvl fields msg : benign (log lg lvl fields msg).
Proof. by apply benign_emit. Qed.

Lemma benign_get_world : benign get_world.
Proof. done. Qed.

Lemma benign_Date_now P : benign (Date_now P).
Proof.
  intros w. unfold abs, touched. cbn. rewrite flat_map_app. cbn. by rewrite app_nil_r.
Qed.

Lemma lifecycles_sent res (rs : gmap nat response) :
  lifecycle <$> alter sent res rs = lifecycle <$> rs.
Proof.
  apply map_eq. intros i. rewrite !lookup_fmap.
  destruct (decide (res = i)) as [->|Hne].
  - rewrite lookup_alter_eq. by destruct (rs !! i).
  - by rewrite lookup_alter_ne.
Qed.

Lemma benign_sent res : benign (modify (set_responses (alter sent res))).
Proof. intros w. unfold abs, lifecycles. cbn. by rewrite lifecycles_sent. Qed.

Create HintDb benign.

#[local] Hint Resolve benign_ret benign_throw benign_log benign_get_world benign_Date_now
  benign_sent : benign.

Ltac benign_step :=
  first
    [ apply benign_bind; [|intros ?]
    | apply benign_try_catch; [|intros ?]
    | apply benign_emit; reflexivity
    | solve [auto with benign]
    | match goal with
      | |- benign (match ?x with _ => _ end) => destruct x
      end ].

Ltac benign_auto := repeat benign_step.

Lemma benign_res_json res payload : benign (res_json res payload).
Proof. unfold res_json. benign_auto. Qed.

Lemma benign_res_status res status : benign (res_status res status).
Proof. unfold res_status. benign_auto. Qed.

Lemma benign_sdk_send res payload : benign (sdk_send res payload).
Proof. unfold sdk_send. benign_auto. Qed.

Lemma benign_getCalDavClient : benign getCalDavClient.
Proof. unfold getCalDavClient, this. benign_auto. Qed.

Lemma benign_getCardDavClient : benign getCardDavClient.
Proof. unfold getCardDavClient, this. benign_auto. Qed.

#[local] Hint Resolve benign_res_json benign_res_status benign_sdk_send
  benign_getCalDavClient benign_getCardDavClient : benign.

Lemma benign_access_session ops : benign (access_session ops).
Proof. induction ops as [|[] ops IH]; cbn [access_session]; benign_auto. Qed.

#[local] Hint Resolve benign_access_session : benign.

Lemma benign_invoke t args : benign (invoke t args).
Proof. unfold invoke. benign_auto. Qed.

#[local] Hint Resolve benign_invoke : benign.

Lemma benign_list_tools_http P requestId : benign (list_tools_http P requestId).
Proof. unfold list_tools_http, registry_map. benign_auto. Qed.

Lemma benign_call_tool_http P requestId request : benign (call_tool_http P requestId request).
Proof.
  unfold call_tool_http, registry_find, logToolCallStart, logToolCallSuccess,
    logToolCallError.
  benign_auto.
Qed.

Lemma benign_post_mcp_catch res requestId error : benign (post_mcp_catch res requestId error).
Proof. unfold post_mcp_catch, res_headersSent. benign_auto. Qed.

Lemma benign_get_route res : benign (get_route res).
Proof. unfold get_route. benign_auto. Qed.

#[local] Hint Resolve benign_list_tools_http benign_call_tool_http benign_post_mcp_catch
  benign_get_route : benign.

(** Dispatching a request to a protocol handler leaves the instances and
    their life cycle alone. *)
Lemma benign_sdk_dispatch P res r : benign (sdk_dispatch P res r).
Proof. unfold sdk_dispatch. benign_auto. Qed.

(** *** The steps of the binding *)
Section Advances.
Implicit Types (h : gmap nat object) (ls : gmap nat (list (nat * nat) * bool * phase)).
Implicit Types (us : list (nat * nat)).

Lemma advances_refl x : advances x x.
Proof. split; [done|]. intros res l c p H. by exists l, c, p. Qed.

Lemma advances_trans x y z : advances x y → advances y z → advances x z.
Proof.
  intros [H1 M1] [H2 M2]. split; [auto|].
  intros res l c p H. destruct (M1 res l c p H) as (l' & c' & p' & H' & Hc).
  destruct (M2 res l' c' p' H') as (l'' & c'' & p'' & H'' & Hc').
  exists l'', c'', p''. auto.
Qed.

Lemma advances_update h h' ls us us' res v v' :
  ls !! res = Some v → (v.1.2 = true → v'.1.2 = true) →
  (instances_ok h ls us → instances_ok h' (<[res := v']> ls) us') →
  advances (h, ls, us) (h', <[res := v']> ls, us').
Proof.
  intros Hres Hc Hok. split; [done|]. cbn. intros res0 l c p H.
  destruct (decide (res = res0)) as [->|Hne].
  - rewrite lookup_insert_eq. destruct v' as [[l' c'] p']. exists l', c', p'.
    split; [done|]. simplify_eq. done.
  - rewrite lookup_insert_ne by done. by exists l, c, p.
Qed.

Lemma advances_new h ls us res :
  ls !! res = None → advances (h, ls, us) (h, <[res := ([], false, NotRouted)]> ls, us).
Proof.
  intros Hres. split; cbn.
  - intros H. by apply instances_ok_new.
  - intros res0 l c p H. exists l, c, p. split; [|done].
    rewrite lookup_insert_ne; [done|]. congruence.
Qed.
End Advances.

(** The gate either answers the request itself or hands it on after the
    comparison of the two buffers. *)
Lemma gate_cases P res req next w :
  (∃ evs, authenticateBearer P res req next w = (Normal (), answered res evs w)
          ∧ Forall (λ e, chain_event e = false) evs)
  ∨ (authorized P req
     ∧ ∃ a b, authenticateBearer P res req next w
              = next (with_events [EvTimingSafeEqual a b] w)).
Proof.
  destruct (truthy (env P "BEARER_TOKEN")) eqn:Hs.
  2:{ left. eexists. split; [by apply gate_misconfigured|]. by repeat constructor. }
  destruct (env P "BEARER_TOKEN") as [secret|] eqn:He; [|discriminate].
  assert (secret ≠ []) as Hne by (by destruct secret).
  destruct (authorization req) as [h|] eqn:Ha.
  2:{ left. eexists. split; [apply gate_no_bearer; [by rewrite He|]|by repeat constructor].
      left. by rewrite Ha. }
  destruct (startsWith h (lit "Bearer ")) eqn:Hb.
  2:{ left. eexists. split; [apply gate_no_bearer; [by rewrite He|]|by repeat constructor].
      right. exists h. by rewrite Ha. }
  destruct (decide (length (Buffer_from (substring h 7)) = length (Buffer_from secret)))
    as [Hlen|Hlen].
  2:{ left. eexists. split; [by apply (gate_wrong_length _ _ _ _ _ secret h)|].
      by repeat constructor. }
  destruct (decide (Buffer_from (substring h 7) = Buffer_from secret)) as [Heq|Heq].
  2:{ left. eexists. split; [by apply (gate_wrong_content _ _ _ _ _ secret h)|].
      by repeat constructor. }
  right. split; [by exists secret, h|]. eexists _, _.
  by apply (gate_passes _ _ _ _ _ secret h).
Qed.

Lemma lifecycles_routed p res (rs : gmap nat response) :
  lifecycle <$> alter (routed p) res rs = alter (rerouted p) res (lifecycle <$> rs).
Proof. by apply fmap_alter. Qed.

Lemma lifecycles_listening t s res (rs : gmap nat response) :
  lifecycle <$> alter (listening t s) res rs = alter (listened t s) res (lifecycle <$> rs).
Proof. by apply fmap_alter. Qed.

Lemma lifecycles_ended res (rs : gmap nat response) :
  lifecycle <$> alter ended res rs = alter shut res (lifecycle <$> rs).
Proof. by apply fmap_alter. Qed.

(** The synchronous part of the route handler always completes: the
    [catch] block is not reached before the first [await]. *)
Lemma post_mcp_run P res req w : post_mcp P res req w = (Normal (), served P res w).
Proof.
  unfold post_mcp, crypto_randomUUID, createMCPServer, res_on_close, set_route, alloc.
  unfold try_catch, mbind, M_bind, mret, M_ret, emit, modify.
  cbn -[fresh insert dom alter].
  f_equal. unfold served. apply world_ext; cbn -[fresh insert dom alter]; try reflexivity.
  by rewrite <- !app_assoc.
Qed.

Lemma abs_served P res w :
  abs (served P res w)
  = let t := fresh (dom (heap w)) in
    let s := fresh (dom (<[t := OTransport res false]> (heap w))) in
    (<[s := OServer res (uuid_source P (uuidCalls w)) false]>
       (<[t := OTransport res false]> (heap w)),
     alter (rerouted (AwaitConnect (uuid_source P (uuidCalls w)) t s)) res
       (alter (listened t s) res (lifecycles w)),
     touched w ++ [(t, res); (s, res); (s, res); (t, res)]).
Proof.
  unfold abs, lifecycles, touched, served. cbn -[fresh insert dom alter].
  rewrite lifecycles_routed, lifecycles_listening, flat_map_app. reflexivity.
Qed.

Lemma abs_set_route res p w :
  abs (set_route res p w).2 = (heap w, alter (rerouted p) res (lifecycles w), touched w).
Proof. unfold abs, lifecycles. cbn. by rewrite lifecycles_routed. Qed.

Lemma run_close_listeners_run res ls w :
  run_close_listeners res ls w
  = (Normal (),
     with_events (closing res ls) (set_heap (close_all (addresses ls)) w)).
Proof.
  revert w. induction ls as [|[t s] ls IH]; intros w.
  - cbn. unfold mret, M_ret. f_equal. destruct w. unfold with_events, set_trace, set_heap.
    cbn. by rewrite app_nil_r.
  - cbn [run_close_listeners]. unfold close at 1 2.
    unfold mbind, M_bind, emit, modify. rewrite IH. f_equal.
    unfold with_events, set_trace, set_heap, closing. cbn -[alter].
    f_equal. by rewrite <- !app_assoc.
Qed.

Lemma touched_closing res ls : flat_map uses (closing res ls) = map (λ a, (a, res)) (addresses ls).
Proof.
  induction ls as [|[t s] ls IH]; [done|].
  unfold closing, addresses in *. cbn. by rewrite IH.
Qed.

Section Transitions.
Implicit Types (h : gmap nat object) (ls : gmap nat (list (nat * nat) * bool * phase)).
Implicit Types (us : list (nat * nat)).

Lemma advances_reroute h ls us res p' extra :
  (∀ l c p, ls !! res = Some (l, c, p) →
     (∀ ts, In ts (route_pair p') → In ts (route_pair p))
     ∧ (∀ a r, In (a, r) extra →
          r = res ∧ ∃ t s, In (t, s) (route_pair p) ∧ (a = t ∨ a = s))) →
  (ls !! res = None → extra = []) →
  advances (h, ls, us) (h, alter (rerouted p') res ls, us ++ extra).
Proof.
  intros Hsome Hnone. rewrite alter_alt.
  destruct (ls !! res) as [[[l c] p]|] eqn:Hres.
  - destruct (Hsome l c p eq_refl) as [Hp Hx].
    apply (advances_update _ _ _ _ _ _ (l, c, p)); [done..|].
    intros Hok. by apply (instances_ok_route _ _ _ _ _ _ p).
  - rewrite Hnone by done. rewrite app_nil_r. apply advances_refl.
Qed.

Lemma advances_finish h ls us res p' :
  route_pair p' = [] → advances (h, ls, us) (h, alter (rerouted p') res ls, us).
Proof.
  intros Hp. pose proof (advances_reroute h ls us res p' []) as H.
  rewrite app_nil_r in H. apply H; [|done].
  intros l c p _. rewrite Hp. split; [by intros ts []|by intros a r []].
Qed.

Lemma advances_serve h ls us res p0 t s requestId :
  ls !! res = Some ([], false, p0) → h !! t = None → s ≠ t → h !! s = None →
  advances (h, ls, us)
    (<[s := OServer res requestId false]> (<[t := OTransport res false]> h),
     alter (rerouted (AwaitConnect requestId t s)) res (alter (listened t s) res ls),
     us ++ [(t, res); (s, res); (s, res); (t, res)]).
Proof.
  intros Hres Ht Hst Hs.
  rewrite (alter_alt_Some (listened t s) _ _ _ Hres).
  rewrite (alter_alt_Some _ _ _ (listened t s ([], false, p0))) by apply lookup_insert_eq.
  rewrite insert_insert_eq. cbn.
  apply (advances_update _ _ _ _ _ _ ([], false, p0)); [done..|].
  intros Hok. by apply (instances_ok_serve _ _ _ _ p0).
Qed.

Lemma advances_close h ls us res l p :
  ls !! res = Some (l, false, p) →
  advances (h, ls, us)
    (close_all (addresses l) h, alter shut res ls,
     us ++ map (λ a, (a, res)) (addresses l)).
Proof.
  intros Hres. rewrite (alter_alt_Some _ _ _ _ Hres). cbn.
  apply (advances_update _ _ _ _ _ _ (l, false, p)); [done..|].
  intros Hok. by apply instances_ok_close.
Qed.
End Transitions.

Lemma abs_benign {A} (m : M A) w : benign m → abs (m w).2 = abs w.
Proof. intros H. apply H. Qed.

Lemma lifecycles_lookup w res :
  lifecycles w !! res = lifecycle <$> responses w !! res.
Proof. unfold lifecycles. by rewrite lookup_fmap. Qed.

Lemma abs_answered res evs w :
  Forall (λ e, chain_event e = false) evs → abs (answered res evs w) = abs w.
Proof.
  intros Hevs. unfold abs, answered, lifecycles, touched. cbn.
  rewrite lifecycles_sent, flat_map_app.
  replace (flat_map uses evs) with (@nil (nat * nat)); [by rewrite app_nil_r|].
  induction Hevs as [|e evs He _ IH]; [done|]. cbn. rewrite <- IH.
  by destruct e.
Qed.

(** Each input of the event loop takes the instances from one state to a
    later one. *)
Lemma arrive_advances P req w : advances (abs w) (abs (arrive P req w).2).
Proof.
  unfold arrive, app_post_mcp.
  set (res := fresh (dom (responses w))).
  set (w1 := set_responses (insert res new_response) w).
  assert (Hfresh : lifecycles w !! res = None).
  { rewrite lifecycles_lookup.
    rewrite (proj1 (not_elem_of_dom (responses w) res)); [done|]. apply is_fresh. }
  assert (H1 : advances (abs w) (abs w1)).
  { unfold abs, w1, lifecycles. cbn. rewrite fmap_insert. by apply advances_new. }
  eapply advances_trans; [exact H1|].
  destruct (gate_cases P res req (post_mcp P res req) w1) as [(evs & -> & Hevs)|(_ & a & b & ->)].
  - cbn. rewrite abs_answered by done. apply advances_refl.
  - rewrite post_mcp_run. cbn [snd]. rewrite abs_served. cbn zeta.
    set (w2 := with_events [EvTimingSafeEqual a b] w1).
    assert (Hh : heap w2 = heap w1) by reflexivity.
    assert (Hl : lifecycles w2 = lifecycles w1) by reflexivity.
    assert (Ht : touched w2 = touched w1).
    { unfold w2. rewrite touched_app. cbn. by rewrite app_nil_r. }
    rewrite Hh, Hl, Ht. unfold abs.
    eapply advances_serve.
    + unfold w1, lifecycles. cbn. rewrite fmap_insert. apply lookup_insert_eq.
    + apply fresh_None.
    + apply fresh_insert_ne.
    + apply fresh_insert_None.
Qed.

Lemma connect_settled_advances res outcome w :
  advances (abs w) (abs (connect_settled res outcome w).2).
Proof.
  unfold connect_settled, get_route.
  unfold mbind at 1, M_bind at 1. unfold mbind at 1, M_bind at 1.
  unfold get_world at 1, mret at 1, M_ret at 1.
  destruct (responses w !! res) as [r|] eqn:Hres; cbn [from_option];
    [|apply advances_refl].
  destruct (route r) as [|requestId t s|requestId t s|] eqn:Hroute; try apply advances_refl.
  destruct outcome as [error|].
  - unfold mbind, M_bind.
    pose proof (abs_benign (post_mcp_catch res requestId error) w
                  (benign_post_mcp_catch _ _ _)) as Hb.
    destruct (post_mcp_catch res requestId error w) as [[[]|e|st] w2]; cbn [snd] in *;
      rewrite <- ?Hb; try apply advances_refl.
    rewrite abs_set_route. unfold abs. by apply advances_finish.
  - unfold mbind, M_bind. rewrite emit_run. rewrite abs_set_route.
    set (w2 := with_events [EvHandleRequest res t] w).
    assert (Hh : heap w2 = heap w) by reflexivity.
    assert (Hl : lifecycles w2 = lifecycles w) by reflexivity.
    assert (Ht : touched w2 = touched w ++ [(t, res)]) by apply touched_app.
    rewrite Hh, Hl, Ht. unfold abs. clear Hh Hl Ht.
    apply advances_reroute.
    + intros l c p Hl. rewrite lifecycles_lookup, Hres in Hl. cbn in Hl.
      unfold lifecycle in Hl. simplify_eq. rewrite Hroute. cbn. split; [done|].
      intros a r0 [Heq|[]]. simplify_eq. split; [done|]. exists a, s. tauto.
    + rewrite lifecycles_lookup, Hres. done.
Qed.

Lemma handleRequest_settled_advances res outcome w :
  advances (abs w) (abs (handleRequest_settled res outcome w).2).
Proof.
  unfold handleRequest_settled, get_route.
  unfold mbind at 1, M_bind at 1. unfold mbind at 1, M_bind at 1.
  unfold get_world at 1, mret at 1, M_ret at 1.
  destruct (responses w !! res) as [r|] eqn:Hres; cbn [from_option];
    [|apply advances_refl].
  destruct (route r) as [|requestId t s|requestId t s|] eqn:Hroute; try apply advances_refl.
  destruct outcome as [error|].
  - unfold mbind, M_bind.
    pose proof (abs_benign (post_mcp_catch res requestId error) w
                  (benign_post_mcp_catch _ _ _)) as Hb.
    destruct (post_mcp_catch res requestId error w) as [[[]|e|st] w2]; cbn [snd] in *;
      rewrite <- ?Hb; try apply advances_refl.
    rewrite abs_set_route. unfold abs. by apply advances_finish.
  - rewrite abs_set_route. unfold abs. by apply advances_finish.
Qed.

Lemma res_close_run res w :
  res_close res w
  = match responses w !! res with
    | Some r =>
        if closed r then (Normal (), w)
        else (Normal (),
              with_events (closing res (closeListeners r))
                (set_heap (close_all (addresses (closeListeners r)))
                   (set_responses (alter ended res) w)))
    | None => (Normal (), w)
    end.
Proof.
  unfold res_close. unfold mbind at 1, M_bind at 1, get_world at 1.
  destruct (responses w !! res) as [r|]; [|done].
  destruct (closed r); [done|].
  unfold mbind, M_bind, modify. by rewrite run_close_listeners_run.
Qed.

Lemma res_close_advances res w : advances (abs w) (abs (res_close res w).2).
Proof.
  rewrite res_close_run.
  destruct (responses w !! res) as [r|] eqn:Hres; [|apply advances_refl].
  destruct (closed r) eqn:Hc; [apply advances_refl|].
  cbn [snd]. unfold abs. rewrite touched_app, touched_closing.
  change (touched (set_heap _ (set_responses _ w))) with (touched w).
  change (heap (with_events _ (set_heap ?f (set_responses _ w)))) with (f (heap w)).
  change (lifecycles (with_events _ (set_heap _ (set_responses ?g w))))
    with (lifecycle <$> g (responses w)).
  rewrite lifecycles_ended. fold (lifecycles w).
  apply (advances_close _ _ _ _ _ (route r)).
  rewrite lifecycles_lookup, Hres. cbn. unfold lifecycle. by rewrite Hc.
Qed.

Lemma step_advances P i w : advances (abs w) (abs (step P i w)).
Proof.
  destruct i; cbn [step].
  - apply arrive_advances.
  - apply connect_settled_advances.
  - rewrite abs_benign by apply benign_sdk_dispatch. apply advances_refl.
  - apply handleRequest_settled_advances.
  - apply res_close_advances.
Qed.

Lemma run_advances P inputs w : advances (abs w) (abs (run P inputs w)).
Proof.
  revert w. induction inputs as [|i inputs IH]; intros w; [apply advances_refl|].
  cbn. eapply advances_trans; [apply step_advances|apply IH].
Qed.

(** No instance exists before the first request. *)
Lemma Inv_initial : Inv initial_world.
Proof.
  split; cbn.
  - intros a o res H. by rewrite lookup_empty in H.
  - intros res l c p t s H. unfold lifecycles in H. cbn in H.
    by rewrite fmap_empty, lookup_empty in H.
  - intros res l c p ts H. unfold lifecycles in H. cbn in H.
    by rewrite fmap_empty, lookup_empty in H.
  - intros a res [].
Qed.

Lemma run_app P xs ys w : run P (xs ++ ys) w = run P ys (run P xs w).
Proof. apply foldl_app. Qed.

Lemma run_cons P i inputs w : run P (i :: inputs) w = run P inputs (step P i w).
Proof. reflexivity. Qed.

(** A request the gate lets through reaches the route handler. *)
Lemma arrive_authorized P req w :
  authorized P req →
  ∃ a b, (arrive P req w).2
         = served P (next_res w)
             (with_events [EvTimingSafeEqual a b]
                (set_responses (insert (next_res w) new_response) w)).
Proof.
  intros (secret & h & He & Hne & Ha & Hb & Heq). unfold arrive, app_post_mcp.
  fold (next_res w).
  rewrite (gate_passes _ _ _ _ _ secret h) by done. rewrite post_mcp_run.
  by eexists _, _.
Qed.


(** C4, as the code has it. A [POST /mcp] request that the gate lets
    through gets a transport and a server of its own: two new objects,
    constructed for the response of this request, the pair its close
    listener holds. When a response closes, every transport and server
    constructed for it is closed, and stays closed whatever happens next.
    An instance is only ever touched (connected, handed the request,
    closed) on behalf of the one response it was constructed for. A
    request the gate turns away constructs and touches no instance. *)
Theorem stateless_instances P :
  (∀ w req, authorized P req →
     ∃ transport server requestId,
       transport ≠ server
       ∧ heap w !! transport = None ∧ heap w !! server = None
       ∧ responses w !! next_res w = None
       ∧ heap (step P (Arrive req) w)
         = <[server := OServer (next_res w) requestId false]>
             (<[transport := OTransport (next_res w) false]> (heap w))
       ∧ lifecycles (step P (Arrive req) w) !! next_res w
         = Some ([(transport, server)], false, AwaitConnect requestId transport server))
  ∧ (∀ inputs res more,
       is_Some (responses (run P inputs initial_world) !! res) →
       ∀ a o, heap (run P (inputs ++ ResClose res :: more) initial_world) !! a = Some o →
              constructed_for res o = true → is_closed o = true)
  ∧ (∀ inputs a r1 r2,
       In (a, r1) (touched (run P inputs initial_world)) →
       In (a, r2) (touched (run P inputs initial_world)) → r1 = r2)
  ∧ (∀ w req, ¬ authorized P req →
       heap (step P (Arrive req) w) = heap w
       ∧ touched (step P (Arrive req) w) = touched w).
Proof.
  repeat apply conj.
  - intros w req Hauth. cbn [step].
    destruct (arrive_authorized P req w Hauth) as (a & b & ->).
    exists (fresh (dom (heap w))),
      (fresh (dom (<[fresh (dom (heap w)) := OTransport (next_res w) false]> (heap w)))),
      (uuid_source P (uuidCalls w)).
    repeat apply conj.
    + intros Heq. symmetry in Heq. by apply fresh_insert_ne in Heq.
    + apply fresh_None.
    + apply fresh_insert_None.
    + apply fresh_None.
    + reflexivity.
    + rewrite lifecycles_lookup. unfold served. cbn -[fresh insert dom alter].
      rewrite !lookup_alter_eq, lookup_insert_eq. reflexivity.
  - intros inputs res more [r Hres] a o Ha Hc.
    rewrite run_app, run_cons in Ha.
    assert (Hinv0 : Inv (run P inputs initial_world)).
    { apply (run_advances P inputs initial_world), Inv_initial. }
    generalize dependent (run P inputs initial_world). intros w0 Hres Ha Hinv0.
    assert (Hinv : Inv (run P more (step P (ResClose res) w0))).
    { by apply (run_advances P more _), (step_advances P (ResClose res) w0). }
    set (w1 := step P (ResClose res) w0) in *.
    assert (H1 : lifecycles w1 !! res = Some (closeListeners r, true, route r)).
    { unfold w1. change (step P (ResClose res) w0) with (res_close res w0).2.
      rewrite res_close_run, Hres.
      destruct (closed r) eqn:Hcl; cbn [snd]; rewrite lifecycles_lookup.
      - rewrite Hres. cbn. unfold lifecycle. by rewrite Hcl.
      - cbn -[alter]. rewrite lookup_alter_eq, Hres. reflexivity. }
    destruct (proj2 (run_advances P more w1) res _ true _ H1) as (l' & c' & p' & H2 & Hc').
    destruct (ok_owner _ _ _ Hinv a o res Ha Hc) as (l2 & c2 & p2 & H3 & Hclosed & _).
    change (lifecycles (run P more w1) !! res = Some (l', c', p')) in H2.
    rewrite H2 in H3. simplify_eq. auto.
  - intros inputs a r1 r2 H1 H2.
    assert (Hinv : Inv (run P inputs initial_world)).
    { apply (run_advances P inputs initial_world), Inv_initial. }
    destruct (ok_uses _ _ _ Hinv a r1 H1) as (o1 & Ho1 & Hc1).
    destruct (ok_uses _ _ _ Hinv a r2 H2) as (o2 & Ho2 & Hc2).
    rewrite Ho1 in Ho2. simplify_eq. by eapply constructed_for_inj.
  - intros w req Hno. cbn [step]. unfold arrive, app_post_mcp.
    destruct (gate_cases P (fresh (dom (responses w))) req
                (post_mcp P (fresh (dom (responses w))) req)
                (set_responses (insert (fresh (dom (responses w))) new_response) w))
      as [(evs & -> & Hevs)|(Hauth & _)]; [|done].
    cbn [snd]. pose proof (abs_answered (fresh (dom (responses w))) evs
                 (set_responses (insert (fresh (dom (responses w))) new_response) w) Hevs)
      as Habs.
    unfold abs in Habs. by simplify_eq.
Qed.

Lemma bearer_authorized : authorized http_platform (bearer "s3cret").
Proof.
  exists (lit "s3cret"), (lit "Bearer s3cret").
  repeat split; try reflexivity. discriminate.
Defined.

Lemma stateless_instances_witness :
  (∃ transport server requestId,
     transport ≠ server
     ∧ heap initial_world !! transport = None ∧ heap initial_world !! server = None
     ∧ responses initial_world !! next_res initial_world = None
     ∧ heap (step http_platform (Arrive (bearer "s3cret")) initial_world)
       = <[server := OServer (next_res initial_world) requestId false]>
           (<[transport := OTransport (next_res initial_world) false]> (heap initial_world))
     ∧ lifecycles (step http_platform (Arrive (bearer "s3cret")) initial_world)
         !! next_res initial_world
       = Some ([(transport, server)], false, AwaitConnect requestId transport server))
  ∧ (∀ a o,
       heap (run http_platform ([Arrive (bearer "s3cret")] ++ ResClose 0 :: []) initial_world)
         !! a = Some o →
       constructed_for 0 o = true → is_closed o = true).
Proof.
  split.
  - apply (proj1 (stateless_instances http_platform) initial_world (bearer "s3cret")).
    exact bearer_authorized.
  - apply (proj1 (proj2 (stateless_instances http_platform))
             [Arrive (bearer "s3cret")] 0%nat []).
    vm_compute. eexists. reflexivity.
Defined.

(** C4 as stated fails for a request the gate turns away: the request
    is answered 401 and neither a transport nor a server is constructed. *)
Lemma stateless_instances_counterexample :
  heap (step http_platform (Arrive anonymous) initial_world) = ∅
  ∧ Forall (λ e, is_new e = false) (trace (step http_platform (Arrive anonymous) initial_world))
  ∧ In (EvStatus 0 401) (trace (step http_platform (Arrive anonymous) initial_world)).
Proof.
  split; [reflexivity|split].
  - vm_compute. repeat constructor.
  - vm_compute. tauto.
Qed.

(** * Further properties of the code *)

(** ** The authentication gate, continued *)

Lemma startsWith_split h p : startsWith h p = true → h = p ++ drop (length p) h.
Proof.
  revert h. induction p as [|c p IH]; intros h H; [done|].
  destruct h as [|d h]; [discriminate|]. cbn in H.
  apply andb_true_iff in H as [Hc Hp]. apply N.eqb_eq in Hc as ->.
  cbn. f_equal. by apply IH.
Qed.

(** A latin1 string is encoded unit by unit. *)
Lemma utf8_encode_app_latin1 a b :
  latin1 a → utf8_encode (a ++ b) = utf8_encode a ++ utf8_encode b.
Proof.
  induction 1 as [|u a Hu _ IH]; [done|]. cbn [app utf8_encode].
  destruct (N.ltb_spec u 128); [by rewrite IH|].
  destruct (N.ltb_spec u 2048); [|lia]. by rewrite IH.
Qed.

Lemma latin1_app a b : latin1 (a ++ b) ↔ latin1 a ∧ latin1 b.
Proof. apply Forall_app. Qed.

(** The runs of the gate with what each leaves in the trace: a rejection,
    after the comparison when the two buffers have the same length, or
    the rest of the chain after the comparison of two equal buffers. *)
Lemma gate_runs P res req next w :
  (∃ pre lvl fields status c msg,
     authenticateBearer P res req next w
     = (Normal (), answered res (pre ++ rejection res lvl fields status c msg) w)
     ∧ (pre = [] ∨ ∃ a b, pre = [EvTimingSafeEqual a b] ∧ length a = length b))
  ∨ (∃ secret,
       env P "BEARER_TOKEN" = Some secret ∧ authorized P req
       ∧ authenticateBearer P res req next w
         = next (with_events [EvTimingSafeEqual (Buffer_from secret) (Buffer_from secret)] w)).
Proof.
  destruct (truthy (env P "BEARER_TOKEN")) eqn:Hs.
  2:{ left. exists []. eexists _, _, _, _, _. split; [by apply gate_misconfigured|by left]. }
  destruct (env P "BEARER_TOKEN") as [secret|] eqn:He; [|discriminate].
  assert (secret ≠ []) as Hne by (by destruct secret).
  destruct (authorization req) as [h|] eqn:Ha.
  2:{ left. exists []. eexists _, _, _, _, _.
      split; [apply gate_no_bearer; [by rewrite He|]|by left]. left. by rewrite Ha. }
  destruct (startsWith h (lit "Bearer ")) eqn:Hb.
  2:{ left. exists []. eexists _, _, _, _, _.
      split; [apply gate_no_bearer; [by rewrite He|]|by left]. right. exists h. by rewrite Ha. }
  destruct (decide (length (Buffer_from (substring h 7)) = length (Buffer_from secret)))
    as [Hlen|Hlen].
  2:{ left. exists []. eexists _, _, _, _, _.
      split; [by apply (gate_wrong_length _ _ _ _ _ secret h)|by left]. }
  destruct (decide (Buffer_from (substring h 7) = Buffer_from secret)) as [Heq|Heq].
  2:{ left. eexists [_]. eexists _, _, _, _, _.
      split; [by apply (gate_wrong_content _ _ _ _ _ secret h)|].
      right. by eexists _, _. }
  right. exists secret. split; [done|]. split; [by exists secret, h|].
  by apply (gate_passes _ _ _ _ _ secret h).
Qed.

(** X1. A request whose [Authorization] header is [Bearer ] followed by
    the configured secret is let through: the gate hands it to the rest of
    the chain, and all it has done by then is the comparison of the two
    buffers. It has logged nothing, set no status and written no body, and
    whatever the rest of the chain does, returns or throws is the outcome
    of the gate. *)
Theorem gate_lets_through P res req next w secret :
  env P "BEARER_TOKEN" = Some secret → secret ≠ [] →
  authorization req = Some (lit "Bearer " ++ secret) →
  authenticateBearer P res req next w
  = next (with_events [EvTimingSafeEqual (Buffer_from secret) (Buffer_from secret)] w).
Proof.
  intros He Hs Ha.
  by apply (gate_passes _ _ _ _ _ secret (lit "Bearer " ++ secret)).
Qed.

Lemma gate_lets_through_witness :
  authenticateBearer http_platform 0 (bearer "s3cret") (throw (sample_error "next"))
    initial_world
  = (Throw (sample_error "next"),
     with_events [EvTimingSafeEqual (lit "s3cret") (lit "s3cret")] initial_world).
Proof.
  apply (gate_lets_through http_platform 0 (bearer "s3cret") (throw (sample_error "next"))
           initial_world (lit "s3cret")).
  - reflexivity.
  - discriminate.
  - reflexivity.
Defined.

(** X2. A secret with a character outside latin1 locks everybody out.
    Header values reach the program as latin1 strings, and the bytes of a
    latin1 string are never those of a string with a code unit above 255:
    with such a [BEARER_TOKEN] every request is answered 401 by the gate. *)
Theorem non_latin1_secret_rejects_all P res req next w secret :
  env P "BEARER_TOKEN" = Some secret → ¬ latin1 secret →
  (∀ h, authorization req = Some h → latin1 h) →
  ∃ evs, stops (authenticateBearer P res req next) w res evs ∧ EvStatus res 401 ∈ evs.
Proof.
  intros He Hnl Hh.
  assert (secret ≠ []) as Hne by (intros ->; apply Hnl; constructor).
  assert (truthy (env P "BEARER_TOKEN") = true) as Hs by (rewrite He; by destruct secret).
  destruct (authorization req) as [h|] eqn:Ha.
  2:{ eexists. split; [split; [apply gate_no_bearer; [done|]|by repeat constructor]|].
      - left. by rewrite Ha.
      - unfold rejection. set_solver. }
  destruct (startsWith h (lit "Bearer ")) eqn:Hb.
  2:{ eexists. split; [split; [apply gate_no_bearer; [done|]|by repeat constructor]|].
      - right. exists h. by rewrite Ha.
      - unfold rejection. set_solver. }
  assert (Buffer_from (substring h 7) ≠ Buffer_from secret) as Hbuf.
  { intros Heq. apply Hnl. apply utf8_encode_latin1_inj in Heq as <-;
      apply latin1_substring; by apply Hh. }
  destruct (decide (length (Buffer_from (substring h 7)) = length (Buffer_from secret)))
    as [Hlen|Hlen].
  - eexists. split; [split; [by apply (gate_wrong_content _ _ _ _ _ secret h)|
                             by repeat constructor]|].
    unfold rejection. set_solver.
  - eexists. split; [split; [by apply (gate_wrong_length _ _ _ _ _ secret h)|
                             by repeat constructor]|].
    unfold rejection. set_solver.
Qed.

Lemma non_latin1_secret_rejects_all_witness :
  ∃ evs, stops (authenticateBearer euro_platform 0 (bearer "s3cret")
                  (throw (sample_error "next"))) initial_world 0 evs
         ∧ EvStatus 0 401 ∈ evs.
Proof.
  apply (non_latin1_secret_rejects_all euro_platform 0 (bearer "s3cret")
           (throw (sample_error "next")) initial_world (lit "s3cret" ++ [8364])).
  - reflexivity.
  - intros H. apply latin1_app in H as [_ H]. inversion_clear H. lia.
  - intros h [= <-]. unfold latin1. vm_compute. repeat constructor.
Defined.

(** X3. The comparison inside the gate cannot fail. The gate calls
    [crypto.timingSafeEqual] on buffers of the same length only, so its
    [RangeError] is never raised; an exception or a process exit that
    leaves the gate comes from the rest of the chain. *)
Theorem gate_comparison_is_safe P res req next w :
  (∀ a b, EvTimingSafeEqual a b ∈ events_of (authenticateBearer P res req (mret ())) w →
     length a = length b
     ∧ ∃ c, crypto_timingSafeEqual a b w
            = (Normal c, with_events [EvTimingSafeEqual a b] w))
  ∧ (∀ e, (authenticateBearer P res req next w).1 = Throw e →
       ∃ w', (next w').1 = Throw e)
  ∧ (∀ s, (authenticateBearer P res req next w).1 = Exit s →
       ∃ w', (next w').1 = Exit s).
Proof.
  assert (Hsafe : ∀ a b, length a = length b →
            length a = length b
            ∧ ∃ c, crypto_timingSafeEqual a b w
                   = (Normal c, with_events [EvTimingSafeEqual a b] w)).
  { intros a b Hlen. split; [done|]. rewrite timingSafeEqual_run.
    apply Nat.eqb_eq in Hlen as ->. by eexists. }
  split; [|split].
  - intros a b Hin.
    destruct (gate_runs P res req (mret ()) w)
      as [(pre & lvl & fields & status & c & msg & Hrun & Hpre)|(secret & _ & _ & Hrun)].
    + rewrite (events_of_answered _ _ _ _ _ Hrun) in Hin.
      apply elem_of_app in Hin as [Hin|Hin]; [|unfold rejection in Hin; not_among Hin].
      destruct Hpre as [->|(a' & b' & -> & Hlen)]; [by apply elem_of_nil in Hin|].
      apply list_elem_of_singleton in Hin. injection Hin as -> ->. by apply Hsafe.
    + rewrite (events_of_with_events _ _ (Normal ()) _ Hrun) in Hin.
      apply list_elem_of_singleton in Hin. injection Hin as -> ->. by apply Hsafe.
  - intros e He.
    destruct (gate_runs P res req next w)
      as [(pre & lvl & fields & status & c & msg & Hrun & _)|(secret & _ & _ & Hrun)];
      rewrite Hrun in He; [discriminate|]. by eexists.
  - intros s He.
    destruct (gate_runs P res req next w)
      as [(pre & lvl & fields & status & c & msg & Hrun & _)|(secret & _ & _ & Hrun)];
      rewrite Hrun in He; [discriminate|]. by eexists.
Qed.

Lemma gate_comparison_is_safe_witness :
  length (lit "s3cres") = length (lit "s3cret")
  ∧ ∃ c, crypto_timingSafeEqual (lit "s3cres") (lit "s3cret") initial_world
         = (Normal c, with_events [EvTimingSafeEqual (lit "s3cres") (lit "s3cret")]
                        initial_world).
Proof.
  apply (proj1 (gate_comparison_is_safe http_platform 0 (bearer "s3cres") (mret ())
                  initial_world)).
  apply list_elem_of_In. vm_compute. tauto.
Defined.

(** X4. A token that is a proper prefix of the secret, or of which the
    secret is a proper prefix, is turned away by the length check: the
    gate answers 401 and the comparison of the buffers is not made. The
    empty token is such a prefix of every secret. *)
Theorem prefix_token_rejected P res req next w secret token :
  env P "BEARER_TOKEN" = Some secret → secret ≠ [] →
  authorization req = Some (lit "Bearer " ++ token) → latin1 token →
  token ≠ secret → token `prefix_of` secret ∨ secret `prefix_of` token →
  authenticateBearer P res req next w
  = (Normal (), answered res
       (rejection res LWarn [("ip", opt_val (ip req))] 401 (-32001)
          "Unauthorized: Invalid token") w)
  ∧ ∀ a b, EvTimingSafeEqual a b ∉ events_of (authenticateBearer P res req next) w.
Proof.
  intros He Hs Ha Hl Hne Hpre.
  assert (length (Buffer_from token) ≠ length (Buffer_from secret)) as Hlen.
  { unfold Buffer_from.
    assert (∀ a k, latin1 a → k ≠ [] →
              length (utf8_encode a) ≠ length (utf8_encode (a ++ k))) as Hgrow.
    { intros a k Hla Hk. rewrite utf8_encode_app_latin1, length_app by done.
      pose proof (utf8_encode_nil k) as Hn. destruct (utf8_encode k); [tauto|]. cbn. lia. }
    destruct Hpre as [[k ->]|[k ->]].
    - apply Hgrow; [done|]. intros ->. by rewrite app_nil_r in Hne.
    - apply not_eq_sym, Hgrow.
      + by apply latin1_app in Hl as [Hl _].
      + intros ->. by rewrite app_nil_r in Hne. }
  pose proof (gate_wrong_length P res req next w secret (lit "Bearer " ++ token)
                He Hs Ha (startsWith_app _ _) Hlen) as Hrun.
  split; [exact Hrun|].
  intros a b Hin. rewrite (events_of_answered _ _ _ _ _ Hrun) in Hin.
  unfold rejection in Hin. not_among Hin.
Qed.

Lemma prefix_token_rejected_witness :
  authenticateBearer http_platform 0 (bearer "s3") (throw (sample_error "next")) initial_world
  = (Normal (), answered 0
       (rejection 0 LWarn [("ip", JStr (lit "10.0.0.7"))] 401 (-32001)
          "Unauthorized: Invalid token") initial_world).
Proof.
  apply (prefix_token_rejected http_platform 0 (bearer "s3") (throw (sample_error "next"))
           initial_world (lit "s3cret") (lit "s3")).
  - reflexivity.
  - discriminate.
  - reflexivity.
  - unfold latin1. vm_compute. repeat constructor.
  - discriminate.
  - left. by exists (lit "cret").
Defined.

(** ** The session provider, continued *)

Lemma events_of_trace {A} (m : M A) w evs :
  trace (m w).2 = trace w ++ evs → events_of m w = evs.
Proof. intros H. unfold events_of. rewrite H. apply drop_app_length. Qed.

(** Every run of [initialize]: the world it leaves, and how its outcome
    shows in the last event. *)
Lemma initialize_outcome P cfg w :
  ∃ evs,
    (initialize P cfg w).2
    = (if fields_present cfg then initialized cfg evs w
       else with_events evs (configured cfg w))
    ∧ match (initialize P cfg w).1 with
      | Normal _ => fields_present cfg = true ∧ last evs = Some (success_line cfg)
      | Throw error =>
          last evs = Some (failure_line cfg error)
          ∧ (fields_present cfg = true →
             login_outcome P (calDav_options cfg) = Some error
             ∨ login_outcome P (cardDav_options cfg) = Some error)
      | Exit _ => False
      end.
Proof.
  destruct (fields_present cfg) eqn:Hf.
  - unfold fields_present in Hf. destruct (uses_oauth cfg) eqn:Hmode.
    + rewrite initialize_oauth by done.
      destruct (login_outcome P (calDav_options cfg)) as [e|] eqn:Hcal; eexists;
        (split; [reflexivity|]); cbn [fst]; rewrite last_app; cbn; auto.
    + rewrite initialize_basic by done.
      destruct (login_outcome P (calDav_options cfg)) as [e|] eqn:Hcal;
        [|destruct (login_outcome P (cardDav_options cfg)) as [e|] eqn:Hcard]; eexists;
        (split; [reflexivity|]); cbn [fst]; rewrite last_app; cbn; auto.
  - destruct (initialize_invalid P cfg w Hf) as (e & -> & _).
    eexists. split; [reflexivity|]. cbn. split; [done|]. discriminate.
Qed.

(** X5. An [initialize] that fails at a login leaves its clients behind.
    When the required fields are present and [initialize] throws, the
    error is the one a login gave, and both client fields of the manager
    already hold the clients this call constructed: from then on
    [getCalDavClient] and [getCardDavClient] return them, although the
    initialization failed. *)
Theorem failed_login_leaves_clients P cfg w error :
  fields_present cfg = true → (initialize P cfg w).1 = Throw error →
  let w' := (initialize P cfg w).2 in
  (login_outcome P (calDav_options cfg) = Some error
   ∨ login_outcome P (cardDav_options cfg) = Some error)
  ∧ getCalDavClient w' = (Normal (calDav_addr w), with_events [EvSession GetCalDavClient] w')
  ∧ getCardDavClient w'
    = (Normal (cardDav_addr cfg w), with_events [EvSession GetCardDavClient] w')
  ∧ client_options w' (Some (calDav_addr w)) = Some (calDav_options cfg)
  ∧ client_options w' (Some (cardDav_addr cfg w)) = Some (cardDav_options cfg).
Proof.
  intros Hf Ht. destruct (initialize_outcome P cfg w) as (evs & Hw & Hc).
  rewrite Hf in Hw. rewrite Ht in Hc. destruct Hc as [_ Hc]. cbn zeta. rewrite Hw.
  rewrite getCalDavClient_run, getCardDavClient_run. unfold client_options.
  pose proof (with_clients_calDav cfg (configured cfg w)) as Hcal.
  pose proof (with_clients_cardDav cfg (configured cfg w)) as Hcard.
  change (heap (initialized cfg evs w)) with (heap (with_clients cfg (configured cfg w))).
  change (calDav_addr w) with (calDav_addr (configured cfg w)).
  change (cardDav_addr cfg w) with (cardDav_addr cfg (configured cfg w)).
  rewrite Hcal, Hcard. auto.
Qed.

Lemma failed_login_leaves_clients_witness :
  getCalDavClient (initialize locked_platform basic_complete initial_world).2
  = (Normal (calDav_addr initial_world),
     with_events [EvSession GetCalDavClient]
       (initialize locked_platform basic_complete initial_world).2).
Proof.
  apply (failed_login_leaves_clients locked_platform basic_complete initial_world
           (sample_error "Invalid credentials")); reflexivity.
Defined.

(** X6. A configuration that fails the check of its required fields is stored
    all the same: [initialize] sets [this.config] and [this.authMethod]
    before it validates, so after the throw the manager holds the rejected
    configuration together with the clients it had before, and the heap is
    as it was. *)
Theorem invalid_configuration_is_stored P cfg w :
  fields_present cfg = false →
  let w' := (initialize P cfg w).2 in
  (∃ error, (initialize P cfg w).1 = Throw error)
  ∧ this_config (tsdavManager w') = Some cfg
  ∧ this_authMethod (tsdavManager w') = Some (method_of cfg)
  ∧ this_calDavClient (tsdavManager w') = this_calDavClient (tsdavManager w)
  ∧ this_cardDavClient (tsdavManager w') = this_cardDavClient (tsdavManager w)
  ∧ heap w' = heap w.
Proof.
  intros Hf. destruct (initialize_invalid P cfg w Hf) as (e & He & _).
  cbn zeta. rewrite He. split; [by exists e|]. by repeat split.
Qed.

Lemma invalid_configuration_is_stored_witness :
  this_config (tsdavManager (initialize http_platform basic_without_password serving_world).2)
  = Some basic_without_password
  ∧ this_calDavClient
      (tsdavManager (initialize http_platform basic_without_password serving_world).2)
    = Some 0%nat.
Proof.
  destruct (invalid_configuration_is_stored http_platform basic_without_password
              serving_world eq_refl) as (_ & Hc & _ & Hcal & _).
  split; [exact Hc|exact Hcal].
Defined.

(** X7. [initialize] only adds. Whatever the configuration and the outcome,
    every object that was in the heap is still there unchanged (the
    clients of an earlier initialization are neither removed nor logged
    out), the responses and the counters of the clock and of the request
    ids are untouched, and the trace is extended. *)
Theorem initialize_frame P cfg w :
  let w' := (initialize P cfg w).2 in
  (∀ a o, heap w !! a = Some o → heap w' !! a = Some o)
  ∧ responses w' = responses w
  ∧ dateNowCalls w' = dateNowCalls w
  ∧ uuidCalls w' = uuidCalls w
  ∧ trace w `prefix_of` trace w'.
Proof.
  destruct (initialize_outcome P cfg w) as (evs & Hw & _). cbn zeta. rewrite Hw.
  destruct (fields_present cfg).
  - repeat split; try by exists evs.
    intros a o Ha.
    assert (a ≠ calDav_addr w) as H1.
    { intros ->. unfold calDav_addr in Ha. by rewrite fresh_None in Ha. }
    assert (a ≠ cardDav_addr cfg w) as H2.
    { intros ->. unfold cardDav_addr in Ha. by rewrite fresh_insert_None in Ha. }
    change (heap (initialized cfg evs w))
      with (<[cardDav_addr cfg w := ODavClient (cardDav_options cfg)]>
              (<[calDav_addr w := ODavClient (calDav_options cfg)]> (heap w))).
    by rewrite !lookup_insert_ne by done.
  - repeat split; try done. by exists evs.
Qed.

(** X8. [initialize] never ends the process, and its last act is the log line
    of its outcome: the info line [tsdav clients initialized and logged in]
    when it returns, the error line [Failed to initialize tsdav clients]
    with the message of the very error it rethrows when it throws. *)
Theorem initialize_reports_outcome P cfg w :
  match (initialize P cfg w).1 with
  | Normal _ => last (trace (initialize P cfg w).2) = Some (success_line cfg)
  | Throw error => last (trace (initialize P cfg w).2) = Some (failure_line cfg error)
  | Exit _ => False
  end.
Proof.
  destruct (initialize_outcome P cfg w) as (evs & Hw & Hc). rewrite Hw.
  assert (Ht : trace (if fields_present cfg then initialized cfg evs w
                      else with_events evs (configured cfg w)) = trace w ++ evs).
  { by destruct (fields_present cfg). }
  rewrite Ht, last_app.
  destruct (initialize P cfg w).1 as [[]|e|s]; [| |done].
  - destruct Hc as [_ ->]. done.
  - destruct Hc as [-> _]. done.
Qed.

(** X9. The clients [initialize] constructs. It constructs none when the check
    of the required fields fails and otherwise exactly two, the CalDAV
    client first. Both get the same credentials and the same
    authentication method, which is [Oauth] when the configuration says
    [OAuth] or [Oauth] and [Basic] for every other value; the CalDAV client
    is for [serverUrl], the CardDAV client for [cardDavServerUrl] when that
    is a non-empty string and for [serverUrl] otherwise. *)
Theorem clients_constructed P cfg w :
  filter (λ e, is_new e = true) (events_of (initialize P cfg) w)
  = (if fields_present cfg
     then [EvNew (calDav_addr w) (ODavClient (calDav_options cfg));
           EvNew (cardDav_addr cfg w) (ODavClient (cardDav_options cfg))]
     else [])
  ∧ credentials (cardDav_options cfg) = credentials (calDav_options cfg)
  ∧ dav_authMethod (cardDav_options cfg) = dav_authMethod (calDav_options cfg)
  ∧ (dav_authMethod (calDav_options cfg) = lit "Oauth"
     ∧ (authMethod cfg = Some (lit "OAuth") ∨ authMethod cfg = Some (lit "Oauth"))
     ∨ dav_authMethod (calDav_options cfg) = lit "Basic"
       ∧ authMethod cfg ≠ Some (lit "OAuth") ∧ authMethod cfg ≠ Some (lit "Oauth"))
  ∧ dav_serverUrl (calDav_options cfg) = serverUrl cfg
  ∧ dav_serverUrl (cardDav_options cfg)
    = (if truthy (cardDavServerUrl cfg) then cardDavServerUrl cfg else serverUrl cfg).
Proof.
  split; [|split; [reflexivity|split; [reflexivity|split; [|split; reflexivity]]]].
  - destruct (fields_present cfg) eqn:Hf.
    + unfold fields_present in Hf. destruct (uses_oauth cfg) eqn:Hmode.
      * pose proof (initialize_oauth P cfg w Hmode Hf) as Hrun.
        destruct (login_outcome P (calDav_options cfg));
          [|destruct (login_outcome P (cardDav_options cfg))];
          rewrite (events_of_initialized _ _ _ _ _ Hrun);
          unfold until_calDav_login, construction; rewrite Hmode; reflexivity.
      * pose proof (initialize_basic P cfg w Hmode Hf) as Hrun.
        destruct (login_outcome P (calDav_options cfg));
          [|destruct (login_outcome P (cardDav_options cfg))];
          rewrite (events_of_initialized _ _ _ _ _ Hrun);
          unfold until_calDav_login, construction; rewrite Hmode; reflexivity.
    + destruct (initialize_invalid P cfg w Hf) as (e & Hrun & _).
      rewrite (events_of_trace _ _ [mode_line cfg; failure_line cfg e]); [done|].
      by rewrite Hrun.
  - unfold calDav_options, uses_oauth, or_else, str_eqb. cbn.
    destruct (authMethod cfg) as [[|c r]|]; cbn.
    1,3: right; split; [reflexivity|split; discriminate].
    repeat case_bool_decide; cbn;
      first [ left; split; [reflexivity|]; first [left; congruence|right; congruence]
            | right; split; [reflexivity|split; congruence] ].
Qed.

Lemma filter_is_login_construction cfg w :
  filter (λ e, is_login e = true) (until_calDav_login cfg w) = [EvLogin (calDav_addr w)].
Proof. unfold until_calDav_login, construction. by destruct (uses_oauth cfg). Qed.

(** X10. The logins of [initialize], in order. No login is attempted when the
    check of the required fields fails; otherwise the CalDAV client logs
    in first, and the CardDAV client logs in after it exactly when the
    CalDAV login succeeded. There is never a third login. *)
Theorem logins_in_order P cfg w :
  filter (λ e, is_login e = true) (events_of (initialize P cfg) w)
  = (if negb (fields_present cfg) then []
     else match login_outcome P (calDav_options cfg) with
          | Some _ => [EvLogin (calDav_addr w)]
          | None => [EvLogin (calDav_addr w); EvLogin (cardDav_addr cfg w)]
          end).
Proof.
  destruct (fields_present cfg) eqn:Hf; cbn [negb].
  - unfold fields_present in Hf. destruct (uses_oauth cfg) eqn:Hmode.
    + pose proof (initialize_oauth P cfg w Hmode Hf) as Hrun.
      destruct (login_outcome P (calDav_options cfg));
        [|destruct (login_outcome P (cardDav_options cfg))];
        rewrite (events_of_initialized _ _ _ _ _ Hrun), filter_app,
          filter_is_login_construction; reflexivity.
    + pose proof (initialize_basic P cfg w Hmode Hf) as Hrun.
      destruct (login_outcome P (calDav_options cfg));
        [|destruct (login_outcome P (cardDav_options cfg))];
        rewrite (events_of_initialized _ _ _ _ _ Hrun), filter_app,
          filter_is_login_construction; reflexivity.
  - destruct (initialize_invalid P cfg w Hf) as (e & Hrun & _).
    rewrite (events_of_trace _ _ [mode_line cfg; failure_line cfg e]); [done|].
    by rewrite Hrun.
Qed.

Ltac loggable_field :=
  first [ left; unfold loggable; apply list_elem_of_In; cbn [In]; solve [auto 10]
        | right; eexists; reflexivity ].

Ltac logs_only_event :=
  lazymatch goal with
  | |- logs_only _ (match ?x with _ => _ end) => destruct x
  | |- _ => idtac
  end;
  cbn -[loggable lit]; try exact I; repeat (constructor; [loggable_field|]); try constructor.

Lemma until_calDav_login_logs cfg w :
  Forall (logs_only (loggable cfg)) (until_calDav_login cfg w).
Proof.
  unfold until_calDav_login, construction, mode_line.
  destruct (uses_oauth cfg); cbn [app]; repeat (constructor; [logs_only_event|]);
    constructor.
Qed.

(** X11. What [initialize] logs. Every field of every log line it writes is
    the server URL, the authentication method, the user name, the token
    endpoint, the account type of a client, or the message of an error;
    no line has a field for the password, the client id, the client
    secret, the refresh token or the credentials object. *)
Theorem initialize_logs_no_secret P cfg w :
  Forall (logs_only (loggable cfg)) (events_of (initialize P cfg) w)
  ∧ Forall (λ kv, kv.1 ∉ ["password"; "clientSecret"; "refreshToken"; "clientId";
                          "credentials"]) (loggable cfg).
Proof.
  split; [|unfold loggable; repeat constructor; cbn [fst]; intros Hin; not_among Hin].
  assert (Hpost : ∀ post, Forall (logs_only (loggable cfg)) post →
            Forall (logs_only (loggable cfg)) (until_calDav_login cfg w ++ post)).
  { intros post Hp. apply Forall_app. split; [apply until_calDav_login_logs|exact Hp]. }
  destruct (fields_present cfg) eqn:Hf.
  - unfold fields_present in Hf. destruct (uses_oauth cfg) eqn:Hmode.
    + pose proof (initialize_oauth P cfg w Hmode Hf) as Hrun.
      destruct (login_outcome P (calDav_options cfg));
        [|destruct (login_outcome P (cardDav_options cfg))];
        rewrite (events_of_initialized _ _ _ _ _ Hrun); apply Hpost;
        unfold calDav_logged_in, cardDav_logged_in, cardDav_warning, success_line,
          failure_line;
        repeat (constructor; [logs_only_event|]); constructor.
    + pose proof (initialize_basic P cfg w Hmode Hf) as Hrun.
      destruct (login_outcome P (calDav_options cfg));
        [|destruct (login_outcome P (cardDav_options cfg))];
        rewrite (events_of_initialized _ _ _ _ _ Hrun); apply Hpost;
        unfold calDav_logged_in, cardDav_logged_in, cardDav_warning, success_line,
          failure_line;
        repeat (constructor; [logs_only_event|]); constructor.
  - destruct (initialize_invalid P cfg w Hf) as (e & Hrun & _).
    rewrite (events_of_trace _ _ [mode_line cfg; failure_line cfg e]) by (by rewrite Hrun).
    unfold mode_line, failure_line.
    repeat (constructor; [logs_only_event|]); constructor.
Qed.

(** ** Start-up *)

Lemma log_bind {A} lg lvl fields msg (k : M A) w :
  (log lg lvl fields msg;; k) w = k (with_events [EvLog lg lvl fields msg] w).
Proof. reflexivity. Qed.

(** [initializeTsdav], the part both entry points share: the check of the
    environment, then [initialize] on the configuration read from it. *)
Lemma initializeTsdav_body_run P url w :
  initializeTsdav_body P url w
  = if env_present P then
      match initialize P (env_config P url) (with_events [announcement P] w) with
      | (Normal _, w') => (Normal (), with_events [completion_line P] w')
      | (Throw e, w') => (Throw e, w')
      | (Exit s, w') => (Exit s, w')
      end
    else (Throw (env_error P), with_events [announcement P] w).
Proof.
  unfold initializeTsdav_body, env_present, env_config, env_error, announcement,
    completion_line, env_uses_oauth, oauth_env_present, basic_env_present.
  cbn zeta. destruct (str_eqb _ _ || str_eqb _ _); rewrite log_bind.
  - destruct (truthy (env P "GOOGLE_CLIENT_ID")), (truthy (env P "GOOGLE_CLIENT_SECRET")),
      (truthy (env P "GOOGLE_REFRESH_TOKEN")); reflexivity.
  - destruct (truthy (env P "CALDAV_SERVER_URL")), (truthy (env P "CALDAV_USERNAME")),
      (truthy (env P "CALDAV_PASSWORD")); reflexivity.
Qed.




(** Past the checks of the fields the manager holds the two clients that
    this initialization constructed, whatever the logins gave. *)
Lemma initialized_clients cfg evs evs' w :
  let w' := with_events evs' (initialized cfg evs w) in
  client_options w' (this_calDavClient (tsdavManager w')) = Some (calDav_options cfg)
  ∧ client_options w' (this_cardDavClient (tsdavManager w')) = Some (cardDav_options cfg).
Proof.
  cbn zeta. unfold client_options. cbn.
  rewrite lookup_insert_ne by apply fresh_insert_ne. by rewrite !lookup_insert_eq.
Qed.

Lemma initializeTsdav_body_world P url w :
  env_present P = true → fields_present (env_config P url) = true →
  ∃ evs evs',
    (initializeTsdav_body P url w).2
    = with_events evs' (initialized (env_config P url) evs (with_events [announcement P] w)).
Proof.
  intros He Hf. rewrite initializeTsdav_body_run, He.
  destruct (initialize_outcome P (env_config P url) (with_events [announcement P] w))
    as (evs & Hw & _).
  rewrite Hf in Hw.
  destruct (initialize P (env_config P url) (with_events [announcement P] w))
    as [[[]|e|s] w']; cbn [fst snd] in *; subst w'; exists evs.
  - by eexists.
  - exists []. by rewrite with_events_nil.
  - exists []. by rewrite with_events_nil.
Qed.

Lemma initializeTsdav_http_world P w :
  ∃ evs, (initializeTsdav_http P w).2 = with_events evs (initializeTsdav_body P None w).2.
Proof.
  unfold initializeTsdav_http, try_catch.
  destruct (initializeTsdav_body P None w) as [[[]|e|s] w1]; cbn [snd].
  - exists []. by rewrite with_events_nil.
  - rewrite log_bind. unfold process_exit. cbn [snd].
    eexists [_; _]. apply world_ext; reduce_worlds; try reflexivity.
    by rewrite <- app_assoc.
  - exists []. by rewrite with_events_nil.
Qed.

Lemma basic_config_fields P url :
  env_uses_oauth P = false → basic_env_present P = true →
  env_present P = true ∧ env_config P url = basic_config P url
  ∧ fields_present (basic_config P url) = true.
Proof.
  unfold env_present, env_config, basic_env_present. intros -> Hp.
  split; [done|split; [done|]].
  apply andb_true_iff in Hp as [Hp Hw]. apply andb_true_iff in Hp as [_ Hu].
  unfold fields_present.
  assert (uses_oauth (basic_config P url) = false) as -> by (by vm_compute).
  unfold basic_fields_present. cbn. by rewrite Hu, Hw.
Qed.

(** X13. [CARDDAV_SERVER_URL] counts in the stdio server only. In Basic mode
    with the three required variables set, the HTTP server constructs both
    clients for [CALDAV_SERVER_URL], whatever [CARDDAV_SERVER_URL] is; the
    stdio server constructs the CardDAV client for [CARDDAV_SERVER_URL]
    when that is set and not empty. *)
Theorem cardDav_url_only_in_stdio P w :
  env_uses_oauth P = false → basic_env_present P = true →
  let http := (initializeTsdav_http P w).2 in
  let stdio := (initializeTsdav_stdio P w).2 in
  dav_serverUrl <$> client_options http (this_calDavClient (tsdavManager http))
  = Some (env P "CALDAV_SERVER_URL")
  ∧ dav_serverUrl <$> client_options http (this_cardDavClient (tsdavManager http))
    = Some (env P "CALDAV_SERVER_URL")
  ∧ dav_serverUrl <$> client_options stdio (this_calDavClient (tsdavManager stdio))
    = Some (env P "CALDAV_SERVER_URL")
  ∧ dav_serverUrl <$> client_options stdio (this_cardDavClient (tsdavManager stdio))
    = Some (if truthy (env P "CARDDAV_SERVER_URL") then env P "CARDDAV_SERVER_URL"
            else env P "CALDAV_SERVER_URL").
Proof.
  intros Hmode Hp. cbn zeta.
  destruct (initializeTsdav_http_world P w) as (evs3 & ->).
  destruct (basic_config_fields P None Hmode Hp) as (He & Hc & Hf).
  destruct (initializeTsdav_body_world P None w He) as (evs & evs' & ->);
    [by rewrite Hc|].
  unfold initializeTsdav_stdio.
  destruct (basic_config_fields P (env P "CARDDAV_SERVER_URL") Hmode Hp) as (_ & Hc' & Hf').
  destruct (initializeTsdav_body_world P (env P "CARDDAV_SERVER_URL") w He)
    as (evs1 & evs1' & ->); [by rewrite Hc'|].
  rewrite with_events_app, Hc, Hc'.
  destruct (initialized_clients (basic_config P None) evs (evs' ++ evs3)
              (with_events [announcement P] w)) as [-> ->].
  destruct (initialized_clients (basic_config P (env P "CARDDAV_SERVER_URL")) evs1 evs1'
              (with_events [announcement P] w)) as [-> ->].
  done.
Qed.

Lemma cardDav_url_only_in_stdio_witness :
  dav_serverUrl
  <$> client_options (initializeTsdav_http two_server_platform initial_world).2
        (this_cardDavClient
           (tsdavManager (initializeTsdav_http two_server_platform initial_world).2))
  = Some (Some (lit "https://cal.example.org/"))
  ∧ dav_serverUrl
    <$> client_options (initializeTsdav_stdio two_server_platform initial_world).2
          (this_cardDavClient
             (tsdavManager (initializeTsdav_stdio two_server_platform initial_world).2))
    = Some (Some (lit "https://card.example.org/")).
Proof.
  destruct (cardDav_url_only_in_stdio two_server_platform initial_world eq_refl eq_refl)
    as (_ & Hh & _ & Hs).
  split; [exact Hh|exact Hs].
Defined.

Lemma initializeOAuth_without_user P cfg w :
  truthy (username cfg) = false →
  _initializeOAuth P cfg w = (Throw oauth_user_error, w).
Proof. intros H. unfold _initializeOAuth. by rewrite H. Qed.

(** X14. The required variables of OAuth mode. Without one of
    [GOOGLE_CLIENT_ID], [GOOGLE_CLIENT_SECRET], [GOOGLE_REFRESH_TOKEN] both
    entry points fail before [initialize] is called and end the process
    with status 1. [GOOGLE_USER] is not among the variables the entry
    points check: without it the HTTP server calls [initialize], which
    stores the configuration, throws [OAuth requires username (user
    email)] before constructing a client, and the process ends with
    status 1. *)
Theorem oauth_required_variables P w :
  env_uses_oauth P = true →
  (oauth_env_present P = false →
   initializeTsdav_http P w
   = (Exit 1,
      with_events [EvLog Logger LInfo [] "Initializing with OAuth2 authentication";
                   EvLog Logger LError [("error", JStr (message oauth_env_error))]
                     "Failed to initialize tsdav clients";
                   EvExit 1] w)
   ∧ startStdioServer P w
     = (Exit 1,
        with_events [EvLog Logger LInfo [] "Starting dav-mcp STDIO server...";
                     EvLog Logger LInfo [] "Initializing with OAuth2 authentication";
                     EvLog Logger LError [("error", JStr (message oauth_env_error))]
                       "Fatal error starting server";
                     EvExit 1] w))
  ∧ (oauth_env_present P = true → truthy (env P "GOOGLE_USER") = false →
     initializeTsdav_http P w
     = (Exit 1,
        with_events [EvLog Logger LInfo [] "Initializing with OAuth2 authentication";
                     mode_line (oauth_config P);
                     failure_line (oauth_config P) oauth_user_error;
                     EvLog Logger LError [("error", JStr (message oauth_user_error))]
                       "Failed to initialize tsdav clients";
                     EvExit 1]
          (configured (oauth_config P) w))).
Proof.
  intros Hmode.
  assert (Hann : announcement P
                 = EvLog Logger LInfo [] "Initializing with OAuth2 authentication").
  { unfold announcement. by rewrite Hmode. }
  split.
  - intros Hp.
    assert (Hbody : ∀ url w0, initializeTsdav_body P url w0
              = (Throw oauth_env_error,
                 with_events [EvLog Logger LInfo [] "Initializing with OAuth2 authentication"]
                   w0)).
    { intros url w0. rewrite initializeTsdav_body_run. unfold env_present, env_error.
      by rewrite Hmode, Hp, Hann. }
    split.
    + unfold initializeTsdav_http, try_catch. rewrite Hbody, log_bind.
      unfold process_exit. f_equal. same_world.
    + unfold startStdioServer, initializeTsdav_stdio, try_catch. rewrite log_bind.
      unfold mbind at 1, M_bind at 1. rewrite Hbody, log_bind.
      unfold process_exit. f_equal. same_world.
  - intros Hp Hu.
    assert (uses_oauth (oauth_config P) = true) as Hoauth by (by vm_compute).
    unfold initializeTsdav_http, try_catch. rewrite initializeTsdav_body_run.
    unfold env_present, env_config. rewrite Hmode, Hp, Hann.
    rewrite initialize_run, Hoauth, initializeOAuth_without_user by exact Hu.
    rewrite log_bind. unfold process_exit. f_equal. same_session_world.
Qed.

Lemma oauth_required_variables_witness :
  (initializeTsdav_http oauth_without_token initial_world).1 = Exit 1
  ∧ (initializeTsdav_http oauth_without_user initial_world).1 = Exit 1.
Proof.
  split.
  - destruct (oauth_required_variables oauth_without_token initial_world eq_refl)
      as [H _].
    destruct (H eq_refl) as [-> _]. reflexivity.
  - destruct (oauth_required_variables oauth_without_user initial_world eq_refl)
      as [_ H].
    rewrite (H eq_refl eq_refl). reflexivity.
Defined.

Lemma oauth_config_fields P url :
  env_uses_oauth P = true → oauth_env_present P = true →
  truthy (env P "GOOGLE_USER") = true →
  env_present P = true ∧ env_config P url = oauth_config P
  ∧ uses_oauth (oauth_config P) = true
  ∧ fields_present (oauth_config P) = true.
Proof.
  unfold env_present, env_config. intros -> Hp Hu.
  assert (uses_oauth (oauth_config P) = true) as Hmode by (by vm_compute).
  split; [done|split; [done|split; [done|]]].
  unfold fields_present. rewrite Hmode. unfold oauth_fields_present, oauth_env_present in *.
  cbn. by rewrite Hu.
Qed.

Lemma or_else_idem e d : d ≠ [] → or_else (Some (or_else e d)) d = or_else e d.
Proof. intros Hd. destruct e as [[|c r]|]; cbn; by destruct d. Qed.

(** X15. The defaults of OAuth mode. With the OAuth variables set, both entry
    points construct the two clients for [GOOGLE_SERVER_URL], or for
    Google's CalDAV endpoint when that variable is unset or empty, with
    the method [Oauth] and the same credentials, whose token endpoint is
    [GOOGLE_TOKEN_URL] or Google's by default and which hold no password. *)
Theorem oauth_startup_defaults P w :
  env_uses_oauth P = true → oauth_env_present P = true →
  truthy (env P "GOOGLE_USER") = true →
  let url := or_else (env P "GOOGLE_SERVER_URL")
               (lit "https://apidata.googleusercontent.com/caldav/v2/") in
  let token := or_else (env P "GOOGLE_TOKEN_URL")
                 (lit "https://accounts.google.com/o/oauth2/token") in
  ∀ w', w' = (initializeTsdav_http P w).2 ∨ w' = (initializeTsdav_stdio P w).2 →
    ∃ cal card,
      client_options w' (this_calDavClient (tsdavManager w')) = Some cal
      ∧ client_options w' (this_cardDavClient (tsdavManager w')) = Some card
      ∧ dav_serverUrl cal = Some url ∧ dav_serverUrl card = Some url
      ∧ dav_authMethod cal = lit "Oauth" ∧ dav_authMethod card = lit "Oauth"
      ∧ credentials card = credentials cal
      ∧ get "tokenUrl" (credentials cal) = Some (JStr token)
      ∧ get "username" (credentials cal) = Some (opt_val (env P "GOOGLE_USER"))
      ∧ get "password" (credentials cal) = None.
Proof.
  intros Hmode Hp Hu. cbn zeta. intros w' Hw'.
  assert (∃ evs evs', w' = with_events evs' (initialized (oauth_config P) evs
                                               (with_events [announcement P] w)))
    as (evs & evs' & ->).
  { destruct Hw' as [->| ->].
    - destruct (initializeTsdav_http_world P w) as (evs3 & ->).
      destruct (oauth_config_fields P None Hmode Hp Hu) as (He & Hc & _ & Hf).
      destruct (initializeTsdav_body_world P None w He) as (evs & evs' & ->);
        [by rewrite Hc|].
      rewrite with_events_app, Hc. by eexists _, _.
    - unfold initializeTsdav_stdio.
      destruct (oauth_config_fields P (env P "CARDDAV_SERVER_URL") Hmode Hp Hu)
        as (He & Hc & _ & Hf).
      destruct (initializeTsdav_body_world P (env P "CARDDAV_SERVER_URL") w He)
        as (evs & evs' & ->); [by rewrite Hc|].
      rewrite Hc. by eexists _, _. }
  destruct (initialized_clients (oauth_config P) evs evs' (with_events [announcement P] w))
    as [-> ->].
  destruct (oauth_config_fields P None Hmode Hp Hu) as (_ & _ & Hoauth & _).
  exists (calDav_options (oauth_config P)), (cardDav_options (oauth_config P)).
  unfold calDav_options, cardDav_options. rewrite Hoauth. cbn [dav_serverUrl dav_authMethod
    credentials].
  repeat split.
  unfold oauth_credentials, oauth_token_url. cbn [tokenUrl oauth_config].
  by rewrite or_else_idem.
Qed.

Lemma oauth_startup_defaults_witness :
  ∃ cal card,
    client_options (initializeTsdav_http google_platform initial_world).2
      (this_calDavClient (tsdavManager (initializeTsdav_http google_platform initial_world).2))
    = Some cal
    ∧ client_options (initializeTsdav_http google_platform initial_world).2
        (this_cardDavClient
           (tsdavManager (initializeTsdav_http google_platform initial_world).2))
      = Some card
    ∧ dav_serverUrl cal = Some (lit "https://apidata.googleusercontent.com/caldav/v2/")
    ∧ dav_serverUrl card = Some (lit "https://apidata.googleusercontent.com/caldav/v2/").
Proof.
  destruct (oauth_startup_defaults google_platform initial_world eq_refl eq_refl eq_refl
              (initializeTsdav_http google_platform initial_world).2 (or_introl eq_refl))
    as (cal & card & H1 & H2 & H3 & H4 & _).
  exists cal, card. auto.
Defined.

(** ** The protocol handlers, continued *)

(** The accesses of a handler to the session provider depend on the
    manager only. *)
Lemma access_session_exact ops w :
  access_session ops w
  = (match (session_trace (tsdavManager w) ops).2 with
     | None => Normal ()
     | Some error => Throw error
     end,
     with_events (session_trace (tsdavManager w) ops).1 w).
Proof.
  revert w. induction ops as [|op ops IH]; intros w.
  - cbn. unfold mret, M_ret. by rewrite with_events_nil.
  - destruct op; cbn [access_session session_trace]; unfold mbind, M_bind.
    + rewrite getCalDavClient_run.
      destruct (this_calDavClient (tsdavManager w)) eqn:Hc; [|reflexivity].
      rewrite IH, with_events_app. reflexivity.
    + rewrite getCardDavClient_run.
      destruct (this_cardDavClient (tsdavManager w)) eqn:Hc; [|reflexivity].
      rewrite IH, with_events_app. reflexivity.
Qed.

Lemma invoke_exact t args w :
  invoke t args w
  = (settled (outcome_of (tsdavManager w) t args),
     with_events
       (EvHandler (name t) args
        :: (session_trace (tsdavManager w) (session_ops (handler t args))).1) w).
Proof.
  unfold invoke, outcome_of. unfold mbind, M_bind. rewrite emit_run, access_session_exact.
  rewrite with_events_app. cbn [app tsdavManager with_events set_trace].
  destruct (session_trace _ _).2; [reflexivity|].
  by destruct (settles (handler t args)).
Qed.

Lemma call_tool_http_exact P requestId request tool w :
  find (λ t, str_eqb (name t) (params_name request)) (tools P) = Some tool →
  let outcome := outcome_of (tsdavManager w) tool (arguments_of request) in
  call_tool_http P requestId request w
  = (Normal (returned P outcome),
     clocked 2
       (call_trace_http requestId (params_name request) (arguments_of request)
          (wall_clock P (dateNowCalls w)) (wall_clock P (S (dateNowCalls w))) tool
          (session_trace (tsdavManager w)
             (session_ops (handler tool (arguments_of request)))).1
          outcome) w).
Proof.
  intros Hfind. cbn zeta. unfold call_tool_http. fold (arguments_of request).
  run_handler. rewrite Hfind. run_handler. rewrite invoke_exact.
  cbn [tsdavManager]. destruct (outcome_of _ _ _); cbn [settled]; f_equal; same_world.
Qed.

Lemma call_tool_stdio_exact P request tool w :
  find (λ t, str_eqb (name t) (params_name request)) (tools P) = Some tool →
  let outcome := outcome_of (tsdavManager w) tool (arguments_of request) in
  call_tool_stdio P request w
  = (Normal (returned P outcome),
     clocked 2
       (call_trace_stdio (params_name request) (arguments_of request)
          (wall_clock P (dateNowCalls w)) (wall_clock P (S (dateNowCalls w))) tool
          (session_trace (tsdavManager w)
             (session_ops (handler tool (arguments_of request)))).1
          outcome) w).
Proof.
  intros Hfind. cbn zeta. unfold call_tool_stdio. fold (arguments_of request).
  run_handler. rewrite Hfind. run_handler. rewrite invoke_exact.
  cbn [tsdavManager]. destruct (outcome_of _ _ _); cbn [settled]; f_equal; same_world.
Qed.

Lemma call_tool_unfound P requestId request w :
  find (λ t, str_eqb (name t) (params_name request)) (tools P) = None →
  call_tool_http P requestId request w
  = (Throw (unknown_tool P (params_name request)),
     with_events
       [EvLog (RequestLogger requestId) LInfo [("tool", JStr (params_name request))]
          "tools/call request";
        EvRegistry (Find (params_name request));
        EvLog (RequestLogger requestId) LError [("tool", JStr (params_name request))]
          "Tool not found"] w)
  ∧ call_tool_stdio P request w
    = (Throw (unknown_tool P (params_name request)),
       with_events
         [EvLog Logger LInfo [("tool", JStr (params_name request))]
            "tools/call request received";
          EvRegistry (Find (params_name request));
          EvLog Logger LError [("tool", JStr (params_name request))] "Tool not found"] w).
Proof.
  intros Hno. split.
  - unfold call_tool_http, registry_find. unfold_M. rewrite Hno. cbn.
    unfold with_events, set_trace. cbn. do 2 f_equal. by rewrite <- !app_assoc.
  - unfold call_tool_stdio, registry_find. unfold_M. rewrite Hno. cbn.
    unfold with_events, set_trace. cbn. do 2 f_equal. by rewrite <- !app_assoc.
Qed.

Lemma find_first (pre post : list tool) t n :
  (∀ t', t' ∈ pre → name t' ≠ n) → name t = n →
  find (λ t, str_eqb (name t) n) (pre ++ t :: post) = Some t.
Proof.
  intros Hpre Ht. induction pre as [|p pre IH]; cbn.
  - unfold str_eqb. by rewrite bool_decide_eq_true_2.
  - unfold str_eqb at 1. rewrite bool_decide_eq_false_2.
    + apply IH. intros t' Hin. apply Hpre. by right.
    + apply Hpre. by left.
Qed.

Lemma find_registered (registry : list tool) n :
  (∃ t, find (λ t, str_eqb (name t) n) registry = Some t)
  ↔ Some (JStr n) ∈ map (get "name") (map project registry).
Proof.
  rewrite map_map. split.
  - intros [t Hf]. apply find_some in Hf as [Hin Hn].
    apply bool_decide_eq_true in Hn. apply list_elem_of_In, in_map_iff.
    exists t. split; [|done]. cbn. by rewrite Hn.
  - intros Hin. apply list_elem_of_In, in_map_iff in Hin as (t & Hn & Hin).
    change (get "name" (project t)) with (Some (JStr (name t))) in Hn.
    destruct (find (λ t, str_eqb (name t) n) registry) as [t'|] eqn:Hf; [by exists t'|].
    apply (find_none _ _ Hf) in Hin. apply bool_decide_eq_false in Hin. congruence.
Qed.

(** With both clients in place every access succeeds. *)
Lemma session_trace_ready m ops :
  is_Some (this_calDavClient m) → is_Some (this_cardDavClient m) →
  session_trace m ops = (map EvSession ops, None).
Proof.
  intros [c Hc] [d Hd]. induction ops as [|[] ops IH]; cbn [session_trace map]; [done|..].
  - rewrite Hc, IH. reflexivity.
  - rewrite Hd, IH. reflexivity.
Qed.

(** X16. [tools/call] runs the first tool of the registry with the requested
    name. With both clients in place the call returns what the handler of
    that tool returns, or the error response built from the error the
    handler fails with; the handler gets the arguments of the request, or
    the empty object when the request has none; the trace of the call is
    the request line, the lookup, the start entry, the invocation with its
    accesses to the session provider, and the entry of the outcome. A
    later tool of the same name is never invoked. *)
Theorem call_reaches_first_match P requestId request w pre t post :
  tools P = pre ++ t :: post →
  (∀ t', t' ∈ pre → name t' ≠ params_name request) →
  name t = params_name request →
  is_Some (this_calDavClient (tsdavManager w)) →
  is_Some (this_cardDavClient (tsdavManager w)) →
  let args := arguments_of request in
  let start := wall_clock P (dateNowCalls w) in
  let finish := wall_clock P (S (dateNowCalls w)) in
  (call_tool_http P requestId request w).1 = Normal (returned P (settles (handler t args)))
  ∧ events_of (call_tool_http P requestId request) w
    = call_trace_http requestId (params_name request) args start finish t
        (map EvSession (session_ops (handler t args))) (settles (handler t args))
  ∧ (call_tool_stdio P request w).1 = Normal (returned P (settles (handler t args)))
  ∧ events_of (call_tool_stdio P request) w
    = call_trace_stdio (params_name request) args start finish t
        (map EvSession (session_ops (handler t args))) (settles (handler t args)).
Proof.
  intros Htools Hpre Ht Hcal Hcard. cbn zeta.
  pose proof (find_first pre post t (params_name request) Hpre Ht) as Hfind.
  rewrite <- Htools in Hfind.
  pose proof (call_tool_http_exact P requestId request t w Hfind) as Hh.
  pose proof (call_tool_stdio_exact P request t w Hfind) as Hs.
  cbn zeta in Hh, Hs. unfold outcome_of in Hh, Hs.
  rewrite session_trace_ready in Hh, Hs by done. cbn [fst snd] in Hh, Hs.
  repeat split.
  - by rewrite Hh.
  - apply events_of_trace. by rewrite Hh.
  - by rewrite Hs.
  - apply events_of_trace. by rewrite Hs.
Qed.

Lemma call_reaches_first_match_witness :
  (call_tool_http shadowing_platform (lit "request-0") (call "list_calendars")
     serving_world).1
  = Normal (JStr (lit "first")).
Proof.
  apply (call_reaches_first_match shadowing_platform (lit "request-0")
           (call "list_calendars") serving_world []
           {| name := lit "list_calendars";
              description := JStr (lit "List all calendars");
              inputSchema := JObj [("type", JStr (lit "object"))];
              handler := λ _, {| session_ops := [GetCalDavClient];
                                 settles := inl (JStr (lit "first")) |} |}
           [ {| name := lit "list_calendars";
                description := JStr (lit "List all calendars, again");
                inputSchema := JObj [("type", JStr (lit "object"))];
                handler := λ _, {| session_ops := [];
                                   settles := inl (JStr (lit "second")) |} |} ]).
  - reflexivity.
  - intros t' Hin. by apply elem_of_nil in Hin.
  - reflexivity.
  - by eexists.
  - by eexists.
Defined.

(** X17. A tool call in a process whose CalDAV client is not set does not
    throw. When the handler of the tool asks for the CalDAV client first,
    the [CalDAVError] of the accessor is caught by the dispatch handler:
    the call returns the error response built from it, and the last entry
    of the tool-call logger is the error entry with that error, on both
    servers. *)
Theorem call_before_initialize P requestId request tool w rest :
  find (λ t, str_eqb (name t) (params_name request)) (tools P) = Some tool →
  this_calDavClient (tsdavManager w) = None →
  session_ops (handler tool (arguments_of request)) = GetCalDavClient :: rest →
  let response := createToolErrorResponse P calDav_not_initialized (development P) in
  (call_tool_http P requestId request w).1 = Normal response
  ∧ last (events_of (call_tool_http P requestId request) w)
    = Some (EvToolCallError (params_name request) (arguments_of request)
              calDav_not_initialized
              (timed (ctx_http requestId)
                 (wall_clock P (S (dateNowCalls w)) - wall_clock P (dateNowCalls w))))
  ∧ (call_tool_stdio P request w).1 = Normal response
  ∧ last (events_of (call_tool_stdio P request) w)
    = Some (EvToolCallError (params_name request) (arguments_of request)
              calDav_not_initialized
              (timed ctx_stdio
                 (wall_clock P (S (dateNowCalls w)) - wall_clock P (dateNowCalls w)))).
Proof.
  intros Hfind Hnone Hops. cbn zeta.
  pose proof (call_tool_http_exact P requestId request tool w Hfind) as Hh.
  pose proof (call_tool_stdio_exact P request tool w Hfind) as Hs.
  cbn zeta in Hh, Hs. unfold outcome_of in Hh, Hs. rewrite Hops in Hh, Hs.
  cbn [session_trace] in Hh, Hs. rewrite Hnone in Hh, Hs. cbn [fst snd] in Hh, Hs.
  repeat split.
  - by rewrite Hh.
  - rewrite (events_of_trace _ _ _ (f_equal (λ r, trace r.2) Hh)).
    unfold call_trace_http. by rewrite !last_app.
  - by rewrite Hs.
  - rewrite (events_of_trace _ _ _ (f_equal (λ r, trace r.2) Hs)).
    unfold call_trace_stdio. by rewrite !last_app.
Qed.

Lemma call_before_initialize_witness :
  (call_tool_http http_platform (lit "request-0") (call "list_calendars") initial_world).1
  = Normal (createToolErrorResponse http_platform calDav_not_initialized
              (development http_platform)).
Proof.
  apply (call_before_initialize http_platform (lit "request-0") (call "list_calendars")
           {| name := lit "list_calendars";
              description := JStr (lit "List all calendars");
              inputSchema := JObj [("type", JStr (lit "object"))];
              handler := λ _, {| session_ops := [GetCalDavClient];
                                 settles := inl (JObj [("content", JArr [])]) |} |}
           initial_world []); reflexivity.
Defined.

(** X18. [tools/list] and [tools/call] agree on what a tool is: a call returns
    (a result or an error response) exactly for the names [tools/list]
    shows, and throws the unknown-tool error exactly for the others, on
    both servers and in every state. *)
Theorem listed_iff_callable P requestId request w :
  let listed := map project (tools P) in
  (list_tools_http P requestId w).1 = Normal (JObj [("tools", JArr listed)])
  ∧ (list_tools_stdio P w).1 = Normal (JObj [("tools", JArr listed)])
  ∧ (Some (JStr (params_name request)) ∈ map (get "name") listed
     ↔ ∃ v, (call_tool_http P requestId request w).1 = Normal v)
  ∧ (Some (JStr (params_name request)) ∈ map (get "name") listed
     ↔ ∃ v, (call_tool_stdio P request w).1 = Normal v)
  ∧ (Some (JStr (params_name request)) ∉ map (get "name") listed
     ↔ (call_tool_http P requestId request w).1
       = Throw (unknown_tool P (params_name request)))
  ∧ (Some (JStr (params_name request)) ∉ map (get "name") listed
     ↔ (call_tool_stdio P request w).1 = Throw (unknown_tool P (params_name request))).
Proof.
  cbn zeta. split; [reflexivity|split; [reflexivity|]].
  rewrite <- find_registered.
  destruct (find (λ t, str_eqb (name t) (params_name request)) (tools P)) as [t|] eqn:Hf.
  - rewrite (call_tool_http_exact P requestId request t w Hf).
    rewrite (call_tool_stdio_exact P request t w Hf). cbn [fst].
    repeat split; try (intros _; by eexists); try discriminate.
    + intros Hn. exfalso. apply Hn. by exists t.
    + intros Hn. exfalso. apply Hn. by exists t.
  - destruct (call_tool_unfound P requestId request w Hf) as [-> ->]. cbn [fst].
    repeat split; try done.
    + intros [t Ht]. discriminate.
    + intros [v Hv]. discriminate.
    + intros [t Ht]. discriminate.
    + intros [v Hv]. discriminate.
    + intros _ [t Ht]. discriminate.
    + intros _ [t Ht]. discriminate.
Qed.

(** X19. The two servers dispatch alike. For the same request in the same
    state the [tools/call] handlers of the HTTP and of the stdio server
    return the same value or throw the same error, read the clock equally
    often, make the same accesses to the session provider, and leave the
    heap, the manager and the responses as they were. *)
Theorem transports_agree P requestId request w :
  let http := call_tool_http P requestId request w in
  let stdio := call_tool_stdio P request w in
  http.1 = stdio.1
  ∧ heap http.2 = heap w ∧ heap stdio.2 = heap w
  ∧ tsdavManager http.2 = tsdavManager w ∧ tsdavManager stdio.2 = tsdavManager w
  ∧ responses http.2 = responses w ∧ responses stdio.2 = responses w
  ∧ dateNowCalls http.2 = dateNowCalls stdio.2
  ∧ filter (λ e, session_event e = true) (events_of (call_tool_http P requestId request) w)
    = filter (λ e, session_event e = true) (events_of (call_tool_stdio P request) w).
Proof.
  cbn zeta.
  destruct (find (λ t, str_eqb (name t) (params_name request)) (tools P)) as [t|] eqn:Hf.
  - pose proof (call_tool_http_exact P requestId request t w Hf) as Hh.
    pose proof (call_tool_stdio_exact P request t w Hf) as Hs. cbn zeta in Hh, Hs.
    rewrite (events_of_trace _ _ _ (f_equal (λ r, trace r.2) Hh)).
    rewrite (events_of_trace _ _ _ (f_equal (λ r, trace r.2) Hs)).
    rewrite Hh, Hs. repeat split.
    unfold call_trace_http, call_trace_stdio. rewrite !filter_app.
    by destruct (outcome_of _ _ _).
  - destruct (call_tool_unfound P requestId request w Hf) as [Hh Hs].
    rewrite (events_of_with_events _ _ _ _ Hh), (events_of_with_events _ _ _ _ Hs).
    rewrite Hh, Hs. by repeat split.
Qed.

Lemma session_trace_events m ops :
  Forall (λ e, session_event e = true) (session_trace m ops).1.
Proof.
  induction ops as [|[] ops IH]; cbn [session_trace]; [constructor|..].
  - destruct (this_calDavClient m); by repeat constructor.
  - destruct (this_cardDavClient m); by repeat constructor.
Qed.

Lemma session_events_no_entry hevs :
  Forall (λ e, session_event e = true) hevs → filter (λ e, is_entry e = true) hevs = [].
Proof.
  induction 1 as [|e hevs He _ IH]; [done|]. rewrite filter_cons, IH.
  rewrite decide_False; [done|]. by destruct e.
Qed.

(** X20. The entries of the tool-call logger come in pairs. A call of an
    unknown tool leaves no entry; every other call leaves exactly the
    start entry followed by one entry of its outcome, success or error,
    with the same tool name and arguments, the duration being the
    difference of the two clock readings. *)
Theorem tool_call_entries_paired P requestId request w :
  let toolName := params_name request in
  let args := arguments_of request in
  let duration := (wall_clock P (S (dateNowCalls w)) - wall_clock P (dateNowCalls w))%Z in
  let outcome :=
    (λ t, outcome_of (tsdavManager w) t args)
    <$> find (λ t, str_eqb (name t) toolName) (tools P) in
  filter (λ e, is_entry e = true) (events_of (call_tool_http P requestId request) w)
  = entries_of toolName args (ctx_http requestId) duration outcome
  ∧ filter (λ e, is_entry e = true) (events_of (call_tool_stdio P request) w)
    = entries_of toolName args ctx_stdio duration outcome
  ∧ (call_tool_http P requestId request w).1
    = match outcome with
      | Some o => Normal (returned P o)
      | None => Throw (unknown_tool P toolName)
      end.
Proof.
  cbn zeta.
  destruct (find (λ t, str_eqb (name t) (params_name request)) (tools P)) as [t|] eqn:Hf;
    cbn [fmap option_fmap option_map].
  - pose proof (call_tool_http_exact P requestId request t w Hf) as Hh.
    pose proof (call_tool_stdio_exact P request t w Hf) as Hs. cbn zeta in Hh, Hs.
    rewrite (events_of_trace _ _ _ (f_equal (λ r, trace r.2) Hh)).
    rewrite (events_of_trace _ _ _ (f_equal (λ r, trace r.2) Hs)).
    rewrite Hh. cbn [fst].
    pose proof (session_events_no_entry _
                  (session_trace_events (tsdavManager w)
                     (session_ops (handler t (arguments_of request))))) as Hno.
    unfold call_trace_http, call_trace_stdio. rewrite !filter_app, Hno.
    by destruct (outcome_of _ _ _).
  - destruct (call_tool_unfound P requestId request w Hf) as [Hh Hs].
    rewrite (events_of_with_events _ _ _ _ Hh), (events_of_with_events _ _ _ _ Hs).
    by rewrite Hh.
Qed.

(** ** The stateless HTTP binding, continued *)

(** *** Computations that write on no response *)
Section Quiet.
Context {A B : Type}.

Lemma quiet_ret (a : A) : quiet (mret a).
Proof. intros w. split; [done|]. exists []. by rewrite app_nil_r. Qed.

Lemma quiet_throw (e : js_error) : quiet (throw (A:=A) e).
Proof. intros w. split; [done|]. exists []. by rewrite app_nil_r. Qed.

Lemma quiet_bind (m : M A) (f : A → M B) :
  quiet m → (∀ a, quiet (f a)) → quiet (m ≫= f).
Proof.
  intros Hm Hf w. unfold mbind, M_bind. destruct (Hm w) as (Hr & evs & Ht & Hq).
  destruct (m w) as [[a|e|s] w1]; cbn [snd] in *; [|by eauto..].
  destruct (Hf a w1) as (Hr' & evs' & Ht' & Hq'). split; [congruence|].
  exists (evs ++ evs'). split; [by rewrite Ht', Ht, app_assoc|by apply Forall_app].
Qed.

Lemma quiet_try_catch (m : M A) (f : js_error → M A) :
  quiet m → (∀ e, quiet (f e)) → quiet (try_catch m f).
Proof.
  intros Hm Hf w. unfold try_catch. destruct (Hm w) as (Hr & evs & Ht & Hq).
  destruct (m w) as [[a|e|s] w1]; cbn [snd] in *; [by eauto| |by eauto].
  destruct (Hf e w1) as (Hr' & evs' & Ht' & Hq'). split; [congruence|].
  exists (evs ++ evs'). split; [by rewrite Ht', Ht, app_assoc|by apply Forall_app].
Qed.
End Quiet.

Lemma quiet_emit e : writes e = false → quiet (emit e).
Proof. intros He w. split; [done|]. exists [e]. split; [done|by constructor]. Qed.

Lemma quiet_log lg lvl fields msg : quiet (log lg lvl fields msg).
Proof. by apply quiet_emit. Qed.

Lemma quiet_get_world : quiet get_world.
Proof. intros w. split; [done|]. exists []. by rewrite app_nil_r. Qed.

Lemma quiet_Date_now P : quiet (Date_now P).
Proof. intros w. split; [done|]. eexists [_]. split; [done|by constructor]. Qed.

Create HintDb quiet.

#[local] Hint Resolve quiet_ret quiet_throw quiet_log quiet_get_world quiet_Date_now : quiet.

Ltac quiet_step :=
  first
    [ apply quiet_bind; [|intros ?]
    | apply quiet_try_catch; [|intros ?]
    | apply quiet_emit; reflexivity
    | solve [auto with quiet]
    | match goal with
      | |- quiet (match ?x with _ => _ end) => destruct x
      end ].

Ltac quiet_auto := repeat quiet_step.

Lemma quiet_access_session ops : quiet (access_session ops).
Proof.
  induction ops as [|[] ops IH]; cbn [access_session];
    unfold getCalDavClient, getCardDavClient, this; quiet_auto.
Qed.

#[local] Hint Resolve quiet_access_session : quiet.

Lemma quiet_list_tools_http P requestId : quiet (list_tools_http P requestId).
Proof. unfold list_tools_http, registry_map. quiet_auto. Qed.

Lemma quiet_call_tool_http P requestId request : quiet (call_tool_http P requestId request).
Proof.
  unfold call_tool_http, registry_find, logToolCallStart, logToolCallSuccess,
    logToolCallError, invoke.
  quiet_auto.
Qed.

(** *** The runs of the route handler past its awaits *)

Lemma post_mcp_catch_run res requestId error w :
  post_mcp_catch res requestId error w = (Normal (), caught res requestId error w).
Proof.
  unfold post_mcp_catch, caught, res_headersSent, sent_of, catch_line, internal_error.
  unfold_M. destruct (from_option headersSent false (responses w !! res)); cbn; [done|].
  f_equal. apply world_ext; reduce_worlds; try reflexivity. by rewrite <- !app_assoc.
Qed.

Lemma connect_settled_run res outcome w :
  connect_settled res outcome w
  = (Normal (),
     match route_of w res with
     | AwaitConnect requestId t s =>
         match outcome with
         | None =>
             set_responses (alter (routed (AwaitHandleRequest requestId t s)) res)
               (with_events [EvHandleRequest res t] w)
         | Some error =>
             set_responses (alter (routed Finished) res) (caught res requestId error w)
         end
     | _ => w
     end).
Proof.
  unfold connect_settled, get_route, route_of.
  unfold mbind at 1, M_bind at 1. unfold mbind at 1, M_bind at 1.
  unfold get_world at 1, mret at 1, M_ret at 1.
  destruct (from_option route NotRouted (responses w !! res)); try reflexivity.
  destruct outcome; [|reflexivity].
  unfold mbind, M_bind. by rewrite post_mcp_catch_run.
Qed.

Lemma handleRequest_settled_run res outcome w :
  handleRequest_settled res outcome w
  = (Normal (),
     match route_of w res with
     | AwaitHandleRequest requestId t s =>
         match outcome with
         | None => set_responses (alter (routed Finished) res) w
         | Some error =>
             set_responses (alter (routed Finished) res) (caught res requestId error w)
         end
     | _ => w
     end).
Proof.
  unfold handleRequest_settled, get_route, route_of.
  unfold mbind at 1, M_bind at 1. unfold mbind at 1, M_bind at 1.
  unfold get_world at 1, mret at 1, M_ret at 1.
  destruct (from_option route NotRouted (responses w !! res)); try reflexivity.
  destruct outcome; [|reflexivity].
  unfold mbind, M_bind. by rewrite post_mcp_catch_run.
Qed.

Lemma sdk_send_run res payload w :
  sdk_send res payload w = (Normal (), answered res [EvSend res payload] w).
Proof. reflexivity. Qed.

Lemma sdk_dispatch_eq P res r w :
  sdk_dispatch P res r w
  = match route_of w res with
    | AwaitHandleRequest requestId t s =>
        try_catch
          (result ← match r with
                    | ToolsList => list_tools_http P requestId
                    | ToolsCall request => call_tool_http P requestId request
                    end;
           sdk_send res (JObj [("jsonrpc", JStr (lit "2.0")); ("result", result)]))
          (λ error,
           sdk_send res
             (JObj [("jsonrpc", JStr (lit "2.0"));
                    ("error", JObj [("code", JNum (default (-32603)%Z (code error)));
                                    ("message", JStr (message error))])])) w
    | _ => (Normal (), w)
    end.
Proof.
  unfold sdk_dispatch, get_route, route_of.
  unfold mbind at 1, M_bind at 1. unfold mbind at 1, M_bind at 1.
  unfold get_world at 1, mret at 1, M_ret at 1.
  by destruct (from_option route NotRouted (responses w !! res)).
Qed.

(** A dispatch runs a handler, which writes on no response, and then the
    transport answers on the response of the request. *)
Lemma sdk_dispatch_run P res r w :
  ∃ evs,
    Forall (λ e, writes e = false) evs
    ∧ ((responses (sdk_dispatch P res r w).2 = responses w
        ∧ trace (sdk_dispatch P res r w).2 = trace w ++ evs)
       ∨ (∃ requestId t s payload,
            route_of w res = AwaitHandleRequest requestId t s
            ∧ responses (sdk_dispatch P res r w).2 = alter sent res (responses w)
            ∧ trace (sdk_dispatch P res r w).2 = trace w ++ evs ++ [EvSend res payload])).
Proof.
  rewrite sdk_dispatch_eq.
  destruct (route_of w res) as [|requestId t s|requestId t s|] eqn:Hroute;
    try (exists []; split; [constructor|left; by rewrite app_nil_r]).
  assert (Hq : quiet (match r with
                      | ToolsList => list_tools_http P requestId
                      | ToolsCall request => call_tool_http P requestId request
                      end)).
  { destruct r; [apply quiet_list_tools_http|apply quiet_call_tool_http]. }
  destruct (Hq w) as (Hr & evs & Ht & Hevs). exists evs. split; [exact Hevs|].
  unfold try_catch, mbind, M_bind.
  destruct (match r with
            | ToolsList => list_tools_http P requestId
            | ToolsCall request => call_tool_http P requestId request
            end w) as [[v|e|st] w1]; cbn [snd] in Hr, Ht.
  - right. eexists _, _, _, _. split; [reflexivity|]. rewrite sdk_send_run. cbn.
    rewrite Hr, Ht. split; [done|by rewrite <- app_assoc].
  - right. eexists _, _, _, _. split; [reflexivity|]. rewrite sdk_send_run. cbn.
    rewrite Hr, Ht. split; [done|by rewrite <- app_assoc].
  - left. done.
Qed.

(** *** Every response is written once *)

Lemma silent_events res evs :
  Forall (λ e, is_body res e = false ∧ is_answer res e = false) evs →
  bodies res evs = [] ∧ answers res evs = [].
Proof.
  induction 1 as [|e evs [Hb Ha] _ [IHb IHa]]; [done|].
  unfold bodies, answers in *. rewrite !filter_cons, IHb, IHa.
  destruct (decide (is_body res e = true)); [congruence|].
  destruct (decide (is_answer res e = true)); [congruence|]. done.
Qed.

Lemma quiet_silent res evs :
  Forall (λ e, writes e = false) evs →
  Forall (λ e, is_body res e = false ∧ is_answer res e = false) evs.
Proof. intros H. eapply Forall_impl; [exact H|]. intros e He. by destruct e. Qed.

(** Events that write on the response [res] only are silent for the
    others. *)
Lemma rejection_silent res res' pre lvl fields status c msg :
  res' ≠ res → Forall (λ e, writes e = false) pre →
  Forall (λ e, is_body res' e = false ∧ is_answer res' e = false)
    (pre ++ rejection res lvl fields status c msg).
Proof.
  intros Hne Hpre. apply Forall_app. split; [by apply quiet_silent|].
  unfold rejection. repeat constructor. cbn. by apply bool_decide_eq_false_2.
Qed.

Lemma written_once_silent w w' res evs :
  trace w' = trace w ++ evs →
  Forall (λ e, is_body res e = false ∧ is_answer res e = false) evs →
  sent_of w' res = sent_of w res →
  (∀ requestId t s, route_of w' res = AwaitConnect requestId t s → sent_of w res = false) →
  (∀ requestId t s, route_of w' res = AwaitHandleRequest requestId t s →
     bodies res (trace w) = []) →
  written_once w res → written_once w' res.
Proof.
  intros Ht Hevs Hs H4 H5 (I1 & I2 & I3 & I4 & I5).
  destruct (silent_events res evs Hevs) as [Hb Ha].
  unfold written_once, bodies, answers in *.
  rewrite Ht, !filter_app, Hb, Ha, !app_nil_r, Hs.
  split; [exact I1|]. split; [exact I2|]. split; [exact I3|]. split; [exact H4|exact H5].
Qed.

Lemma written_once_other w w' res evs :
  trace w' = trace w ++ evs →
  Forall (λ e, is_body res e = false ∧ is_answer res e = false) evs →
  responses w' !! res = responses w !! res →
  written_once w res → written_once w' res.
Proof.
  intros Ht Hevs Hr Hw. pose proof Hw as (I1 & I2 & I3 & I4 & I5).
  apply (written_once_silent w w' res evs); try done.
  - unfold sent_of. by rewrite Hr.
  - intros requestId t s. unfold route_of, sent_of in *. rewrite Hr. apply I4.
  - intros requestId t s. unfold route_of in *. rewrite Hr. apply I5.
Qed.

(** The first body on a response that has sent nothing. *)
Lemma written_once_body w w' res evs body :
  trace w' = trace w ++ evs →
  bodies res evs = [body] → answers res evs = [] →
  sent_of w res = false → sent_of w' res = true →
  route_of w' res = NotRouted ∨ route_of w' res = Finished →
  written_once w res → written_once w' res.
Proof.
  intros Ht Hb Ha Hs Hs' Hr (I1 & _). destruct (I1 Hs) as [Hb0 Ha0].
  unfold written_once, bodies, answers in *.
  rewrite Ht, !filter_app, Hb0, Ha0, Hb, Ha, Hs'. cbn.
  repeat split; try done; try lia.
  - intros requestId t s Hroute. destruct Hr as [Hr|Hr]; rewrite Hr in Hroute; discriminate.
  - intros requestId t s Hroute. destruct Hr as [Hr|Hr]; rewrite Hr in Hroute; discriminate.
Qed.

(** An answer of the transport while the handler waits for it. *)
Lemma written_once_answer w w' res evs payload requestId t s :
  trace w' = trace w ++ evs ++ [EvSend res payload] →
  Forall (λ e, writes e = false) evs →
  route_of w res = AwaitHandleRequest requestId t s →
  route_of w' res = route_of w res → sent_of w' res = true →
  written_once w res → written_once w' res.
Proof.
  intros Ht Hevs Hr Hr' Hs' (I1 & I2 & I3 & I4 & I5).
  destruct (silent_events res evs (quiet_silent res evs Hevs)) as [Hb _].
  pose proof (I5 _ _ _ Hr) as Hb0.
  assert (Hb1 : bodies res [EvSend res payload] = []).
  { unfold bodies. by rewrite filter_cons, decide_False. }
  unfold written_once, bodies in *.
  rewrite Ht, !filter_app, Hb0, Hb, Hb1, Hs', Hr', Hr. cbn [app length].
  split; [discriminate|]. split; [lia|]. split; [done|]. split; [discriminate|done].
Qed.

Lemma sent_of_alter f res res' w :
  sent_of (set_responses (alter f res) w) res'
  = if decide (res = res')
    then from_option (λ r, headersSent (f r)) false (responses w !! res')
    else sent_of w res'.
Proof.
  unfold sent_of. cbn. destruct (decide (res = res')) as [->|Hne].
  - rewrite lookup_alter_eq. by destruct (responses w !! res').
  - by rewrite lookup_alter_ne.
Qed.

Lemma route_of_alter f res res' w :
  route_of (set_responses (alter f res) w) res'
  = if decide (res = res')
    then from_option (λ r, route (f r)) NotRouted (responses w !! res')
    else route_of w res'.
Proof.
  unfold route_of. cbn. destruct (decide (res = res')) as [->|Hne].
  - rewrite lookup_alter_eq. by destruct (responses w !! res').
  - by rewrite lookup_alter_ne.
Qed.

(** The [catch] block keeps the invariant and finishes the route. *)
Lemma caught_written_once res res' requestId error w :
  route_of w res ≠ NotRouted →
  written_once w res' →
  written_once (set_responses (alter (routed Finished) res) (caught res requestId error w))
    res'.
Proof.
  intros Hrouted Hw. pose proof Hw as (I1 & I2 & I3 & I4 & I5).
  assert (Hsome : is_Some (responses w !! res)).
  { unfold route_of in Hrouted. destruct (responses w !! res); [by eexists|done]. }
  destruct Hsome as [r Hres].
  unfold caught. destruct (sent_of w res) eqn:Hsent.
  - apply (written_once_silent w _ res' [catch_line requestId error]);
      try done; try by repeat constructor.
    + rewrite sent_of_alter. destruct (decide (res = res')) as [<-|]; [|done].
      unfold sent_of. cbn. by rewrite Hres.
    + intros rid t s. rewrite route_of_alter.
      destruct (decide (res = res')) as [<-|]; [|apply I4]. cbn. by rewrite Hres.
    + intros rid t s. rewrite route_of_alter.
      destruct (decide (res = res')) as [<-|]; [|apply I5]. cbn. by rewrite Hres.
  - destruct (decide (res = res')) as [<-|Hne].
    + apply (written_once_body w _ res (catch_line requestId error :: internal_error res)
               (EvJson res (jsonrpc_error (-32603) "Internal server error")));
        try done.
      * unfold bodies, internal_error. cbn. by rewrite bool_decide_eq_true_2.
      * rewrite sent_of_alter, decide_True by done. unfold answered. cbn.
        rewrite lookup_alter_eq, Hres. reflexivity.
      * right. rewrite route_of_alter, decide_True by done. unfold answered. cbn.
        rewrite lookup_alter_eq, Hres. reflexivity.
    + apply (written_once_other w _ res' (catch_line requestId error :: internal_error res));
        try done.
      * unfold internal_error, catch_line. repeat constructor. cbn.
        by apply bool_decide_eq_false_2.
      * unfold answered. cbn. by rewrite !lookup_alter_ne.
Qed.

Lemma rejection_writes res lvl fields status c msg :
  bodies res (rejection res lvl fields status c msg) = [EvJson res (jsonrpc_error c msg)]
  ∧ answers res (rejection res lvl fields status c msg) = [].
Proof.
  unfold bodies, answers, rejection. rewrite !filter_cons. cbn [is_body is_answer].
  rewrite bool_decide_eq_true_2 by done. split; reflexivity.
Qed.

Lemma arrive_written_once P req w :
  (∀ res, written_once w res) → ∀ res, written_once (arrive P req w).2 res.
Proof.
  intros Hw res'. unfold arrive, app_post_mcp.
  set (res := fresh (dom (responses w))).
  assert (Hnone : responses w !! res = None) by apply fresh_None.
  assert (Hunsent : sent_of w res = false) by (unfold sent_of; by rewrite Hnone).
  set (w1 := set_responses (insert res new_response) w).
  destruct (gate_runs P res req (post_mcp P res req) w1)
    as [(pre & lvl & fields & status & c & msg & -> & Hpre)|(secret & _ & _ & ->)].
  - cbn [snd].
    assert (Hq : Forall (λ e, writes e = false) pre).
    { destruct Hpre as [->|(a & b & -> & _)]; by repeat constructor. }
    destruct (decide (res = res')) as [<-|Hne].
    + destruct (silent_events res pre (quiet_silent res pre Hq)) as [Hb Ha].
      destruct (rejection_writes res lvl fields status c msg) as [Hb' Ha'].
      apply (written_once_body w _ res (pre ++ rejection res lvl fields status c msg)
               (EvJson res (jsonrpc_error c msg))); try done.
      * unfold bodies in *. by rewrite filter_app, Hb, Hb'.
      * unfold answers in *. by rewrite filter_app, Ha, Ha'.
      * unfold sent_of, answered, w1. cbn. by rewrite lookup_alter_eq, lookup_insert_eq.
      * left. unfold route_of, answered, w1. cbn.
        by rewrite lookup_alter_eq, lookup_insert_eq.
    + apply (written_once_other w _ res' (pre ++ rejection res lvl fields status c msg));
        try done.
      * by apply rejection_silent.
      * unfold answered, w1. cbn. by rewrite lookup_alter_ne, lookup_insert_ne.
  - rewrite post_mcp_run. cbn [snd].
    set (evs := [EvTimingSafeEqual (Buffer_from secret) (Buffer_from secret);
                 EvRandomUUID (uuid_source P (uuidCalls w));
                 EvNew (fresh (dom (heap w))) (OTransport res false);
                 EvNew (fresh (dom (<[fresh (dom (heap w)) := OTransport res false]> (heap w))))
                   (OServer res (uuid_source P (uuidCalls w)) false);
                 EvOnClose res (fresh (dom (heap w)))
                   (fresh (dom (<[fresh (dom (heap w)) := OTransport res false]> (heap w))));
                 EvConnect res
                   (fresh (dom (<[fresh (dom (heap w)) := OTransport res false]> (heap w))))
                   (fresh (dom (heap w)))]).
    assert (Ht : trace (served P res
                          (with_events [EvTimingSafeEqual (Buffer_from secret)
                                          (Buffer_from secret)] w1))
                 = trace w ++ evs).
    { unfold served, evs, w1. cbn -[fresh insert dom alter]. by rewrite <- app_assoc. }
    assert (Hevs : Forall (λ e, writes e = false) evs) by (by repeat constructor).
    destruct (decide (res = res')) as [<-|Hne].
    + apply (written_once_silent w _ res evs); try done.
      * by apply quiet_silent.
      * unfold sent_of at 1, served, w1. cbn -[fresh insert dom alter].
        by rewrite !lookup_alter_eq, lookup_insert_eq.
      * intros requestId t s. unfold route_of, served, w1. cbn -[fresh insert dom alter].
        rewrite !lookup_alter_eq, lookup_insert_eq. discriminate.
    + apply (written_once_other w _ res' evs); try done.
      * by apply quiet_silent.
      * unfold served, w1. cbn -[fresh insert dom alter].
        by rewrite !lookup_alter_ne, lookup_insert_ne.
Qed.

Lemma step_written_once P i w :
  (∀ res, written_once w res) → ∀ res, written_once (step P i w) res.
Proof.
  intros Hw res'. destruct i as [req|res outcome|res r|res outcome|res]; cbn [step].
  - by apply arrive_written_once.
  - rewrite connect_settled_run. cbn [snd].
    destruct (route_of w res) as [|requestId t s|requestId t s|] eqn:Hroute; try apply Hw.
    destruct outcome as [error|].
    + apply caught_written_once; [by rewrite Hroute|apply Hw].
    + pose proof (Hw res') as (I1 & I2 & I3 & I4 & I5).
      apply (written_once_silent w _ res' [EvHandleRequest res t]);
        try done; try by repeat constructor.
      * rewrite sent_of_alter. destruct (decide (res = res')) as [<-|]; [|done].
        unfold sent_of. cbn. by destruct (responses w !! res).
      * intros rid t' s'. rewrite route_of_alter.
        destruct (decide (res = res')) as [<-|]; [|apply I4].
        intros _. by apply (I4 requestId t s).
      * intros rid t' s'. rewrite route_of_alter.
        destruct (decide (res = res')) as [<-|]; [|apply I5].
        intros _. by apply I1, (I4 requestId t s).
  - destruct (sdk_dispatch_run P res r w)
      as (evs & Hevs & [[Hr Ht]|(requestId & t & s & payload & Hroute & Hr & Ht)]).
    + apply (written_once_other w _ res' evs); try done; [by apply quiet_silent|].
      by rewrite Hr.
    + destruct (decide (res = res')) as [<-|Hne].
      * apply (written_once_answer w _ res evs payload requestId t s); try done.
        -- unfold route_of in *. rewrite Hr, lookup_alter_eq.
           by destruct (responses w !! res).
        -- unfold sent_of, route_of in *. rewrite Hr, lookup_alter_eq.
           by destruct (responses w !! res).
      * apply (written_once_other w _ res' (evs ++ [EvSend res payload])); try done.
        -- apply Forall_app. split; [by apply quiet_silent|].
           repeat constructor. cbn. by apply bool_decide_eq_false_2.
        -- by rewrite Hr, lookup_alter_ne.
  - rewrite handleRequest_settled_run. cbn [snd].
    destruct (route_of w res) as [|requestId t s|requestId t s|] eqn:Hroute; try apply Hw.
    destruct outcome as [error|].
    + apply caught_written_once; [by rewrite Hroute|apply Hw].
    + pose proof (Hw res') as (I1 & I2 & I3 & I4 & I5).
      apply (written_once_silent w _ res' []); try done.
      * by rewrite app_nil_r.
      * rewrite sent_of_alter. destruct (decide (res = res')) as [<-|]; [|done].
        unfold sent_of. cbn. by destruct (responses w !! res).
      * intros rid t' s'. rewrite route_of_alter.
        destruct (decide (res = res')) as [<-|]; [|apply I4].
        unfold route_of in Hroute. by destruct (responses w !! res).
      * intros rid t' s'. rewrite route_of_alter.
        destruct (decide (res = res')) as [<-|]; [|apply I5].
        unfold route_of in Hroute. by destruct (responses w !! res).
  - rewrite res_close_run.
    destruct (responses w !! res) as [r0|] eqn:Hres; [|apply Hw].
    destruct (closed r0); [apply Hw|]. cbn [snd].
    pose proof (Hw res') as (I1 & I2 & I3 & I4 & I5).
    assert (Hq : Forall (λ e, writes e = false) (closing res (closeListeners r0))).
    { unfold closing. induction (closeListeners r0) as [|[t s] l IH]; cbn;
        by repeat constructor. }
    apply (written_once_silent w _ res' (closing res (closeListeners r0)));
      try done; try by apply quiet_silent.
    + unfold sent_of. cbn.
      destruct (decide (res = res')) as [<-|];
        [rewrite lookup_alter_eq; by destruct (responses w !! res)|by rewrite lookup_alter_ne].
    + intros rid t s. unfold route_of, sent_of in *. cbn.
      destruct (decide (res = res')) as [<-|]; [|rewrite lookup_alter_ne by done; apply I4].
      rewrite lookup_alter_eq. specialize (I4 rid t s).
      destruct (responses w !! res); [exact I4|done].
    + intros rid t s. unfold route_of in *. cbn.
      destruct (decide (res = res')) as [<-|]; [|rewrite lookup_alter_ne by done; apply I5].
      rewrite lookup_alter_eq. specialize (I5 rid t s).
      destruct (responses w !! res); [exact I5|done].
Qed.

Lemma run_written_once P inputs res : written_once (run P inputs initial_world) res.
Proof.
  assert (H : ∀ w, (∀ res, written_once w res) → ∀ res, written_once (run P inputs w) res).
  { induction inputs as [|i inputs IH]; intros w Hw; [done|].
    rewrite run_cons. apply IH. by apply step_written_once. }
  apply H. intros res0. unfold written_once, bodies, answers, sent_of, route_of. cbn.
  rewrite lookup_empty. cbn. repeat split; try done; lia.
Qed.

(** The routes that answer at once write one body on a new response. *)
Lemma arrive_at_written_once route req w :
  (∀ res w0, ∃ pre body,
     route res req w0 = (Normal (), answered res (pre ++ [EvJson res body]) w0)
     ∧ Forall (λ e, writes e = false) pre) →
  (∀ res, written_once w res) → ∀ res, written_once (arrive_at route req w).2 res.
Proof.
  intros Hroute Hw res'. unfold arrive_at.
  set (res := fresh (dom (responses w))).
  destruct (Hroute res (set_responses (insert res new_response) w))
    as (pre & body & -> & Hpre).
  cbn [snd].
  assert (Hnone : responses w !! res = None) by apply fresh_None.
  destruct (decide (res = res')) as [<-|Hne].
  - destruct (silent_events res pre (quiet_silent res pre Hpre)) as [Hb Ha].
    apply (written_once_body w _ res (pre ++ [EvJson res body]) (EvJson res body));
      try done.
    + unfold bodies in *. rewrite filter_app, Hb, filter_cons. cbn [is_body].
      by rewrite bool_decide_eq_true_2.
    + unfold answers in *. by rewrite filter_app, Ha.
    + unfold sent_of. by rewrite Hnone.
    + unfold sent_of, answered. cbn. by rewrite lookup_alter_eq, lookup_insert_eq.
    + left. unfold route_of, answered. cbn. by rewrite lookup_alter_eq, lookup_insert_eq.
  - apply (written_once_other w _ res' (pre ++ [EvJson res body])); try done.
    + apply Forall_app. split; [by apply quiet_silent|].
      repeat constructor. cbn. by apply bool_decide_eq_false_2.
    + unfold answered. cbn. by rewrite lookup_alter_ne, lookup_insert_ne.
Qed.

Lemma status_json_run res status payload w :
  (res_status res status;; res_json res payload) w
  = (Normal (), answered res ([EvStatus res status] ++ [EvJson res payload]) w).
Proof.
  unfold_M. f_equal. apply world_ext; reduce_worlds; try reflexivity.
  by rewrite <- !app_assoc.
Qed.

Lemma app_get_root_run P res req w :
  app_get_root P res req w
  = (Normal (),
     answered res
       ([EvRegistry ListAll]
        ++ [EvJson res
              (JObj [("name", JStr (server_name P));
                     ("version", JStr (server_version P));
                     ("transport", JStr (lit "http-stateless"));
                     ("description",
                      JStr (lit "MCP Streamable HTTP Server for CalDAV/CardDAV integration (stateless)"));
                     ("endpoints", JObj [("mcp", JStr (lit "/mcp (POST only)"));
                                         ("health", JStr (lit "/health (GET)"))]);
                     ("tools", JArr (map describe (tools P)))])]) w).
Proof.
  unfold app_get_root. unfold_M. f_equal.
  apply world_ext; reduce_worlds; try reflexivity. by rewrite <- !app_assoc.
Qed.

Lemma serve_written_once P i w :
  (∀ res, written_once w res) → ∀ res, written_once (serve P i w) res.
Proof.
  intros Hw. destruct i as [i|req|req|now req|req]; cbn [serve].
  - by apply step_written_once.
  - apply arrive_at_written_once; [|done]. intros res w0. eexists [_], _.
    split; [apply status_json_run|by repeat constructor].
  - apply arrive_at_written_once; [|done]. intros res w0. eexists [_], _.
    split; [apply status_json_run|by repeat constructor].
  - apply arrive_at_written_once; [|done]. intros res w0. eexists [], _.
    split; [reflexivity|constructor].
  - apply arrive_at_written_once; [|done]. intros res w0. eexists [_], _.
    split; [apply app_get_root_run|by repeat constructor].
Qed.

Lemma serve_all_cons P i inputs w :
  serve_all P (i :: inputs) w = serve_all P inputs (serve P i w).
Proof. reflexivity. Qed.

Lemma serve_all_app P xs ys w :
  serve_all P (xs ++ ys) w = serve_all P ys (serve_all P xs w).
Proof. apply foldl_app. Qed.

Lemma serve_all_written_once P inputs res :
  written_once (serve_all P inputs initial_world) res.
Proof.
  assert (H : ∀ w, (∀ res, written_once w res) →
                   ∀ res, written_once (serve_all P inputs w) res).
  { induction inputs as [|i inputs IH]; intros w Hw; [done|].
    rewrite serve_all_cons. apply IH. by apply serve_written_once. }
  apply H. intros res0. unfold written_once, bodies, answers, sent_of, route_of. cbn.
  rewrite lookup_empty. cbn. repeat split; try done; lia.
Qed.

(** X21. Every response is written once. In every interleaving of requests to
    all routes, settled awaits, dispatches and close events, the program
    writes at most one body of its own on a response (a rejection of the
    gate, the 500 of the [catch] block, a 405, the health or the info
    answer), and never on a response on which the SDK transport has
    answered or goes on to answer. *)
Theorem one_body_per_response P inputs res :
  let t := trace (serve_all P inputs initial_world) in
  (length (bodies res t) ≤ 1)%nat
  ∧ (bodies res t ≠ [] → answers res t = [])
  ∧ (answers res t ≠ [] → bodies res t = []).
Proof.
  destruct (serve_all_written_once P inputs res) as (_ & I2 & I3 & _). cbn zeta.
  split; [exact I2|split; [exact I3|]].
  intros Ha. destruct (bodies res _) eqn:Hb; [done|]. exfalso. by apply Ha, I3.
Qed.

Lemma one_body_per_response_witness :
  bodies 0 (trace (serve_all http_platform [PostMcp (Arrive anonymous)] initial_world)) ≠ []
  ∧ answers 0 (trace (serve_all http_platform [PostMcp (Arrive anonymous)] initial_world))
    = [].
Proof.
  assert (H : bodies 0 (trace (serve_all http_platform [PostMcp (Arrive anonymous)]
                                 initial_world)) ≠ []) by (by vm_compute).
  split; [exact H|].
  exact (proj1 (proj2 (one_body_per_response http_platform [PostMcp (Arrive anonymous)] 0%nat))
           H).
Defined.

(** X22. The [catch] block of [POST /mcp]. When [server.connect] fails, the
    failure is logged with the request id and the client gets status 500
    with the fixed body [Internal server error], which does not carry the
    message of the error; when [transport.handleRequest] fails it is the
    same if nothing has been sent, and only the log line if the headers
    are already sent. In both cases the handler is finished. *)
Theorem route_failure_answers_500 P inputs res requestId t s error :
  let w := serve_all P inputs initial_world in
  (route_of w res = AwaitConnect requestId t s →
   connect_settled res (Some error) w
   = (Normal (),
      set_responses (alter (routed Finished) res)
        (answered res (catch_line requestId error :: internal_error res) w)))
  ∧ (route_of w res = AwaitHandleRequest requestId t s →
     handleRequest_settled res (Some error) w
     = (Normal (),
        set_responses (alter (routed Finished) res)
          (if sent_of w res then with_events [catch_line requestId error] w
           else answered res (catch_line requestId error :: internal_error res) w))).
Proof.
  cbn zeta. split; intros Hroute.
  - rewrite connect_settled_run, Hroute. unfold caught.
    destruct (serve_all_written_once P inputs res) as (_ & _ & _ & I4 & _).
    by rewrite (I4 _ _ _ Hroute).
  - rewrite handleRequest_settled_run, Hroute. reflexivity.
Qed.

Lemma route_failure_answers_500_witness :
  connect_settled 0 (Some (sample_error "connect failed"))
    (serve_all http_platform [PostMcp (Arrive (bearer "s3cret"))] initial_world)
  = (Normal (),
     set_responses (alter (routed Finished) 0%nat)
       (answered 0
          (catch_line (lit "request-0") (sample_error "connect failed") :: internal_error 0)
          (serve_all http_platform [PostMcp (Arrive (bearer "s3cret"))] initial_world))).
Proof.
  apply (proj1 (route_failure_answers_500 http_platform [PostMcp (Arrive (bearer "s3cret"))]
                  0%nat (lit "request-0") 0%nat 1%nat (sample_error "connect failed"))).
  reflexivity.
Defined.

(** *** The instances, on all routes *)

Lemma arrive_at_advances route req w :
  (∀ res, benign (route res req)) → advances (abs w) (abs (arrive_at route req w).2).
Proof.
  intros Hb. unfold arrive_at.
  set (res := fresh (dom (responses w))).
  set (w1 := set_responses (insert res new_response) w).
  assert (Hfresh : lifecycles w !! res = None).
  { rewrite lifecycles_lookup.
    rewrite (proj1 (not_elem_of_dom (responses w) res)); [done|]. apply is_fresh. }
  rewrite (Hb res w1). unfold abs, w1, lifecycles. cbn. rewrite fmap_insert.
  by apply advances_new.
Qed.

Lemma benign_app_get_mcp res req : benign (app_get_mcp res req).
Proof. unfold app_get_mcp. benign_auto. Qed.

Lemma benign_app_delete_mcp res req : benign (app_delete_mcp res req).
Proof. unfold app_delete_mcp. benign_auto. Qed.

Lemma benign_app_get_health P now res req : benign (app_get_health P now res req).
Proof. unfold app_get_health. benign_auto. Qed.

Lemma benign_app_get_root P res req : benign (app_get_root P res req).
Proof. unfold app_get_root. benign_auto. Qed.

Lemma serve_advances P i w : advances (abs w) (abs (serve P i w)).
Proof.
  destruct i as [i|req|req|now req|req]; cbn [serve].
  - apply step_advances.
  - apply arrive_at_advances. intros res. apply benign_app_get_mcp.
  - apply arrive_at_advances. intros res. apply benign_app_delete_mcp.
  - apply arrive_at_advances. intros res. apply benign_app_get_health.
  - apply arrive_at_advances. intros res. apply benign_app_get_root.
Qed.

(** A route other than [POST /mcp] answers at once, on a new response. *)
Lemma other_routes_answer P i w :
  (∀ j, i ≠ PostMcp j) →
  ∃ pre body,
    serve P i w
    = answered (next_res w) (pre ++ [EvJson (next_res w) body])
        (set_responses (insert (next_res w) new_response) w)
    ∧ Forall (λ e, writes e = false ∧ uses e = []) pre.
Proof.
  intros Hi. destruct i as [j|req|req|now req|req]; cbn [serve]; [by destruct (Hi j)|..];
    unfold arrive_at, next_res, app_get_mcp, app_delete_mcp.
  - eexists [_], _. rewrite status_json_run. split; [reflexivity|by repeat constructor].
  - eexists [_], _. rewrite status_json_run. split; [reflexivity|by repeat constructor].
  - eexists [], _. split; [reflexivity|constructor].
  - eexists [_], _. rewrite app_get_root_run. split; [reflexivity|by repeat constructor].
Qed.

Lemma serve_all_advances P inputs w : advances (abs w) (abs (serve_all P inputs w)).
Proof.
  revert w. induction inputs as [|i inputs IH]; intros w; [apply advances_refl|].
  rewrite serve_all_cons. eapply advances_trans; [apply serve_advances|apply IH].
Qed.

(** X23. The other routes leave the instances alone. A request to [GET /mcp],
    [DELETE /mcp], [GET /health] or [GET /] constructs nothing, touches no
    instance and leaves the session manager as it is; and in every
    interleaving of requests to all routes the transports and servers of
    a response are closed once it has closed, and no instance is touched
    on behalf of two responses. *)
Theorem instances_on_all_routes P :
  (∀ i w, (∀ j, i ≠ PostMcp j) →
     heap (serve P i w) = heap w
     ∧ touched (serve P i w) = touched w
     ∧ tsdavManager (serve P i w) = tsdavManager w)
  ∧ (∀ inputs res more,
       is_Some (responses (serve_all P inputs initial_world) !! res) →
       ∀ a o,
         heap (serve_all P (inputs ++ PostMcp (ResClose res) :: more) initial_world) !! a
         = Some o →
         constructed_for res o = true → is_closed o = true)
  ∧ (∀ inputs a r1 r2,
       In (a, r1) (touched (serve_all P inputs initial_world)) →
       In (a, r2) (touched (serve_all P inputs initial_world)) → r1 = r2).
Proof.
  repeat apply conj.
  - intros i w Hi. destruct (other_routes_answer P i w Hi) as (pre & body & -> & Hpre).
    repeat split. unfold touched, answered. cbn. rewrite flat_map_app.
    replace (flat_map uses (pre ++ [EvJson (next_res w) body])) with (@nil (nat * nat));
      [by rewrite app_nil_r|].
    rewrite flat_map_app. cbn. rewrite app_nil_r.
    induction Hpre as [|e pre [_ He] _ IH]; [done|]. cbn. by rewrite He.
  - intros inputs res more [r Hres] a o Ha Hc.
    rewrite serve_all_app, serve_all_cons in Ha.
    assert (Hinv0 : Inv (serve_all P inputs initial_world)).
    { apply (serve_all_advances P inputs initial_world), Inv_initial. }
    generalize dependent (serve_all P inputs initial_world). intros w0 Hres Ha Hinv0.
    assert (Hinv : Inv (serve_all P more (serve P (PostMcp (ResClose res)) w0))).
    { by apply (serve_all_advances P more _), (serve_advances P (PostMcp (ResClose res)) w0). }
    set (w1 := serve P (PostMcp (ResClose res)) w0) in *.
    assert (H1 : lifecycles w1 !! res = Some (closeListeners r, true, route r)).
    { unfold w1. change (serve P (PostMcp (ResClose res)) w0) with (res_close res w0).2.
      rewrite res_close_run, Hres.
      destruct (closed r) eqn:Hcl; cbn [snd]; rewrite lifecycles_lookup.
      - rewrite Hres. cbn. unfold lifecycle. by rewrite Hcl.
      - cbn -[alter]. rewrite lookup_alter_eq, Hres. reflexivity. }
    destruct (proj2 (serve_all_advances P more w1) res _ true _ H1)
      as (l' & c' & p' & H2 & Hc').
    destruct (ok_owner _ _ _ Hinv a o res Ha Hc) as (l2 & c2 & p2 & H3 & Hclosed & _).
    change (lifecycles (serve_all P more w1) !! res = Some (l', c', p')) in H2.
    rewrite H2 in H3. simplify_eq. auto.
  - intros inputs a r1 r2 H1 H2.
    assert (Hinv : Inv (serve_all P inputs initial_world)).
    { apply (serve_all_advances P inputs initial_world), Inv_initial. }
    destruct (ok_uses _ _ _ Hinv a r1 H1) as (o1 & Ho1 & Hc1).
    destruct (ok_uses _ _ _ Hinv a r2 H2) as (o2 & Ho2 & Hc2).
    rewrite Ho1 in Ho2. simplify_eq. by eapply constructed_for_inj.
Qed.

Lemma instances_on_all_routes_witness :
  heap (serve http_platform (GetRoot anonymous) initial_world) = heap initial_world
  ∧ (∀ a o,
       heap (serve_all http_platform
               ([PostMcp (Arrive (bearer "s3cret")); GetHealth sample_vitals anonymous]
                ++ PostMcp (ResClose 0) :: []) initial_world) !! a = Some o →
       constructed_for 0 o = true → is_closed o = true).
Proof.
  split.
  - apply (proj1 (instances_on_all_routes http_platform) (GetRoot anonymous) initial_world).
    intros j. discriminate.
  - apply (proj1 (proj2 (instances_on_all_routes http_platform))
             [PostMcp (Arrive (bearer "s3cret")); GetHealth sample_vitals anonymous]
             0%nat []).
    vm_compute. eexists. reflexivity.
Defined.

(** ** The other routes, the CORS policy and the command line *)

(** X24. [GET /] and [GET /health] against [tools/list]. The info route
    answers with the name and the description of every registered tool, in
    registry order and without the input schema: the names and
    descriptions [tools/list] returns. The health route reports the number
    of those tools, the same server name and version as the info route,
    and the status [healthy]. *)
Theorem info_agrees_with_list P now res req requestId w :
  ∃ listed info shown health,
    (list_tools_http P requestId w).1 = Normal (JObj [("tools", JArr listed)])
    ∧ events_of (app_get_root P res req) w = [EvRegistry ListAll; EvJson res info]
    ∧ events_of (app_get_health P now res req) w = [EvJson res health]
    ∧ get "tools" info = Some (JArr shown)
    ∧ map (get "name") shown = map (get "name") listed
    ∧ map (get "description") shown = map (get "description") listed
    ∧ Forall (λ entry, keys entry = ["name"; "description"]) shown
    ∧ get "tools" health = Some (JNum (Z.of_nat (length listed)))
    ∧ get "server" health = get "name" info
    ∧ get "version" health = get "version" info
    ∧ get "status" health = Some (JStr (lit "healthy")).
Proof.
  eexists (map project (tools P)), _, (map describe (tools P)), _.
  split; [reflexivity|].
  split; [apply (events_of_answered _ _ _ _ _ (app_get_root_run P res req w))|].
  split; [by apply (events_of_answered (app_get_health P now res req) w (Normal ()) res)|].
  split; [reflexivity|].
  split; [by rewrite !map_map|].
  split; [by rewrite !map_map|].
  split; [apply Forall_map, Forall_forall; by intros t _|].
  split; [unfold count; by rewrite length_map|].
  repeat split; reflexivity.
Qed.

(** *** [split], [indexOf] and [includes] *)

Lemma split_not_nil sep s : split sep s ≠ [].
Proof. destruct s as [|c r]; cbn; [done|]. by destruct (c =? sep). Qed.

Lemma split_hd_tl sep s : split sep s = hd [] (split sep s) :: tl (split sep s).
Proof. pose proof (split_not_nil sep s). by destruct (split sep s). Qed.

Lemma join_cons sep p rest :
  rest ≠ [] → join sep (p :: rest) = p ++ sep :: join sep rest.
Proof. by destruct rest. Qed.

(** Joining the pieces with the separator gives the string back. *)
Lemma join_split sep s : join sep (split sep s) = s.
Proof.
  induction s as [|c r IH]; [done|]. cbn [split].
  destruct (N.eqb_spec c sep) as [->|Hne].
  - rewrite join_cons by apply split_not_nil. by rewrite IH.
  - cbn zeta. rewrite (split_hd_tl sep r) in IH.
    destruct (tl (split sep r)) as [|q rest]; cbn in *; by rewrite IH.
Qed.

Lemma split_no_sep sep s : Forall (λ p, sep ∉ p) (split sep s).
Proof.
  induction s as [|c r IH]; cbn [split].
  - repeat constructor. by intros ?%elem_of_nil.
  - destruct (N.eqb_spec c sep) as [->|Hne].
    + constructor; [by intros ?%elem_of_nil|exact IH].
    + cbn zeta. rewrite (split_hd_tl sep r) in IH. inversion_clear IH as [|? ? Hp Hrest].
      constructor; [|exact Hrest].
      intros [->|Hin]%elem_of_cons; [done|by apply Hp].
Qed.

Lemma split_app sep p v : sep ∉ p → split sep (p ++ sep :: v) = p :: split sep v.
Proof.
  induction p as [|c p IH]; intros Hp; cbn [app split].
  - by rewrite N.eqb_refl.
  - destruct (N.eqb_spec c sep) as [->|Hne]; [exfalso; apply Hp; by left|].
    cbn zeta. rewrite IH; [done|]. intros Hin. apply Hp. by right.
Qed.

(** The first piece is the part of the string before the first separator. *)
Lemma split_head sep v :
  (hd [] (split sep v) `prefix_of` v)
  ∧ (sep ∉ hd [] (split sep v))
  ∧ (hd [] (split sep v) ≠ v → ∃ rest, v = hd [] (split sep v) ++ sep :: rest).
Proof.
  pose proof (join_split sep v) as Hj. pose proof (split_no_sep sep v) as Hn.
  rewrite (split_hd_tl sep v) in Hj, Hn. inversion_clear Hn as [|? ? Hp _].
  split; [|split; [exact Hp|]].
  - destruct (tl (split sep v)) as [|q rest].
    + cbn in Hj. by rewrite Hj.
    + rewrite join_cons in Hj by done. eexists. symmetry. exact Hj.
  - intros Hne. destruct (tl (split sep v)) as [|q rest].
    + cbn in Hj. done.
    + rewrite join_cons in Hj by done. eexists. symmetry. exact Hj.
Qed.

Lemma indexOf_found xs x : indexOf xs x ≠ (-1)%Z ↔ x ∈ xs.
Proof.
  assert (Hge : ∀ ys, (-1 ≤ indexOf ys x)%Z).
  { induction ys as [|y ys IH]; cbn; [lia|]. destruct (str_eqb y x); [lia|].
    destruct (Z.eqb_spec (indexOf ys x) (-1)); lia. }
  induction xs as [|y xs IH]; cbn.
  - split; [done|by intros ?%elem_of_nil].
  - unfold str_eqb. case_bool_decide as Hy.
    + subst. split; [intros _; by left|done].
    + rewrite elem_of_cons, <- IH. specialize (Hge xs).
      destruct (Z.eqb_spec (indexOf xs x) (-1)); split; try lia; try tauto;
        try (intros [?|?]; [congruence|done]); try (intros _; by right).
Qed.

Lemma includes_found xs x : includes xs x = true ↔ x ∈ xs.
Proof.
  unfold includes. rewrite existsb_exists. split.
  - intros (y & Hin & Hy). apply bool_decide_eq_true in Hy as ->. by apply list_elem_of_In.
  - intros Hin. exists x. split; [by apply list_elem_of_In|by apply bool_decide_eq_true].
Qed.

Lemma cors_origin_run P o :
  o ≠ [] →
  cors_origin P (Some o)
  = if decide (o ∈ allowedOrigins P ∨ lit "*" ∈ allowedOrigins P) then inr true
    else inl not_allowed.
Proof.
  intros Ho. destruct o as [|c o]; [done|]. cbn [cors_origin].
  pose proof (indexOf_found (allowedOrigins P) (c :: o)) as Hi.
  pose proof (includes_found (allowedOrigins P) (lit "*")) as Hs.
  destruct (Z.eqb_spec (indexOf (allowedOrigins P) (c :: o)) (-1)) as [Heq|Hne];
    cbn [negb orb].
  - destruct (includes (allowedOrigins P) (lit "*")).
    + rewrite decide_True; [done|]. right. by apply Hs.
    + rewrite decide_False; [done|]. intros [Hin|Hin].
      * by apply Hi in Hin.
      * by apply Hs in Hin.
  - rewrite decide_True; [done|]. left. by apply Hi.
Qed.

(** X25. The CORS decision. A request is let through exactly when it has no
    [Origin] (or an empty one), when its origin is one of the allowed
    origins, compared as whole strings, or when [*] is among the allowed
    origins; otherwise the callback gets the error [Not allowed by CORS]. *)
Theorem cors_origin_decision P origin :
  (cors_origin P origin = inr true
   ↔ truthy origin = false
     ∨ ∃ o, origin = Some o ∧ (o ∈ allowedOrigins P ∨ lit "*" ∈ allowedOrigins P))
  ∧ (cors_origin P origin = inr true ∨ cors_origin P origin = inl not_allowed).
Proof.
  destruct origin as [[|c o]|].
  1,3: split; [split; [by left|done]|by left].
  rewrite cors_origin_run by done.
  destruct (decide _) as [Hin|Hno].
  - split; [|by left]. split; [|done]. intros _. right. by eexists.
  - split; [|by right]. split; [done|].
    intros [?|(o' & [= <-] & Hin)]; done.
Qed.

(** X26. The allowed origins. With [CORS_ALLOWED_ORIGINS] unset or empty they
    are the two local origins. Otherwise they are the pieces of the
    variable between its commas, nothing trimmed and nothing dropped:
    joined by commas they give the variable back, and none contains a
    comma, so an origin with a comma is refused unless [*] is allowed. *)
Theorem allowedOrigins_entries P :
  (truthy (env P "CORS_ALLOWED_ORIGINS") = false →
   allowedOrigins P = [lit "http://localhost:5678"; lit "http://localhost:3000"])
  ∧ (∀ s, env P "CORS_ALLOWED_ORIGINS" = Some s → s ≠ [] →
       join 44 (allowedOrigins P) = s
       ∧ Forall (λ o, 44 ∉ o) (allowedOrigins P)
       ∧ ∀ origin, 44 ∈ origin → (lit "*" ∉ allowedOrigins P) →
           cors_origin P (Some origin) = inl not_allowed).
Proof.
  split.
  - unfold allowedOrigins. by destruct (env P "CORS_ALLOWED_ORIGINS") as [[|c r]|].
  - intros s He Hs.
    assert (Hall : allowedOrigins P = split 44 s).
    { unfold allowedOrigins. rewrite He. by destruct s. }
    split; [rewrite Hall; apply join_split|].
    split; [rewrite Hall; apply split_no_sep|].
    intros origin Hcomma Hstar.
    rewrite cors_origin_run by (intros ->; by apply elem_of_nil in Hcomma).
    rewrite decide_False; [done|]. intros [Hin|Hin]; [|done].
    rewrite Hall in Hin. pose proof (split_no_sep 44 s) as Hn.
    rewrite Forall_forall in Hn. by apply (Hn origin).
Qed.

Lemma allowedOrigins_entries_witness :
  join 44 (allowedOrigins cors_platform) = lit "https://a.example, https://b.example"
  ∧ cors_origin cors_platform (Some (lit "https://a.example,")) = inl not_allowed.
Proof.
  destruct (proj2 (allowedOrigins_entries cors_platform)
              (lit "https://a.example, https://b.example") eq_refl)
    as (Hj & _ & Hc); [discriminate|].
  split; [exact Hj|]. apply Hc.
  - apply list_elem_of_In. vm_compute. tauto.
  - intros Hin. apply list_elem_of_In in Hin. vm_compute in Hin.
    destruct Hin as [Hin|[Hin|[]]]; discriminate.
Defined.

(** X27. The [--port] argument. In HTTP mode with a first argument of the form
    [--port=v], [PORT] is set to the part of [v] before its first [=]
    (to all of [v] when it has none); the constant [PORT] of an HTTP
    server that finds this value is that string, and 3000 when the string
    is empty. *)
Theorem cli_port argv vars v :
  lit "--http" ∈ drop 2 argv →
  find (λ a, startsWith a (lit "--port=")) (drop 2 argv) = Some (lit "--port=" ++ v) →
  let port := hd [] (split 61 v) in
  (cli argv vars).2 = ImportHttpServer
  ∧ getenv (cli argv vars).1 "PORT" = Some port
  ∧ (port `prefix_of` v)
  ∧ (61 ∉ port)
  ∧ (port ≠ v → ∃ rest, v = port ++ 61 :: rest)
  ∧ (∀ P, env P "PORT" = getenv (cli argv vars).1 "PORT" →
       PORT P = if decide (port = []) then JNum 3000 else JStr port).
Proof.
  intros Hhttp Hport. cbn zeta.
  destruct (split_head 61 v) as (Hpre & Hno & Hrest).
  assert (Hlook : getenv (cli argv vars).1 "PORT" = Some (hd [] (split 61 v))).
  { unfold getenv, cli. apply includes_found in Hhttp. rewrite Hhttp, Hport.
    cbv zeta. destruct (lit "--port=" ++ v) as [|c0 r0] eqn:Ha; [by vm_compute in Ha|].
    match goal with
    | |- context [assign_env "PORT" ?x vars] =>
        assert (Hsplit : x = Some (hd [] (split 61 v)))
    end.
    { rewrite <- Ha.
      change (lit "--port=" ++ v) with ([45; 45; 112; 111; 114; 116] ++ 61 :: v).
      rewrite split_app.
      - by rewrite (split_hd_tl 61 v).
      - intros Hin. apply list_elem_of_In in Hin. cbn in Hin.
        repeat destruct Hin as [Hin|Hin]; try discriminate. done. }
    rewrite Hsplit. unfold assign_env. cbn [default].
    destruct (find (λ a, startsWith a (lit "--host=")) (drop 2 argv)) as [[|c r]|]; cbn [fst];
      rewrite ?lookup_insert_ne by done; apply lookup_insert_eq. }
  split; [|split; [exact Hlook|split; [exact Hpre|split; [exact Hno|split; [exact Hrest|]]]]].
  - unfold cli. apply includes_found in Hhttp. by rewrite Hhttp.
  - intros P HP. rewrite Hlook in HP. unfold PORT. rewrite HP.
    destruct (hd [] (split 61 v)); [by rewrite decide_True|by rewrite decide_False].
Qed.

Lemma cli_port_witness :
  getenv (cli [lit "node"; lit "dav-mcp"; lit "--http"; lit "--port=8080=1"] ∅).1 "PORT"
  = Some (lit "8080").
Proof.
  apply (cli_port [lit "node"; lit "dav-mcp"; lit "--http"; lit "--port=8080=1"] ∅
           (lit "8080=1")).
  - apply list_elem_of_In. vm_compute. tauto.
  - reflexivity.
Defined.
